(** * MAC-address whitelist service: a shallow embedding

    The repository ships three variants of the same service:

    - [Basic]    : api/mac-auth.js, a module-level [Map] persisted to a main
                   data file and a backup file;
    - [Enhanced] : api/mac-auth-enhanced.js, the same handlers over a
                   [memoryStore] persisted to three locations;
    - [Database] : mac-database.js, the [MACDatabase] class, which re-reads
                   its JSON file on every call.

    The request handlers of the first two are the same code up to the
    name of the store, the persist procedure they call, and the
    [persistent] field that the second adds to its answers; they are
    embedded once, in the section [Handlers], and instantiated twice.
    A handler and the persist it starts are run in sequence: the enhanced
    check-access handler does not wait for its persist, which serialises
    the store before it first yields, so the bytes written are the same.

    Modelling conventions.  Strings are [string] (byte strings; the case
    conversion is the ASCII one, which is what [toLowerCase] does on MAC
    addresses).  A timestamp is the number of milliseconds since the epoch,
    a [Z]; [new Date()] is the argument [now] of every operation.  JavaScript
    numbers are [Z].  A property that may be missing, [undefined] or [null]
    is an [option].  A file holds [Garbage] or a successfully parsed JSON
    value, so that [JSON.parse (JSON.stringify v)] is [v]. *)

From Stdlib Require Import List String Ascii ZArith Bool Lia DecimalString.
From Stdlib Require Import Permutation Sorted.
Import ListNotations.

Set Implicit Arguments.

Local Open Scope string_scope.
Local Open Scope Z_scope.

(* ===================================================================== *)
(** ** JavaScript helpers *)
(* ===================================================================== *)

Module Js.

(** One character of [String.prototype.toLowerCase], on ASCII. *)
Definition lowerChar (c : ascii) : ascii :=
  let n := nat_of_ascii c in
  if (Nat.leb 65 n && Nat.leb n 90)%bool then ascii_of_nat (n + 32) else c.

Fixpoint toLowerCase (s : string) : string :=
  match s with
  | EmptyString => EmptyString
  | String c r => String (lowerChar c) (toLowerCase r)
  end.

(** Truthiness of a value that is a string when present. *)
Definition truthy (o : option string) : bool :=
  match o with
  | Some s => negb (s =? "")%string
  | None => false
  end.

(** [o || d] for a string-or-missing [o]. *)
Definition orElse (o : option string) (d : string) : string :=
  match o with
  | Some s => if (s =? "")%string then d else s
  | None => d
  end.

(** [n || 0] for a number-or-missing [n]. *)
Definition or0 (n : option Z) : Z :=
  match n with
  | Some z => z
  | None => 0
  end.

(** [Array.prototype.includes] on an array of strings; a missing value is
    not a member. *)
Definition includes (l : list string) (o : option string) : bool :=
  match o with
  | Some s => existsb (String.eqb s) l
  | None => false
  end.

(** Template-literal rendering of an integer. *)
Definition showZ (z : Z) : string := NilZero.string_of_int (Z.to_int z).

End Js.

(* ===================================================================== *)
(** ** Insertion-ordered keyed collection

    A JavaScript [Map] with string keys (and likewise a plain object with
    non-numeric keys) iterates in insertion order, and [set] on a present
    key keeps its position.  [Array.from (m.values ())] is what the persist
    procedures serialise, so the order is kept in the model. *)
(* ===================================================================== *)

Module JsMap.
Section Ops.
Variable V : Type.

Definition t := list (string * V).

Definition clear : t := [].

Fixpoint get (k : string) (m : t) : option V :=
  match m with
  | [] => None
  | (k', v) :: r => if (k =? k')%string then Some v else get k r
  end.

Definition has (k : string) (m : t) : bool :=
  match get k m with
  | Some _ => true
  | None => false
  end.

Fixpoint set (k : string) (v : V) (m : t) : t :=
  match m with
  | [] => [(k, v)]
  | (k', v') :: r =>
      if (k =? k')%string then (k, v) :: r else (k', v') :: set k v r
  end.

Definition delete (k : string) (m : t) : t :=
  filter (fun kv => negb (k =? fst kv)%string) m.

Definition values (m : t) : list V := map snd m.

Definition keys (m : t) : list string := map fst m.

Definition size (m : t) : Z := Z.of_nat (List.length m).

End Ops.

Arguments clear {V}.
Arguments get {V} k m.
Arguments has {V} k m.
Arguments set {V} k v m.
Arguments delete {V} k m.
Arguments values {V} m.
Arguments keys {V} m.
Arguments size {V} m.

End JsMap.

(* ===================================================================== *)
(** ** Data model of the Map-backed variants *)
(* ===================================================================== *)

(** The device metadata of a check-access request.  [clientIP] is what the
    class-based handler adds before it calls the database. *)
Record DeviceInfo := {
  hostname : option string;
  username : option string;
  platform : option string;
  localIP : option string;
  publicIP : option string;
  clientIP : option string
}.

(** The object literal stored under [lastDevice]. *)
Record LastDevice := {
  ld_hostname : option string;
  ld_username : option string;
  ld_platform : option string;
  ld_localIP : option string;
  ld_publicIP : option string
}.

Definition deviceSnapshot (d : DeviceInfo) : LastDevice :=
  {| ld_hostname := hostname d;
     ld_username := username d;
     ld_platform := platform d;
     ld_localIP := localIP d;
     ld_publicIP := publicIP d |}.

Record Entry := {
  macAddress : string;
  description : string;
  accessType : option string;
  addedAt : Z;
  updatedAt : option Z;
  lastSeen : option Z;
  accessCount : option Z;
  lastDevice : option LastDevice
}.

Definition Store := JsMap.t Entry.

Record Statistics := {
  total : Z;
  activeLast24h : Z;
  activeLast7d : Z;
  neverUsed : Z;
  totalAccesses : Z
}.

Definition zeroStatistics : Statistics :=
  {| total := 0; activeLast24h := 0; activeLast7d := 0;
     neverUsed := 0; totalAccesses := 0 |}.

(** The [statistics] object of a file, which may lack any of the keys. *)
Record PartialStats := {
  p_total : option Z;
  p_activeLast24h : option Z;
  p_activeLast7d : option Z;
  p_neverUsed : option Z;
  p_totalAccesses : option Z
}.

Definition fullStats (s : Statistics) : PartialStats :=
  {| p_total := Some (total s);
     p_activeLast24h := Some (activeLast24h s);
     p_activeLast7d := Some (activeLast7d s);
     p_neverUsed := Some (neverUsed s);
     p_totalAccesses := Some (totalAccesses s) |}.

(** [{ ...base, ...p }] *)
Definition spreadStats (base : Statistics) (p : PartialStats) : Statistics :=
  let pick (o : option Z) (d : Z) := match o with Some z => z | None => d end in
  {| total := pick (p_total p) (total base);
     activeLast24h := pick (p_activeLast24h p) (activeLast24h base);
     activeLast7d := pick (p_activeLast7d p) (activeLast7d base);
     neverUsed := pick (p_neverUsed p) (neverUsed base);
     totalAccesses := pick (p_totalAccesses p) (totalAccesses base) |}.

(** The object the persist procedures build and serialise. *)
Record Snapshot := {
  snap_macAddresses : list Entry;
  snap_statistics : Statistics;
  snap_lastUpdated : Z;
  snap_version : string
}.

(** A parsed JSON value, as far as the load procedures look at it:
    [doc_macAddresses] is [Some l] exactly when the value has an array
    under [macAddresses]; the elements of such an array are entry
    objects, as in every file the persist procedures write. *)
Record Document := {
  doc_macAddresses : option (list Entry);
  doc_statistics : option PartialStats;
  doc_lastUpdated : option Z;
  doc_version : option string
}.

Inductive Parsed :=
| JNull                 (* [null]: reading a property of it throws *)
| JObj (d : Document).  (* any other value *)

Inductive FileData :=
| Garbage               (* readable, [JSON.parse] throws *)
| Json (p : Parsed).

Definition serialize (s : Snapshot) : FileData :=
  Json (JObj {| doc_macAddresses := Some (snap_macAddresses s);
                doc_statistics := Some (fullStats (snap_statistics s));
                doc_lastUpdated := Some (snap_lastUpdated s);
                doc_version := Some (snap_version s) |}).

(* ===================================================================== *)
(** ** The file system, with a journal of the calls made to it *)
(* ===================================================================== *)

Section FileSystem.
Variable L : Type.
Variable L_eqb : L -> L -> bool.

Inductive FsCall :=
| Mkdir (ok : bool)
| ReadFile (l : L) (ok : bool)
| WriteFile (l : L) (data : FileData) (ok : bool).

(** [content l = None]: reading [l] throws.  [writable l = false]: writing
    [l] throws.  [can_mkdir = false]: creating the data directory throws. *)
Record Disk := {
  content : L -> option FileData;
  writable : L -> bool;
  can_mkdir : bool;
  journal : list FsCall
}.

Definition record (c : FsCall) (d : Disk) : Disk :=
  {| content := content d; writable := writable d;
     can_mkdir := can_mkdir d; journal := (journal d ++ [c])%list |}.

(** [fs.mkdir (dataDir, { recursive: true })]; [false] stands for a throw. *)
Definition mkdir (d : Disk) : Disk * bool :=
  (record (Mkdir (can_mkdir d)) d, can_mkdir d).

(** [fs.readFile (l, 'utf8')]; [None] stands for a throw. *)
Definition readFile (l : L) (d : Disk) : Disk * option FileData :=
  (record (ReadFile l (match content d l with Some _ => true | None => false end)) d,
   content d l).

(** [fs.writeFile (l, data)]; [false] stands for a throw. *)
Definition writeFile (l : L) (data : FileData) (d : Disk) : Disk * bool :=
  if writable d l then
    (record (WriteFile l data true)
       {| content := fun l' => if L_eqb l l' then Some data else content d l';
          writable := writable d; can_mkdir := can_mkdir d;
          journal := journal d |},
     true)
  else (record (WriteFile l data false) d, false).

End FileSystem.

Arguments Mkdir {L} ok.
Arguments ReadFile {L} l ok.
Arguments WriteFile {L} l data ok.

(* ===================================================================== *)
(** ** Statistics Aggregator: [updateStatistics] *)
(* ===================================================================== *)

Definition day : Z := 24 * 60 * 60 * 1000.
Definition week : Z := 7 * 24 * 60 * 60 * 1000.

(** The body of the [for ... of] loop over the entries. *)
Definition countEntry (oneDayAgo oneWeekAgo : Z) (st : Statistics) (entry : Entry)
  : Statistics :=
  let seen := match lastSeen entry with Some t => t | None => 0 end in
  let acc := totalAccesses st + Js.or0 (accessCount entry) in
  if seen =? 0 then
    {| total := total st; activeLast24h := activeLast24h st;
       activeLast7d := activeLast7d st; neverUsed := neverUsed st + 1;
       totalAccesses := acc |}
  else
    {| total := total st;
       activeLast24h :=
         if seen >? oneDayAgo then activeLast24h st + 1 else activeLast24h st;
       activeLast7d :=
         if seen >? oneWeekAgo then activeLast7d st + 1 else activeLast7d st;
       neverUsed := neverUsed st;
       totalAccesses := acc |}.

Definition updateStatistics (now : Z) (store : Store) : Statistics :=
  let oneDayAgo := now - day in
  let oneWeekAgo := now - week in
  fold_left (countEntry oneDayAgo oneWeekAgo) (JsMap.values store)
    {| total := JsMap.size store; activeLast24h := 0; activeLast7d := 0;
       neverUsed := 0; totalAccesses := 0 |}.

(* ===================================================================== *)
(** ** Requests and responses *)
(* ===================================================================== *)

(** [None] for [macAddresses]: missing, or not an array. *)
Record CheckRequest := {
  chk_macAddresses : option (list string);
  chk_deviceInfo : option DeviceInfo
}.

Record AddRequest := {
  add_macAddress : option string;
  add_description : option string;
  add_accessType : option string;
  add_adminKey : option string
}.

Record UpdateRequest := {
  upd_macAddress : option string;
  upd_accessType : option string;
  upd_adminKey : option string
}.

Record RemoveRequest := {
  rem_macAddress : option string;
  rem_adminKey : option string
}.

Record BulkItem := {
  item_macAddress : option string;
  item_description : option string;
  item_accessType : option string
}.

Record BulkRequest := {
  bulk_macAddresses : option (list BulkItem);
  bulk_adminKey : option string
}.

(** The sanitised view of the matched entry. *)
Record AccessView := {
  view_macAddress : string;
  view_description : string;
  view_accessType : string;
  view_addedAt : Z;
  view_lastSeen : option Z;
  view_accessCount : option Z
}.

Record BulkResult := {
  br_macAddress : string;
  br_success : bool;
  br_message : string
}.

Inductive Payload :=
| NoData
| NullData
| AccessData (v : AccessView)
| EntryData (e : Entry)
| ListData (entries : list Entry) (st : Statistics)
| BulkData (results : list BulkResult) (totalProcessed totalAdded : Z).

Record Response := {
  status : Z;
  success : bool;
  message : string;
  data : Payload;
  persistent : option bool
}.

Definition reply (st : Z) (ok : bool) (msg : string) (d : Payload) : Response :=
  {| status := st; success := ok; message := msg; data := d;
     persistent := None |}.

Record ListRequest := {
  list_adminKey : option string
}.

(** A request, by the value of [req.query.action]. *)
Inductive Request :=
| CheckAccess (body : CheckRequest)
| AddMAC (body : AddRequest)
| UpdateAccess (body : UpdateRequest)
| RemoveMAC (body : RemoveRequest)
| ListMACs (body : ListRequest)
| BulkAdd (body : BulkRequest)
| OtherAction.

(* ===================================================================== *)
(** ** Access Evaluator and Admin Mutation Operations

    The handlers of api/mac-auth.js and api/mac-auth-enhanced.js, over the
    store and the persist procedure of the variant. *)
(* ===================================================================== *)

Section Handlers.
Variable World : Type.
Variable getStore : World -> Store.
Variable setStore : Store -> World -> World.
Variable getStatistics : World -> Statistics.
Variable setStatistics : Statistics -> World -> World.

(** The persist procedure and what it returns, if it returns anything. *)
Variable save : Z -> World -> World * option bool.

(** The [persistent] field of a bulk-add response that did not persist. *)
Variable unsaved : option bool.

(** [process.env.ADMIN_SECRET_KEY] *)
Variable ADMIN_SECRET_KEY_env : option string.

Definition validateAdminKey (providedKey : option string) : bool :=
  let ADMIN_SECRET_KEY :=
    Js.orElse ADMIN_SECRET_KEY_env "default-admin-key-change-this" in
  match providedKey with
  | Some k => (k =? ADMIN_SECRET_KEY)%string
  | None => false
  end.

Definition validAccessTypes : list string := ["trial"; "unlimited"; "admin"].

(** The scan of handleCheckAccess: the loop leaves at the first candidate
    whose lowercased form the store [has], with what [get] returns. *)
Fixpoint findAuthorized (store : Store) (macAddresses : list string)
  : option (string * Entry) :=
  match macAddresses with
  | [] => None
  | macAddress :: rest =>
      let normalizedMac := Js.toLowerCase macAddress in
      if JsMap.has normalizedMac store then
        match JsMap.get normalizedMac store with
        | Some entry => Some (normalizedMac, entry)
        | None => None
        end
      else findAuthorized store rest
  end.

(** [entry.lastSeen = now; entry.accessCount = (entry.accessCount || 0) + 1] *)
Definition touch (now : Z) (e : Entry) : Entry :=
  {| macAddress := macAddress e; description := description e;
     accessType := accessType e; addedAt := addedAt e;
     updatedAt := updatedAt e;
     lastSeen := Some now;
     accessCount := Some (Js.or0 (accessCount e) + 1);
     lastDevice := lastDevice e |}.

(** [if (deviceInfo) entry.lastDevice = { hostname: ..., ... }] *)
Definition noteDevice (deviceInfo : option DeviceInfo) (e : Entry) : Entry :=
  match deviceInfo with
  | Some d =>
      {| macAddress := macAddress e; description := description e;
         accessType := accessType e; addedAt := addedAt e;
         updatedAt := updatedAt e; lastSeen := lastSeen e;
         accessCount := accessCount e;
         lastDevice := Some (deviceSnapshot d) |}
  | None => e
  end.

Definition viewOf (e : Entry) : AccessView :=
  {| view_macAddress := macAddress e;
     view_description := description e;
     view_accessType := Js.orElse (accessType e) "trial";
     view_addedAt := addedAt e;
     view_lastSeen := lastSeen e;
     view_accessCount := accessCount e |}.

Definition handleCheckAccess (now : Z) (req : CheckRequest) (w : World)
  : World * Response :=
  match chk_macAddresses req with
  | None | Some [] =>
      (w, reply 400 false "MAC addresses are required" NoData)
  | Some macAddresses =>
      match findAuthorized (getStore w) macAddresses with
      | None =>
          (w, reply 403 false
                "Device not authorized. MAC address not in whitelist."
                NullData)
      | Some (normalizedMac, authorizedEntry) =>
          let authorizedEntry :=
            noteDevice (chk_deviceInfo req) (touch now authorizedEntry) in
          let w := setStore (JsMap.set normalizedMac authorizedEntry (getStore w)) w in
          let (w, _) := save now w in
          (w, reply 200 true "Device authorized"
                (AccessData (viewOf authorizedEntry)))
      end
  end.

Definition newEntry (now : Z) (normalizedMac : string)
    (description : option string) (fallback : string)
    (finalAccessType : string) : Entry :=
  {| macAddress := normalizedMac;
     description := Js.orElse description fallback;
     accessType := Some finalAccessType;
     addedAt := now;
     updatedAt := None;
     lastSeen := None;
     accessCount := Some 0;
     lastDevice := None |}.

(** [validAccessTypes.includes (accessType) ? accessType : 'trial'] *)
Definition finalAccessType (accessType : option string) : string :=
  match accessType with
  | Some a => if Js.includes validAccessTypes (Some a) then a else "trial"
  | None => "trial"
  end.

Definition handleAddMAC (now : Z) (req : AddRequest) (w : World)
  : World * Response :=
  if negb (validateAdminKey (add_adminKey req)) then
    (w, reply 403 false "Invalid admin key" NoData)
  else
    match add_macAddress req with
    | None => (w, reply 400 false "MAC address is required" NoData)
    | Some macAddress =>
        if (macAddress =? "")%string then
          (w, reply 400 false "MAC address is required" NoData)
        else
          let normalizedMac := Js.toLowerCase macAddress in
          let accessType := finalAccessType (add_accessType req) in
          if JsMap.has normalizedMac (getStore w) then
            (w, reply 409 false "MAC address already exists in whitelist" NoData)
          else
            let entry :=
              newEntry now normalizedMac (add_description req)
                "No description" accessType in
            let w := setStore (JsMap.set normalizedMac entry (getStore w)) w in
            let (w, saved) := save now w in
            (w, {| status := 201; success := true;
                   message := "MAC address added successfully";
                   data := EntryData entry; persistent := saved |})
    end.

(** [entry.accessType = accessType; entry.updatedAt = now] *)
Definition retier (now : Z) (tier : string) (e : Entry) : Entry :=
  {| macAddress := macAddress e; description := description e;
     accessType := Some tier; addedAt := addedAt e;
     updatedAt := Some now; lastSeen := lastSeen e;
     accessCount := accessCount e; lastDevice := lastDevice e |}.

Definition handleUpdateAccess (now : Z) (req : UpdateRequest) (w : World)
  : World * Response :=
  if negb (validateAdminKey (upd_adminKey req)) then
    (w, reply 403 false "Invalid admin key" NoData)
  else if negb (Js.truthy (upd_macAddress req))
            || negb (Js.truthy (upd_accessType req)) then
    (w, reply 400 false "MAC address and access type are required" NoData)
  else
    let normalizedMac := Js.toLowerCase (Js.orElse (upd_macAddress req) "") in
    let accessType := Js.orElse (upd_accessType req) "" in
    if negb (Js.includes validAccessTypes (upd_accessType req)) then
      (w, reply 400 false
            "Invalid access type. Must be: trial, unlimited, or admin" NoData)
    else
      match JsMap.get normalizedMac (getStore w) with
      | None => (w, reply 404 false "MAC address not found in whitelist" NoData)
      | Some entry =>
          let entry := retier now accessType entry in
          let w := setStore (JsMap.set normalizedMac entry (getStore w)) w in
          let (w, saved) := save now w in
          (w, {| status := 200; success := true;
                 message := "Access type updated successfully";
                 data := EntryData entry; persistent := saved |})
      end.

Definition handleRemoveMAC (now : Z) (req : RemoveRequest) (w : World)
  : World * Response :=
  if negb (validateAdminKey (rem_adminKey req)) then
    (w, reply 403 false "Invalid admin key" NoData)
  else if negb (Js.truthy (rem_macAddress req)) then
    (w, reply 400 false "MAC address is required" NoData)
  else
    let normalizedMac := Js.toLowerCase (Js.orElse (rem_macAddress req) "") in
    if negb (JsMap.has normalizedMac (getStore w)) then
      (w, reply 404 false "MAC address not found in whitelist" NoData)
    else
      let w := setStore (JsMap.delete normalizedMac (getStore w)) w in
      let (w, saved) := save now w in
      (w, {| status := 200; success := true;
             message := "MAC address removed successfully";
             data := NoData; persistent := saved |}).

(** Stable insertion by descending [addedAt], the comparator of the
    listing. *)
Fixpoint insertByAddedAt (e : Entry) (l : list Entry) : list Entry :=
  match l with
  | [] => [e]
  | x :: r =>
      if addedAt x >? addedAt e then x :: insertByAddedAt e r else e :: l
  end.

Definition sortByAddedAt (l : list Entry) : list Entry :=
  fold_right insertByAddedAt [] l.

Definition handleListMACs (now : Z) (req : ListRequest) (w : World)
  : World * Response :=
  if negb (validateAdminKey (list_adminKey req)) then
    (w, reply 403 false "Invalid admin key" NoData)
  else
    let w := setStatistics (updateStatistics now (getStore w)) w in
    (w, reply 200 true "MAC addresses retrieved successfully"
          (ListData (sortByAddedAt (JsMap.values (getStore w)))
             (getStatistics w))).

(** The state of the bulk-add loop. *)
Record BulkState := {
  bulk_store : Store;
  bulk_results : list BulkResult;
  bulk_addedCount : Z
}.

(** One iteration of the [for ... of] loop of handleBulkAdd. *)
Definition bulkStep (now : Z) (s : BulkState) (macData : BulkItem) : BulkState :=
  let normalizedMac :=
    if Js.truthy (item_macAddress macData)
    then Js.toLowerCase (Js.orElse (item_macAddress macData) "") else "" in
  let accessType := finalAccessType (item_accessType macData) in
  if negb (Js.truthy (item_macAddress macData)) then
    {| bulk_store := bulk_store s;
       bulk_results :=
         (bulk_results s ++
           [{| br_macAddress := Js.orElse (item_macAddress macData) "invalid";
               br_success := false; br_message := "Invalid MAC address" |}])%list;
       bulk_addedCount := bulk_addedCount s |}
  else if JsMap.has normalizedMac (bulk_store s) then
    {| bulk_store := bulk_store s;
       bulk_results :=
         (bulk_results s ++
           [{| br_macAddress := normalizedMac;
               br_success := false; br_message := "Already exists" |}])%list;
       bulk_addedCount := bulk_addedCount s |}
  else
    let entry :=
      newEntry now normalizedMac (item_description macData)
        "Bulk added" accessType in
    {| bulk_store := JsMap.set normalizedMac entry (bulk_store s);
       bulk_results :=
         (bulk_results s ++
           [{| br_macAddress := normalizedMac;
               br_success := true; br_message := "Added successfully" |}])%list;
       bulk_addedCount := bulk_addedCount s + 1 |}.

Definition handleBulkAdd (now : Z) (req : BulkRequest) (w : World)
  : World * Response :=
  if negb (validateAdminKey (bulk_adminKey req)) then
    (w, reply 403 false "Invalid admin key" NoData)
  else
    match bulk_macAddresses req with
    | None => (w, reply 400 false "MAC addresses array is required" NoData)
    | Some macAddresses =>
        let s := fold_left (bulkStep now) macAddresses
                   {| bulk_store := getStore w; bulk_results := [];
                      bulk_addedCount := 0 |} in
        let w := setStore (bulk_store s) w in
        let (w, saved) :=
          if bulk_addedCount s >? 0 then save now w else (w, unsaved) in
        (w, {| status := 200; success := true;
               message := "Bulk add completed. "
                          ++ Js.showZ (bulk_addedCount s)
                          ++ " MAC addresses added.";
               data := BulkData (bulk_results s)
                         (Z.of_nat (List.length macAddresses))
                         (bulk_addedCount s);
               persistent := saved |})
    end.

(** The [switch (action)] of the request handler. *)
Definition dispatch (now : Z) (request : Request) (w : World)
  : World * Response :=
  match request with
  | CheckAccess body => handleCheckAccess now body w
  | AddMAC body => handleAddMAC now body w
  | UpdateAccess body => handleUpdateAccess now body w
  | RemoveMAC body => handleRemoveMAC now body w
  | ListMACs body => handleListMACs now body w
  | BulkAdd body => handleBulkAdd now body w
  | OtherAction => (w, reply 400 false "Invalid action" NoData)
  end.

End Handlers.

(* ===================================================================== *)
(** ** api/mac-auth.js: main data file and backup file *)
(* ===================================================================== *)

Module Basic.

Inductive Loc := DATA_FILE | BACKUP_FILE.

Definition Loc_eqb (a b : Loc) : bool :=
  match a, b with
  | DATA_FILE, DATA_FILE | BACKUP_FILE, BACKUP_FILE => true
  | _, _ => false
  end.

(** The module-level variables and the file system. *)
Record World := {
  macWhitelist : Store;
  statistics : Statistics;
  disk : Disk Loc
}.

Definition getStore := macWhitelist.
Definition getStatistics := statistics.

Definition setStore (s : Store) (w : World) : World :=
  {| macWhitelist := s; statistics := statistics w; disk := disk w |}.

Definition setStatistics (st : Statistics) (w : World) : World :=
  {| macWhitelist := macWhitelist w; statistics := st; disk := disk w |}.

Definition setDisk (d : Disk Loc) (w : World) : World :=
  {| macWhitelist := macWhitelist w; statistics := statistics w; disk := d |}.

(** ensureDataDirectory catches whatever [fs.mkdir] throws. *)
Definition ensureDataDirectory (d : Disk Loc) : Disk Loc := fst (mkdir d).

(** The object [data] of saveMACWhitelist. *)
Definition snapshot (now : Z) (w : World) : Snapshot :=
  {| snap_macAddresses := JsMap.values (macWhitelist w);
     snap_statistics := statistics w;
     snap_lastUpdated := now;
     snap_version := "1.0" |}.

(** saveMACWhitelist has no [return]: callers get [undefined]. *)
Definition saveMACWhitelist (now : Z) (w : World) : World * option bool :=
  let jsonData := serialize (snapshot now w) in
  let d := ensureDataDirectory (disk w) in
  let (d, _) := writeFile Loc_eqb DATA_FILE jsonData d in
  let (d, _) := writeFile Loc_eqb BACKUP_FILE jsonData d in
  (setDisk d w, None).

(** [JSON.parse] of what [fs.readFile] returned; [None] when either
    throws. *)
Definition parseFile (f : option FileData) : option Parsed :=
  match f with
  | Some (Json p) => Some p
  | Some Garbage | None => None
  end.

(** The tail of loadMACWhitelist, once [data] is chosen.  Reading
    [data.macAddresses] of [null] throws into the outer handler, which
    clears the store. *)
Definition adopt (data : Parsed) (w : World) : World :=
  let w := setStore JsMap.clear w in
  match data with
  | JNull => setStore JsMap.clear w
  | JObj doc =>
      let w :=
        match doc_macAddresses doc with
        | Some entries =>
            setStore
              (fold_left (fun m entry => JsMap.set (macAddress entry) entry m)
                 entries (macWhitelist w)) w
        | None => w
        end in
      match doc_statistics doc with
      | Some st => setStatistics (spreadStats (statistics w) st) w
      | None => w
      end
  end.

Definition loadMACWhitelist (w : World) : World :=
  let d := ensureDataDirectory (disk w) in
  let (d, fileData) := readFile DATA_FILE d in
  match parseFile fileData with
  | Some data => adopt data (setDisk d w)
  | None =>
      let (d, backupData) := readFile BACKUP_FILE d in
      match backupData, parseFile backupData with
      | Some raw, Some data =>
          (* restore the main file from the backup, if it can be written *)
          let (d, _) := writeFile Loc_eqb DATA_FILE raw d in
          adopt data (setDisk d w)
      | _, _ =>
          (* no existing data: start fresh *)
          adopt (JObj {| doc_macAddresses := Some [];
                         doc_statistics := Some (fullStats (statistics w));
                         doc_lastUpdated := None; doc_version := None |})
                (setDisk d w)
      end
  end.

Section Api.
Variable ADMIN_SECRET_KEY_env : option string.

Definition handleCheckAccess :=
  handleCheckAccess getStore setStore saveMACWhitelist.
Definition handleAddMAC :=
  handleAddMAC getStore setStore saveMACWhitelist ADMIN_SECRET_KEY_env.
Definition handleUpdateAccess :=
  handleUpdateAccess getStore setStore saveMACWhitelist ADMIN_SECRET_KEY_env.
Definition handleRemoveMAC :=
  handleRemoveMAC getStore setStore saveMACWhitelist ADMIN_SECRET_KEY_env.
Definition handleListMACs :=
  handleListMACs getStore getStatistics setStatistics ADMIN_SECRET_KEY_env.
Definition handleBulkAdd :=
  handleBulkAdd getStore setStore saveMACWhitelist None ADMIN_SECRET_KEY_env.

Definition dispatch :=
  dispatch getStore setStore getStatistics setStatistics saveMACWhitelist
    None ADMIN_SECRET_KEY_env.

(** The exported handler, for a method other than OPTIONS: the
    whitelist is loaded again at the start of every request. *)
Definition handler (now : Z) (request : Request) (w : World)
  : World * Response :=
  dispatch now request (loadMACWhitelist w).
End Api.

(** The state of a freshly loaded module on an empty, writable disk. *)
Definition emptyDisk : Disk Loc :=
  {| content := fun _ => None; writable := fun _ => true;
     can_mkdir := true; journal := [] |}.

Definition initial : World :=
  {| macWhitelist := JsMap.clear; statistics := zeroStatistics;
     disk := emptyDisk |}.

End Basic.

(* ===================================================================== *)
(** ** api/mac-auth-enhanced.js: three storage locations *)
(* ===================================================================== *)

Module Enhanced.

(** STRATEGIES.PRIMARY, STRATEGIES.BACKUP, STRATEGIES.FALLBACK *)
Inductive Loc := PRIMARY | BACKUP | FALLBACK.

Definition Loc_eqb (a b : Loc) : bool :=
  match a, b with
  | PRIMARY, PRIMARY | BACKUP, BACKUP | FALLBACK, FALLBACK => true
  | _, _ => false
  end.

Definition name (l : Loc) : string :=
  match l with
  | PRIMARY => "Primary"
  | BACKUP => "Backup"
  | FALLBACK => "Fallback"
  end.

(** The list [sources] of loadFromStorage, which is also the list
    [targets] of saveToStorage. *)
Definition sources : list Loc := [PRIMARY; BACKUP; FALLBACK].
Definition targets : list Loc := [PRIMARY; BACKUP; FALLBACK].

(** [memoryStore], [STRATEGIES.MEMORY_BACKUP] and the file system.  The
    memory backup is written by saveToStorage and read nowhere. *)
Record World := {
  macAddresses : Store;
  statistics : Statistics;
  lastLoaded : option Z;
  initialized : bool;
  MEMORY_BACKUP : option Snapshot;
  disk : Disk Loc
}.

Definition getStore := macAddresses.
Definition getStatistics := statistics.

Definition setStore (s : Store) (w : World) : World :=
  {| macAddresses := s; statistics := statistics w;
     lastLoaded := lastLoaded w; initialized := initialized w;
     MEMORY_BACKUP := MEMORY_BACKUP w; disk := disk w |}.

Definition setStatistics (st : Statistics) (w : World) : World :=
  {| macAddresses := macAddresses w; statistics := st;
     lastLoaded := lastLoaded w; initialized := initialized w;
     MEMORY_BACKUP := MEMORY_BACKUP w; disk := disk w |}.

Definition setDisk (d : Disk Loc) (w : World) : World :=
  {| macAddresses := macAddresses w; statistics := statistics w;
     lastLoaded := lastLoaded w; initialized := initialized w;
     MEMORY_BACKUP := MEMORY_BACKUP w; disk := d |}.

Definition setLastLoaded (t : Z) (w : World) : World :=
  {| macAddresses := macAddresses w; statistics := statistics w;
     lastLoaded := Some t; initialized := initialized w;
     MEMORY_BACKUP := MEMORY_BACKUP w; disk := disk w |}.

Definition setInitialized (w : World) : World :=
  {| macAddresses := macAddresses w; statistics := statistics w;
     lastLoaded := lastLoaded w; initialized := true;
     MEMORY_BACKUP := MEMORY_BACKUP w; disk := disk w |}.

Definition setMemoryBackup (s : Snapshot) (w : World) : World :=
  {| macAddresses := macAddresses w; statistics := statistics w;
     lastLoaded := lastLoaded w; initialized := initialized w;
     MEMORY_BACKUP := Some s; disk := disk w |}.

(** [parsed.macAddresses.forEach (entry => store.set (entry.macAddress, entry))]
    after [store.clear ()]. *)
Definition populate (entries : list Entry) : Store :=
  fold_left (fun m entry => JsMap.set (macAddress entry) entry m)
    entries JsMap.clear.

(** The loop of loadFromStorage over the remaining sources, and the
    statement after the loop. *)
Fixpoint loadFrom (now : Z) (remaining : list Loc) (w : World) : World :=
  match remaining with
  | [] => setStore JsMap.clear w
  | source :: rest =>
      let (d, data) := readFile source (disk w) in
      let w := setDisk d w in
      match data with
      | None | Some Garbage | Some (Json JNull) =>
          (* readFile, JSON.parse or the property read threw *)
          loadFrom now rest w
      | Some (Json (JObj parsed)) =>
          match doc_macAddresses parsed with
          | Some entries =>
              let w := setStore (populate entries) w in
              let w :=
                match doc_statistics parsed with
                | Some st => setStatistics (spreadStats (statistics w) st) w
                | None => w
                end in
              setLastLoaded now w
          | None => loadFrom now rest w
          end
      end
  end.

Definition loadFromStorage (now : Z) (w : World) : World :=
  loadFrom now sources w.

Definition initializeStorage (now : Z) (w : World) : World :=
  if initialized w then w else setInitialized (loadFromStorage now w).

(** The object [data] of saveToStorage. *)
Definition snapshot (now : Z) (w : World) : Snapshot :=
  {| snap_macAddresses := JsMap.values (macAddresses w);
     snap_statistics := statistics w;
     snap_lastUpdated := now;
     snap_version := "2.0" |}.

(** An element of [results]. *)
Record SaveResult := {
  sr_name : string;
  sr_success : bool
}.

(** The body of the [try] for one target: the directory of the primary
    location is created first, and a throw there skips the write. *)
Definition saveTarget (jsonData : FileData) (target : Loc) (d : Disk Loc)
  : Disk Loc * bool :=
  let (d, ok) :=
    if (name target =? "Primary")%string then mkdir d else (d, true) in
  if ok then writeFile Loc_eqb target jsonData d else (d, false).

(** The loop of saveToStorage over the remaining targets. *)
Fixpoint saveTargets (jsonData : FileData) (remaining : list Loc)
    (d : Disk Loc) (results : list SaveResult)
  : Disk Loc * list SaveResult :=
  match remaining with
  | [] => (d, results)
  | target :: rest =>
      let (d, ok) := saveTarget jsonData target d in
      saveTargets jsonData rest d
        (results ++ [{| sr_name := name target; sr_success := ok |}])%list
  end.

(** [results] and the returned [successCount > 0]. *)
Definition saveToStorage_results (now : Z) (w : World)
  : World * list SaveResult * bool :=
  let data := snapshot now w in
  let jsonData := serialize data in
  let (d, results) := saveTargets jsonData targets (disk w) [] in
  let w := setMemoryBackup data (setDisk d w) in
  let successCount := Z.of_nat (List.length (filter sr_success results)) in
  (w, results, successCount >? 0).

Definition saveToStorage (now : Z) (w : World) : World * option bool :=
  let '(w, _, ok) := saveToStorage_results now w in (w, Some ok).

Section Api.
Variable ADMIN_SECRET_KEY_env : option string.

(** handleCheckAccess starts saveToStorage without waiting for it; here
    the save has run when the answer is given. *)
Definition handleCheckAccess :=
  handleCheckAccess getStore setStore saveToStorage.
Definition handleAddMAC :=
  handleAddMAC getStore setStore saveToStorage ADMIN_SECRET_KEY_env.
Definition handleUpdateAccess :=
  handleUpdateAccess getStore setStore saveToStorage ADMIN_SECRET_KEY_env.
Definition handleRemoveMAC :=
  handleRemoveMAC getStore setStore saveToStorage ADMIN_SECRET_KEY_env.
Definition handleListMACs :=
  handleListMACs getStore getStatistics setStatistics ADMIN_SECRET_KEY_env.
Definition handleBulkAdd :=
  handleBulkAdd getStore setStore saveToStorage (Some false)
    ADMIN_SECRET_KEY_env.

(** The actions of the [switch] other than the health check. *)
Definition dispatch :=
  dispatch getStore setStore getStatistics setStatistics saveToStorage
    (Some false) ADMIN_SECRET_KEY_env.

(** The answer of the health check. *)
Record HealthReport := {
  health_initialized : bool;
  health_totalMACs : Z;
  health_lastLoaded : option Z;
  health_timestamp : Z
}.

Definition handleHealthCheck (now : Z) (w : World) : World * HealthReport :=
  (w, {| health_initialized := initialized w;
         health_totalMACs := JsMap.size (macAddresses w);
         health_lastLoaded := lastLoaded w;
         health_timestamp := now |}).

(** The exported handler, for a method other than OPTIONS: storage is
    initialised, then the action is dispatched; [None] is the health
    action. *)
Definition handler (now : Z) (request : option Request) (w : World)
  : World * (HealthReport + Response) :=
  let w := initializeStorage now w in
  match request with
  | None => let (w, r) := handleHealthCheck now w in (w, inl r)
  | Some request => let (w, r) := dispatch now request w in (w, inr r)
  end.
End Api.

Definition emptyDisk : Disk Loc :=
  {| content := fun _ => None; writable := fun _ => true;
     can_mkdir := true; journal := [] |}.

(** [memoryStore] as the module initialises it. *)
Definition initial : World :=
  {| macAddresses := JsMap.clear; statistics := zeroStatistics;
     lastLoaded := None; initialized := false; MEMORY_BACKUP := None;
     disk := emptyDisk |}.

End Enhanced.

(* ===================================================================== *)
(** ** mac-database.js: the class [MACDatabase]

    Every method re-reads the database file, works on the parsed object and
    writes it back.  The constructor starts initializeDatabase without
    waiting for it; it creates each of the two files that is missing and
    writes nothing when both exist.  It is not modelled: a world stands
    for the files once that step is over, and what is proved of a
    sequence of calls assumes that both files exist ([Settled] below).
    A parseable database file is taken to have the shape
    that [writeDatabase] produces: an object [macAddresses] keyed by
    address, whose values are entry objects.  Property lookup is modelled
    on own properties; [own_property_only] below states for which keys that
    is all there is, and the request handler of this variant only lets
    such keys through. *)
(* ===================================================================== *)

Module Database.

Record Entry := {
  description : string;
  accessType : option string;
  addedAt : Z;
  updatedAt : option Z;
  lastSeen : option Z;
  accessCount : option Z;
  lastDevice : option LastDevice;
  id : string
}.

Record Statistics := {
  totalDevices : Z;
  totalAccesses : option Z;
  lastUpdated : Z
}.

(** The parsed database file. *)
Record Data := {
  version : string;
  created : Z;
  macAddresses : JsMap.t Entry;
  statistics : Statistics
}.

Record LogEntry := {
  log_timestamp : Z;
  log_macAddress : string;
  log_deviceInfo : LastDevice;
  log_success : bool;
  log_message : string;
  log_id : string
}.

Inductive FileOf (D : Type) :=
| Unparseable
| Holds (d : D).
Arguments Unparseable {D}.

Inductive FsCall :=
| ReadDatabase (ok : bool)
| WriteDatabase (data : Data) (ok : bool)
| ReadLog (ok : bool)
| WriteLog (events : list LogEntry) (ok : bool).

(** The two files of [dbPath], whether they can be written, the calls
    made so far, and the number of identifiers drawn so far. *)
Record World := {
  macFile : option (FileOf Data);
  macFile_writable : bool;
  logFile : option (FileOf (list LogEntry));
  logFile_writable : bool;
  journal : list FsCall;
  drawn : nat
}.

Definition record (c : FsCall) (w : World) : World :=
  {| macFile := macFile w; macFile_writable := macFile_writable w;
     logFile := logFile w; logFile_writable := logFile_writable w;
     journal := (journal w ++ [c])%list; drawn := drawn w |}.

(** The members of [Object.prototype]: looking one of these up on a parsed
    object finds an inherited value. *)
Definition objectPrototypeNames : list string :=
  ["constructor"; "__proto__"; "hasOwnProperty"; "isPrototypeOf";
   "propertyIsEnumerable"; "toLocaleString"; "toString"; "valueOf";
   "__defineGetter__"; "__defineSetter__"; "__lookupGetter__";
   "__lookupSetter__"].

Definition own_property_only (k : string) : bool :=
  negb (existsb (String.eqb k) objectPrototypeNames).

Section Methods.
(** [crypto.randomUUID ()], by the number of earlier draws. *)
Variable randomUUID : nat -> string.

Definition draw (w : World) : World * string :=
  ({| macFile := macFile w; macFile_writable := macFile_writable w;
      logFile := logFile w; logFile_writable := logFile_writable w;
      journal := journal w; drawn := S (drawn w) |},
   randomUUID (drawn w)).

Definition emptyData (now : Z) : Data :=
  {| version := "1.0"; created := now; macAddresses := JsMap.clear;
     statistics := {| totalDevices := 0; totalAccesses := Some 0;
                      lastUpdated := now |} |}.

Definition readDatabase (now : Z) (w : World) : World * Data :=
  match macFile w with
  | Some (Holds d) => (record (ReadDatabase true) w, d)
  | Some Unparseable | None => (record (ReadDatabase false) w, emptyData now)
  end.

(** [writeDatabase] refreshes two statistics, then writes. *)
Definition stamp (now : Z) (data : Data) : Data :=
  {| version := version data; created := created data;
     macAddresses := macAddresses data;
     statistics :=
       {| totalDevices := JsMap.size (macAddresses data);
          totalAccesses := totalAccesses (statistics data);
          lastUpdated := now |} |}.

Definition writeDatabase (now : Z) (data : Data) (w : World) : World * bool :=
  let data := stamp now data in
  if macFile_writable w then
    (record (WriteDatabase data true)
       {| macFile := Some (Holds data);
          macFile_writable := macFile_writable w;
          logFile := logFile w; logFile_writable := logFile_writable w;
          journal := journal w; drawn := drawn w |},
     true)
  else (record (WriteDatabase data false) w, false).

(** [events.slice (-500)] *)
Definition lastN (n : nat) (l : list LogEntry) : list LogEntry :=
  skipn (List.length l - n) l.

Definition logAccess (now : Z) (macAddress : string) (deviceInfo : DeviceInfo)
    (ok : bool) (msg : string) (w : World) : World :=
  let events :=
    match logFile w with
    | Some (Holds l) => l
    | Some Unparseable | None => []
    end in
  let w := record (ReadLog (match logFile w with
                            | Some (Holds _) => true | _ => false end)) w in
  let (w, uuid) := draw w in
  let logEntry :=
    {| log_timestamp := now; log_macAddress := macAddress;
       log_deviceInfo := deviceSnapshot deviceInfo;
       log_success := ok; log_message := msg; log_id := uuid |} in
  let events := (events ++ [logEntry])%list in
  let events :=
    if Nat.ltb 500 (List.length events) then lastN 500 events else events in
  if logFile_writable w then
    record (WriteLog events true)
      {| macFile := macFile w; macFile_writable := macFile_writable w;
         logFile := Some (Holds events);
         logFile_writable := logFile_writable w;
         journal := journal w; drawn := drawn w |}
  else record (WriteLog events false) w.

Definition withMacAddresses (m : JsMap.t Entry) (data : Data) : Data :=
  {| version := version data; created := created data;
     macAddresses := m; statistics := statistics data |}.

(** [data.statistics.totalAccesses = (data.statistics.totalAccesses || 0) + 1] *)
Definition countAccess (data : Data) : Data :=
  {| version := version data; created := created data;
     macAddresses := macAddresses data;
     statistics :=
       {| totalDevices := totalDevices (statistics data);
          totalAccesses := Some (Js.or0 (totalAccesses (statistics data)) + 1);
          lastUpdated := lastUpdated (statistics data) |} |}.

Record Result := {
  success : bool;
  message : string;
  granted : option AccessView;   (* [data] of checkAccess *)
  entry : option Entry           (* [data] of updateMACAccess *)
}.

Definition outcome (ok : bool) (msg : string) : Result :=
  {| success := ok; message := msg; granted := None; entry := None |}.

(** The loop of checkAccess: the first candidate whose lowercased form
    names an entry.  The code tests [data.macAddresses[normalizedMac]],
    which also finds what [Object.prototype] defines; the own-key lookup
    here is that test for every key with [own_property_only], and so for
    every address that passes [validateMACAddress].  The same holds for
    the lookups of updateMACAccess, removeMACAddress and bulkAddMACs. *)
Fixpoint findEntry (data : Data) (candidates : list string)
  : option (string * Entry) :=
  match candidates with
  | [] => None
  | macAddress :: rest =>
      let normalizedMac := Js.toLowerCase macAddress in
      match JsMap.get normalizedMac (macAddresses data) with
      | Some e => Some (normalizedMac, e)
      | None => findEntry data rest
      end
  end.

Definition touch (now : Z) (deviceInfo : DeviceInfo) (e : Entry) : Entry :=
  {| description := description e; accessType := accessType e;
     addedAt := addedAt e; updatedAt := updatedAt e;
     lastSeen := Some now;
     accessCount := Some (Js.or0 (accessCount e) + 1);
     lastDevice := Some (deviceSnapshot deviceInfo);
     id := id e |}.

(** [macAddresses[0] || 'unknown'] *)
Definition firstOrUnknown (candidates : list string) : string :=
  match candidates with
  | m :: _ => if (m =? "")%string then "unknown" else m
  | [] => "unknown"
  end.

Definition viewOf (normalizedMac : string) (e : Entry) : AccessView :=
  {| view_macAddress := normalizedMac;
     view_description := description e;
     view_accessType := Js.orElse (accessType e) "trial";
     view_addedAt := addedAt e;
     view_lastSeen := lastSeen e;
     view_accessCount := accessCount e |}.

Definition checkAccess (now : Z) (candidates : list string)
    (deviceInfo : DeviceInfo) (w : World) : World * Result :=
  let (w, data) := readDatabase now w in
  match findEntry data candidates with
  | Some (normalizedMac, e) =>
      let e := touch now deviceInfo e in
      let data :=
        countAccess
          (withMacAddresses (JsMap.set normalizedMac e (macAddresses data)) data) in
      let (w, _) := writeDatabase now data w in
      let w := logAccess now normalizedMac deviceInfo true "Access granted" w in
      (w, {| success := true; message := "Device authorized";
             granted := Some (viewOf normalizedMac e);
             entry := None |})
  | None =>
      let w := logAccess now (firstOrUnknown candidates) deviceInfo false
                 "MAC address not whitelisted" w in
      (w, outcome false "Device not authorized. MAC address not in whitelist.")
  end.

Definition retier (now : Z) (tier : string) (e : Entry) : Entry :=
  {| description := description e; accessType := Some tier;
     addedAt := addedAt e; updatedAt := Some now;
     lastSeen := lastSeen e; accessCount := accessCount e;
     lastDevice := lastDevice e; id := id e |}.

Definition updateMACAccess (now : Z) (macAddress tier : string) (w : World)
  : World * Result :=
  let normalizedMac := Js.toLowerCase macAddress in
  let (w, data) := readDatabase now w in
  match JsMap.get normalizedMac (macAddresses data) with
  | None => (w, outcome false "MAC address not found in whitelist")
  | Some e =>
      let e := retier now tier e in
      let data :=
        withMacAddresses (JsMap.set normalizedMac e (macAddresses data)) data in
      let (w, ok) := writeDatabase now data w in
      if ok then
        (w, {| success := true; message := "Access type updated successfully";
               granted := None; entry := Some e |})
      else (w, outcome false "Failed to save to database")
  end.

Definition removeMACAddress (now : Z) (macAddress : string) (w : World)
  : World * Result :=
  let normalizedMac := Js.toLowerCase macAddress in
  let (w, data) := readDatabase now w in
  match JsMap.get normalizedMac (macAddresses data) with
  | None => (w, outcome false "MAC address not found in whitelist")
  | Some _ =>
      let data :=
        withMacAddresses (JsMap.delete normalizedMac (macAddresses data)) data in
      let (w, ok) := writeDatabase now data w in
      if ok then (w, outcome true "MAC address removed successfully")
      else (w, outcome false "Failed to save to database")
  end.

(** An element of [results] of bulkAddMACs. *)
Inductive BulkOutcome :=
| Skipped (macAddress : string)                 (* reason: 'Already exists' *)
| Added (macAddress : string) (tier : string).

Record BulkState := {
  bulk_world : World;
  bulk_data : Data;
  bulk_results : list BulkOutcome;
  bulk_addedCount : Z;
  bulk_skippedCount : Z
}.

(** One iteration of the loop of bulkAddMACs; [None] when
    [macEntry.macAddress.toLowerCase ()] throws. *)
Definition bulkStep (now : Z) (s : BulkState) (macEntry : BulkItem)
  : option BulkState :=
  match item_macAddress macEntry with
  | None => None
  | Some macAddress =>
      let normalizedMac := Js.toLowerCase macAddress in
      match JsMap.get normalizedMac (macAddresses (bulk_data s)) with
      | Some _ =>
          Some {| bulk_world := bulk_world s; bulk_data := bulk_data s;
                  bulk_results :=
                    (bulk_results s ++ [Skipped normalizedMac])%list;
                  bulk_addedCount := bulk_addedCount s;
                  bulk_skippedCount := bulk_skippedCount s + 1 |}
      | None =>
          let (w, uuid) := draw (bulk_world s) in
          let tier := Js.orElse (item_accessType macEntry) "trial" in
          let e :=
            {| description :=
                 Js.orElse (item_description macEntry) "Bulk added device";
               accessType := Some tier;
               addedAt := now; updatedAt := None; lastSeen := None;
               accessCount := Some 0; lastDevice := None; id := uuid |} in
          Some {| bulk_world := w;
                  bulk_data :=
                    withMacAddresses
                      (JsMap.set normalizedMac e (macAddresses (bulk_data s)))
                      (bulk_data s);
                  bulk_results :=
                    (bulk_results s ++ [Added normalizedMac tier])%list;
                  bulk_addedCount := bulk_addedCount s + 1;
                  bulk_skippedCount := bulk_skippedCount s |}
      end
  end.

Fixpoint bulkLoop (now : Z) (macAddressList : list BulkItem) (s : BulkState)
  : option BulkState :=
  match macAddressList with
  | [] => Some s
  | macEntry :: rest =>
      match bulkStep now s macEntry with
      | Some s => bulkLoop now rest s
      | None => None
      end
  end.

Record BulkReport := {
  report_success : bool;
  report_results : list BulkOutcome;
  report_total : Z;
  report_added : Z;
  report_skipped : Z
}.

Definition bulkFailure : BulkReport :=
  {| report_success := false; report_results := [];
     report_total := 0; report_added := 0; report_skipped := 0 |}.

Definition bulkAddMACs (now : Z) (macAddressList : list BulkItem) (w : World)
  : World * BulkReport :=
  let (w, data) := readDatabase now w in
  match bulkLoop now macAddressList
          {| bulk_world := w; bulk_data := data; bulk_results := [];
             bulk_addedCount := 0; bulk_skippedCount := 0 |} with
  | None =>
      (* the [catch] of the method: nothing is written *)
      (w, bulkFailure)
  | Some s =>
      let (w, ok) := writeDatabase now (bulk_data s) (bulk_world s) in
      if ok then
        (w, {| report_success := true;
               report_results := bulk_results s;
               report_total := Z.of_nat (List.length macAddressList);
               report_added := bulk_addedCount s;
               report_skipped := bulk_skippedCount s |})
      else (w, bulkFailure)
  end.

(** [addMACAddress (macAddress, description, accessType = 'trial')]: the
    default applies to a missing [accessType].  The test
    [data.macAddresses[normalizedMac]] is truthy for a stored entry and
    for a name that [Object.prototype] defines. *)
Definition addMACAddress (now : Z) (macAddress description : string)
    (accessType : option string) (w : World) : World * Result :=
  let normalizedMac := Js.toLowerCase macAddress in
  let (w, data) := readDatabase now w in
  if JsMap.has normalizedMac (macAddresses data)
     || negb (own_property_only normalizedMac) then
    (w, outcome false "MAC address already exists in whitelist")
  else
      let (w, uuid) := draw w in
      let e :=
        {| description := description;
           accessType :=
             Some (match accessType with Some a => a | None => "trial" end);
           addedAt := now; updatedAt := None; lastSeen := None;
           accessCount := Some 0; lastDevice := None; id := uuid |} in
      let data :=
        withMacAddresses (JsMap.set normalizedMac e (macAddresses data)) data in
      let (w, ok) := writeDatabase now data w in
      if ok then
        (w, {| success := true; message := "MAC address added successfully";
               granted := None; entry := Some e |})
      else (w, outcome false "Failed to save to database").

(** An element of [macList] of listMACAddresses. *)
Record ListedEntry := {
  listed_macAddress : string;
  listed_description : string;
  listed_accessType : string;
  listed_addedAt : Z;
  listed_lastSeen : option Z;
  listed_accessCount : Z;
  listed_lastDevice : option LastDevice;
  listed_id : string
}.

(** The [statistics] of a listing. *)
Record ListStatistics := {
  list_total : Z;
  list_activeLast24h : Z;
  list_activeLast7d : Z;
  list_neverUsed : Z;
  list_totalAccesses : Z
}.

Record Listing := {
  listing_macAddresses : list ListedEntry;
  listing_statistics : ListStatistics
}.

Definition listed (kv : string * Entry) : ListedEntry :=
  let (mac, e) := kv in
  {| listed_macAddress := mac;
     listed_description := description e;
     listed_accessType := Js.orElse (accessType e) "trial";
     listed_addedAt := addedAt e;
     listed_lastSeen := lastSeen e;
     listed_accessCount := Js.or0 (accessCount e);
     listed_lastDevice := lastDevice e;
     listed_id := id e |}.

(** The predicate of the two [filter] calls: seen, and no longer ago
    than [window]. *)
Definition seenWithin (now window : Z) (e : ListedEntry) : bool :=
  match listed_lastSeen e with
  | None => false
  | Some t => now - t <=? window
  end.

Definition neverListedSeen (e : ListedEntry) : bool :=
  match listed_lastSeen e with
  | None => true
  | Some _ => false
  end.

Definition listMACAddresses (now : Z) (w : World) : World * Listing :=
  let (w, data) := readDatabase now w in
  let day24h := 24 * 60 * 60 * 1000 in
  let day7d := 7 * day24h in
  let macList := map listed (macAddresses data) in
  (w, {| listing_macAddresses := macList;
         listing_statistics :=
           {| list_total := Z.of_nat (List.length macList);
              list_activeLast24h :=
                Z.of_nat (List.length (filter (seenWithin now day24h) macList));
              list_activeLast7d :=
                Z.of_nat (List.length (filter (seenWithin now day7d) macList));
              list_neverUsed :=
                Z.of_nat (List.length (filter neverListedSeen macList));
              list_totalAccesses :=
                Js.or0 (totalAccesses (statistics data)) |} |}).

End Methods.

(** *** The keys the handler lets through *)

Definition isHex (c : ascii) : bool :=
  let n := nat_of_ascii c in
  (Nat.leb 48 n && Nat.leb n 57) || (Nat.leb 65 n && Nat.leb n 70)
  || (Nat.leb 97 n && Nat.leb n 102).

Definition isSeparator (c : ascii) : bool :=
  let n := nat_of_ascii c in Nat.eqb n 58 || Nat.eqb n 45.

(** [/^([0-9A-Fa-f]{2}[:-]){5}([0-9A-Fa-f]{2})$/.test (macAddress)] *)
Fixpoint macGroups (n : nat) (s : string) : bool :=
  match n, s with
  | O, String a (String b EmptyString) => isHex a && isHex b
  | S n', String a (String b (String c r)) =>
      isHex a && isHex b && isSeparator c && macGroups n' r
  | _, _ => false
  end.

Definition validateMACAddress (macAddress : string) : bool :=
  macGroups 5 macAddress.

(** The entries a method sees after [readDatabase]: those of the file,
    or none when it cannot be read or parsed. *)
Definition stored (w : World) : JsMap.t Entry :=
  match macFile w with
  | Some (Holds d) => macAddresses d
  | Some Unparseable | None => JsMap.clear
  end.

Definition emptyWorld : World :=
  {| macFile := None; macFile_writable := true;
     logFile := None; logFile_writable := true;
     journal := []; drawn := O |}.

End Database.

(* ===================================================================== *)
(** ** The handler over the database (api/mac-auth.js of the database
    variant)

    Requests are rate limited by client address, admin requests carry a
    key, and every MAC address is matched against the address pattern
    before [macDB] is called.  [req.connection] is taken to exist; one
    reading of the clock serves a whole request. *)
(* ===================================================================== *)

Module DatabaseApi.

(** [verifyAdminKey (adminKey, requiredKey)] *)
Definition verifyAdminKey (adminKey : option string) (requiredKey : string)
  : bool :=
  if negb (Js.truthy adminKey) || negb (Js.truthy (Some requiredKey)) then false
  else
    match adminKey with
    | Some k => (k =? requiredKey)%string
    | None => false
    end.

Definition RATE_LIMIT : Z := 60.
Definition RATE_LIMIT_WINDOW : Z := 60 * 60 * 1000.

(** A value of [rateLimitStore]. *)
Record RateEntry := {
  count : Z;
  resetTime : Z
}.

(** [checkRateLimit (identifier)], with the store passed through. *)
Definition checkRateLimit (now : Z) (identifier : string)
    (store : JsMap.t RateEntry) : JsMap.t RateEntry * bool :=
  let key := identifier in
  match JsMap.get key store with
  | None =>
      (JsMap.set key {| count := 1; resetTime := now + RATE_LIMIT_WINDOW |} store,
       true)
  | Some entry =>
      if now >? resetTime entry then
        (JsMap.set key {| count := 1; resetTime := now + RATE_LIMIT_WINDOW |}
           store,
         true)
      else if count entry >=? RATE_LIMIT then (store, false)
      else
        (JsMap.set key {| count := count entry + 1;
                          resetTime := resetTime entry |} store,
         true)
  end.

(** The module state: the database behind [macDB], and the limiter. *)
Record World := {
  macDB : Database.World;
  rateLimitStore : JsMap.t RateEntry
}.

Definition setDB (d : Database.World) (w : World) : World :=
  {| macDB := d; rateLimitStore := rateLimitStore w |}.

Definition setLimits (l : JsMap.t RateEntry) (w : World) : World :=
  {| macDB := macDB w; rateLimitStore := l |}.

(** What the handler reads of [req]: the method, the two sources of the
    client address, and the action with its body. *)
Record Req := {
  method : string;
  forwardedFor : option string;
  remoteAddress : option string;
  action : Request
}.

Inductive Body :=
| Ended
| Rejected (message : string)
| Answer (result : Database.Result)
| Listed (listing : Database.Listing)
| Report (report : Database.BulkReport).

Record Response := {
  status : Z;
  body : Body
}.

Definition reject (st : Z) (msg : string) : Response :=
  {| status := st; body := Rejected msg |}.

(** [deviceInfo.clientIP = clientIP] *)
Definition withClientIP (ip : string) (d : DeviceInfo) : DeviceInfo :=
  {| hostname := hostname d; username := username d;
     platform := platform d; localIP := localIP d;
     publicIP := publicIP d; clientIP := Some ip |}.

(** The validation loop of handleBulkAdd: the message of the first
    element that fails. *)
Fixpoint firstInvalid (macAddresses : list BulkItem) : option string :=
  match macAddresses with
  | [] => None
  | entry :: rest =>
      let shown :=
        match item_macAddress entry with
        | Some m => m
        | None => "undefined"
        end in
      if negb (Js.truthy (item_macAddress entry))
         || negb (Database.validateMACAddress shown) then
        Some ("Invalid MAC address: " ++ shown)
      else if Js.truthy (item_accessType entry)
              && negb (Js.includes validAccessTypes (item_accessType entry)) then
        Some ("Invalid access type for " ++ shown ++ ": "
              ++ Js.orElse (item_accessType entry) "")
      else firstInvalid rest
  end.

Section Api.
Variable randomUUID : nat -> string.
(** [process.env.ADMIN_SECRET_KEY] *)
Variable ADMIN_SECRET_KEY_env : option string.

Definition requiredAdminKey : string :=
  Js.orElse ADMIN_SECRET_KEY_env "default-admin-key-change-me".

Definition unauthorized : Response :=
  reject 401 "Unauthorized: Invalid admin credentials".

Definition statusOf (ok : bool) : Z := if ok then 200 else 400.

Definition handleCheckAccess (now : Z) (method : string) (req : CheckRequest)
    (clientIP : string) (w : World) : World * Response :=
  if negb (method =? "POST")%string then (w, reject 405 "Method not allowed")
  else
    match chk_macAddresses req with
    | None | Some [] => (w, reject 400 "MAC addresses are required")
    | Some macAddresses =>
        match chk_deviceInfo req with
        | None => (w, reject 400 "Device information is required")
        | Some deviceInfo =>
            match find (fun mac => negb (Database.validateMACAddress mac))
                    macAddresses with
            | Some mac =>
                (w, reject 400 ("Invalid MAC address format: " ++ mac))
            | None =>
                let deviceInfo := withClientIP clientIP deviceInfo in
                let (d, result) :=
                  Database.checkAccess randomUUID now macAddresses deviceInfo
                    (macDB w) in
                (setDB d w, {| status := 200; body := Answer result |})
            end
        end
    end.

Definition handleAddMAC (now : Z) (method : string) (req : AddRequest)
    (w : World) : World * Response :=
  if negb (method =? "POST")%string then (w, reject 405 "Method not allowed")
  else if negb (verifyAdminKey (add_adminKey req) requiredAdminKey) then
    (w, unauthorized)
  else if negb (Js.truthy (add_macAddress req))
          || negb (Js.truthy (add_description req)) then
    (w, reject 400 "MAC address and description are required")
  else
    match add_macAddress req, add_description req with
    | Some macAddress, Some description =>
        let accessType :=
          match add_accessType req with Some a => a | None => "trial" end in
        if negb (Database.validateMACAddress macAddress) then
          (w, reject 400 "Invalid MAC address format")
        else if negb (Js.includes validAccessTypes (Some accessType)) then
          (w, reject 400
                "Invalid access type. Must be: trial, unlimited, or admin")
        else
          let (d, result) :=
            Database.addMACAddress randomUUID now macAddress description
              (Some accessType) (macDB w) in
          (setDB d w, {| status := statusOf (Database.success result);
                         body := Answer result |})
    | _, _ => (w, reject 400 "MAC address and description are required")
    end.

Definition handleUpdateAccess (now : Z) (method : string)
    (req : UpdateRequest) (w : World) : World * Response :=
  if negb (method =? "POST")%string then (w, reject 405 "Method not allowed")
  else if negb (verifyAdminKey (upd_adminKey req) requiredAdminKey) then
    (w, unauthorized)
  else if negb (Js.truthy (upd_macAddress req))
          || negb (Js.truthy (upd_accessType req)) then
    (w, reject 400 "MAC address and access type are required")
  else
    match upd_macAddress req, upd_accessType req with
    | Some macAddress, Some accessType =>
        if negb (Database.validateMACAddress macAddress) then
          (w, reject 400 "Invalid MAC address format")
        else if negb (Js.includes validAccessTypes (Some accessType)) then
          (w, reject 400
                "Invalid access type. Must be: trial, unlimited, or admin")
        else
          let (d, result) :=
            Database.updateMACAccess now macAddress accessType (macDB w) in
          (setDB d w, {| status := statusOf (Database.success result);
                         body := Answer result |})
    | _, _ => (w, reject 400 "MAC address and access type are required")
    end.

Definition handleRemoveMAC (now : Z) (method : string) (req : RemoveRequest)
    (w : World) : World * Response :=
  if negb (method =? "DELETE")%string then (w, reject 405 "Method not allowed")
  else if negb (verifyAdminKey (rem_adminKey req) requiredAdminKey) then
    (w, unauthorized)
  else
    match rem_macAddress req with
    | None => (w, reject 400 "MAC address is required")
    | Some macAddress =>
        if (macAddress =? "")%string then
          (w, reject 400 "MAC address is required")
        else if negb (Database.validateMACAddress macAddress) then
          (w, reject 400 "Invalid MAC address format")
        else
          let (d, result) :=
            Database.removeMACAddress now macAddress (macDB w) in
          (setDB d w, {| status := statusOf (Database.success result);
                         body := Answer result |})
    end.

Definition handleListMACs (now : Z) (method : string) (req : ListRequest)
    (w : World) : World * Response :=
  if negb (method =? "POST")%string then (w, reject 405 "Method not allowed")
  else if negb (verifyAdminKey (list_adminKey req) requiredAdminKey) then
    (w, unauthorized)
  else
    let (d, listing) := Database.listMACAddresses now (macDB w) in
    (setDB d w, {| status := 200; body := Listed listing |}).

Definition handleBulkAdd (now : Z) (method : string) (req : BulkRequest)
    (w : World) : World * Response :=
  if negb (method =? "POST")%string then (w, reject 405 "Method not allowed")
  else if negb (verifyAdminKey (bulk_adminKey req) requiredAdminKey) then
    (w, unauthorized)
  else
    match bulk_macAddresses req with
    | None | Some [] => (w, reject 400 "MAC addresses array is required")
    | Some macAddresses =>
        match firstInvalid macAddresses with
        | Some msg => (w, reject 400 msg)
        | None =>
            let (d, report) :=
              Database.bulkAddMACs randomUUID now macAddresses (macDB w) in
            (setDB d w,
             {| status := statusOf (Database.report_success report);
                body := Report report |})
        end
    end.

(** [req.headers['x-forwarded-for'] || req.connection.remoteAddress
    || 'unknown'] *)
Definition clientIPOf (req : Req) : string :=
  Js.orElse (forwardedFor req) (Js.orElse (remoteAddress req) "unknown").

Definition handler (now : Z) (req : Req) (w : World) : World * Response :=
  let clientIP := clientIPOf req in
  if (method req =? "OPTIONS")%string then
    (w, {| status := 200; body := Ended |})
  else
    let (limits, allowed) := checkRateLimit now clientIP (rateLimitStore w) in
    let w := setLimits limits w in
    if negb allowed then
      (w, reject 429 "Too many requests. Please try again later.")
    else
      match action req with
      | CheckAccess b => handleCheckAccess now (method req) b clientIP w
      | AddMAC b => handleAddMAC now (method req) b w
      | UpdateAccess b => handleUpdateAccess now (method req) b w
      | RemoveMAC b => handleRemoveMAC now (method req) b w
      | ListMACs b => handleListMACs now (method req) b w
      | BulkAdd b => handleBulkAdd now (method req) b w
      | OtherAction => (w, reject 400 "Invalid action specified")
      end.

End Api.

Definition initial : World :=
  {| macDB := Database.emptyWorld; rateLimitStore := JsMap.clear |}.

End DatabaseApi.

(* ===================================================================== *)
(** * Vocabulary of the properties

    Sample states, and the predicates in which the properties below are
    stated. *)
(* ===================================================================== *)

Unset Implicit Arguments.

(** ** Requests *)

(** A check-access request with an array of candidates. *)
Definition checkRequest (deviceInfo : option DeviceInfo) (l : list string)
  : CheckRequest :=
  {| chk_macAddresses := Some l; chk_deviceInfo := deviceInfo |}.

(** ** Sample states *)

Module Samples.

Definition mac : string := "aa:bb:cc:dd:ee:ff".
Definition MAC : string := "AA:BB:CC:DD:EE:FF".
Definition other : string := "11:22:33:44:55:66".

Definition laptop : Entry :=
  {| macAddress := mac; description := "laptop";
     accessType := Some "trial"; addedAt := 1000; updatedAt := None;
     lastSeen := None; accessCount := Some 0; lastDevice := None |}.

Definition device : DeviceInfo :=
  {| hostname := Some "host"; username := Some "user";
     platform := Some "linux"; localIP := Some "10.0.0.2";
     publicIP := Some "203.0.113.7"; clientIP := None |}.

(** The basic variant with one whitelisted address. *)
Definition basicWorld : Basic.World :=
  Basic.setStore [(mac, laptop)] Basic.initial.

Definition enhancedWorld : Enhanced.World :=
  Enhanced.setStore [(mac, laptop)] Enhanced.initial.

(** An entry that has been used before. *)
Definition usedLaptop : Entry :=
  {| macAddress := mac; description := "laptop";
     accessType := Some "trial"; addedAt := 1000; updatedAt := None;
     lastSeen := Some 4000; accessCount := Some 3;
     lastDevice := Some (deviceSnapshot device) |}.

Definition usedWorld : Enhanced.World :=
  Enhanced.setStore [(mac, usedLaptop)] Enhanced.initial.

(** The admin key of a deployment that did not set the environment
    variable. *)
Definition key : option string := Some "default-admin-key-change-this".

Definition addLaptop (tier : option string) : AddRequest :=
  {| add_macAddress := Some MAC; add_description := Some "laptop";
     add_accessType := tier; add_adminKey := key |}.

End Samples.

(** ** Access checks *)

(** The admissible arguments of the [MACDatabase] methods: what the
    request handler of that variant has checked before it calls them. *)
Definition validMACs (l : list string) : Prop :=
  Forall (fun c => Database.validateMACAddress c = true) l.

(** What "the first match wins" says of a check-access handler [check]
    over the store [store]: a request with candidates is denied with 403
    exactly when no candidate, lowercased, is a key; and when [c] is the
    first candidate that is one, the answer is the view of the entry under
    that key, and the whole outcome (response and new state) is the same
    whatever candidates follow [c]. *)
Definition FirstMatchWins (World : Type) (store : World -> Store)
    (check : Z -> CheckRequest -> World -> World * Response) : Prop :=
  forall (now : Z) (deviceInfo : option DeviceInfo) (w : World)
         (candidates : list string),
    candidates <> [] ->
    let r := snd (check now (checkRequest deviceInfo candidates) w) in
    ((status r = 403 /\ success r = false) <->
     (forall c, In c candidates ->
                JsMap.has (Js.toLowerCase c) (store w) = false))
    /\
    (forall pre c post e,
        candidates = (pre ++ c :: post)%list ->
        (forall x, In x pre -> JsMap.has (Js.toLowerCase x) (store w) = false) ->
        JsMap.get (Js.toLowerCase c) (store w) = Some e ->
        status r = 200 /\ success r = true /\
        data r = AccessData (viewOf (noteDevice deviceInfo (touch now e))) /\
        forall post',
          check now (checkRequest deviceInfo (pre ++ c :: post')) w =
          check now (checkRequest deviceInfo candidates) w).

(** What the bookkeeping of a successful check says of a variant, given
    its store accessors, persist procedure [save], and its check-access
    and add-mac handlers, run one after the other on one world.  The
    exported handlers, which load or initialise storage first, are
    treated in the last part of the file.

    First part: when [c] is the first candidate whose lowercased form is a
    key, and [e] the entry under it, the entry under that key afterwards
    has [accessCount] one more than [e] (a missing count reading as 0),
    [lastSeen] at the current time, and [lastDevice] the snapshot of the
    supplied metadata; and the final state is the one the persist
    procedure leaves when run on the updated store.

    Second part: add-mac of a fresh address with the admin key answers
    201 and stores the entry with [accessCount] 0; after it, a check whose
    candidates contain that address is granted; and when no candidate
    before it was whitelisted, the entry's [accessCount] goes from 0 to 1
    and the answer reports 1. *)
Definition AccessBookkeeping (World : Type) (store : World -> Store)
    (setStore : Store -> World -> World)
    (save : Z -> World -> World * option bool)
    (check : Z -> CheckRequest -> World -> World * Response)
    (validKey : option string -> bool)
    (add : Z -> AddRequest -> World -> World * Response) : Prop :=
  (forall (now : Z) (deviceInfo : option DeviceInfo) (w : World)
          (pre post : list string) (c : string) (e : Entry),
      (forall x, In x pre -> JsMap.has (Js.toLowerCase x) (store w) = false) ->
      JsMap.get (Js.toLowerCase c) (store w) = Some e ->
      let w' := fst (check now (checkRequest deviceInfo (pre ++ c :: post)) w) in
      exists e',
        JsMap.get (Js.toLowerCase c) (store w') = Some e' /\
        accessCount e' = Some (Js.or0 (accessCount e) + 1) /\
        lastSeen e' = Some now /\
        (forall d, deviceInfo = Some d -> lastDevice e' = Some (deviceSnapshot d)) /\
        w' = fst (save now (setStore (JsMap.set (Js.toLowerCase c) e' (store w)) w)))
  /\
  (forall (now later : Z) (req : AddRequest) (macAddress : string)
          (deviceInfo : option DeviceInfo) (w : World),
      add_macAddress req = Some macAddress ->
      macAddress <> "" ->
      JsMap.has (Js.toLowerCase macAddress) (store w) = false ->
      validKey (add_adminKey req) = true ->
      let w1 := fst (add now req w) in
      status (snd (add now req w)) = 201 /\
      (exists e0, JsMap.get (Js.toLowerCase macAddress) (store w1) = Some e0 /\
                  accessCount e0 = Some 0) /\
      (forall candidates,
          In macAddress candidates ->
          success (snd (check later (checkRequest deviceInfo candidates) w1)) = true) /\
      (forall pre post,
          (forall x, In x pre -> JsMap.has (Js.toLowerCase x) (store w) = false) ->
          let r := check later (checkRequest deviceInfo (pre ++ macAddress :: post)) w1 in
          status (snd r) = 200 /\ success (snd r) = true /\
          (exists v, data (snd r) = AccessData v /\
                     view_macAddress v = Js.toLowerCase macAddress /\
                     view_accessCount v = Some 1) /\
          (exists e1, JsMap.get (Js.toLowerCase macAddress) (store (fst r)) = Some e1 /\
                      accessCount e1 = Some 1))).

(** What a check without device metadata says of a variant: when [c] is
    the first candidate whose lowercased form is a key, the request is
    granted, the entry's [accessCount] and [lastSeen] are updated, and its
    [lastDevice] is what it was. *)
Definition CheckWithoutDevice (World : Type) (store : World -> Store)
    (check : Z -> CheckRequest -> World -> World * Response) : Prop :=
  forall (now : Z) (w : World) (pre post : list string) (c : string) (e : Entry),
    (forall x, In x pre -> JsMap.has (Js.toLowerCase x) (store w) = false) ->
    JsMap.get (Js.toLowerCase c) (store w) = Some e ->
    let r := check now (checkRequest None (pre ++ c :: post)) w in
    status (snd r) = 200 /\ success (snd r) = true /\
    exists e',
      JsMap.get (Js.toLowerCase c) (store (fst r)) = Some e' /\
      accessCount e' = Some (Js.or0 (accessCount e) + 1) /\
      lastSeen e' = Some now /\
      lastDevice e' = lastDevice e.

(** ** Admin mutations *)

(** What add-mac does with the supplied tier: with the admin key and a
    fresh, non-empty address the request succeeds (201) whatever
    [accessType] holds; the stored and returned entry carries the supplied
    tier when that is one of the three, and ['trial'] otherwise. *)
Definition AddDefaultsTier (World : Type) (store : World -> Store)
    (validKey : option string -> bool)
    (add : Z -> AddRequest -> World -> World * Response) : Prop :=
  forall (now : Z) (req : AddRequest) (w : World) (macAddress : string),
    validKey (add_adminKey req) = true ->
    add_macAddress req = Some macAddress ->
    macAddress <> "" ->
    JsMap.has (Js.toLowerCase macAddress) (store w) = false ->
    let r := add now req w in
    status (snd r) = 201 /\ success (snd r) = true /\
    exists e,
      data (snd r) = EntryData e /\
      JsMap.get (Js.toLowerCase macAddress) (store (fst r)) = Some e /\
      (Js.includes ["trial"; "unlimited"; "admin"] (add_accessType req) = true ->
       accessType e = add_accessType req) /\
      (Js.includes ["trial"; "unlimited"; "admin"] (add_accessType req) = false ->
       accessType e = Some "trial").

(** What update-access does with a tier outside the three: with the admin
    key, the request is answered 400 and nothing changes. *)
Definition UpdateRejectsTier (World : Type)
    (validKey : option string -> bool)
    (update : Z -> UpdateRequest -> World -> World * Response) : Prop :=
  forall (now : Z) (req : UpdateRequest) (w : World),
    validKey (upd_adminKey req) = true ->
    Js.includes ["trial"; "unlimited"; "admin"] (upd_accessType req) = false ->
    let r := update now req w in
    status (snd r) = 400 /\ success (snd r) = false /\ fst r = w.

(** Every entry of [s] is still there, as it was. *)
Definition Extends (s s' : Store) : Prop :=
  forall k e, JsMap.get k s = Some e -> JsMap.get k s' = Some e.

(** An entry present before and after has kept its creation time. *)
Definition KeepsAddedAt (s s' : Store) : Prop :=
  forall k e e',
    JsMap.get k s = Some e -> JsMap.get k s' = Some e' -> addedAt e' = addedAt e.

(** The fields of an entry other than the tier and its time stamp. *)
Definition sameBesidesTier (e e' : Entry) : Prop :=
  macAddress e' = macAddress e /\ description e' = description e /\
  addedAt e' = addedAt e /\ lastSeen e' = lastSeen e /\
  accessCount e' = accessCount e /\ lastDevice e' = lastDevice e.

Definition Database_sameBesidesTier (e e' : Database.Entry) : Prop :=
  Database.description e' = Database.description e /\
  Database.addedAt e' = Database.addedAt e /\
  Database.lastSeen e' = Database.lastSeen e /\
  Database.accessCount e' = Database.accessCount e /\
  Database.lastDevice e' = Database.lastDevice e /\
  Database.id e' = Database.id e.

(** ** Persist *)

Module EnhancedPersist.
Import Enhanced.

(** Whether the attempt at a target succeeds: for the primary location
    the directory must be creatable and the file writable, for the
    others the file must be writable. *)
Definition accepts (d : Disk Loc) (target : Loc) : bool :=
  (if (name target =? "Primary")%string then can_mkdir d else true)
  && writable d target.

(** The file-system calls of the attempt at a target. *)
Definition attempt (d : Disk Loc) (jsonData : FileData) (target : Loc)
  : list (FsCall Loc) :=
  if (name target =? "Primary")%string then
    if can_mkdir d
    then [Mkdir true; WriteFile target jsonData (writable d target)]
    else [Mkdir false]
  else [WriteFile target jsonData (writable d target)].

End EnhancedPersist.

(** A disk of the enhanced variant on which the primary location is
    read-only and the scratch locations can be written. *)
Definition readOnlyPrimary : Disk Enhanced.Loc :=
  {| content := fun _ => None;
     writable := fun l => negb (Enhanced.Loc_eqb l Enhanced.PRIMARY);
     can_mkdir := true; journal := [] |}.

(** A disk of the enhanced variant on which the data directory cannot be
    created, every file being writable. *)
Definition noDataDirectory : Disk Enhanced.Loc :=
  {| content := fun _ => None; writable := fun _ => true;
     can_mkdir := false; journal := [] |}.

(** ** Statistics

    The statistics as the data model defines them, from a list of entries
    and the current time. *)

Definition seenAt (e : Entry) : Z :=
  match lastSeen e with Some t => t | None => 0 end.

Definition neverSeen (e : Entry) : bool := seenAt e =? 0.

Definition activeSince (t0 : Z) (e : Entry) : bool :=
  negb (seenAt e =? 0) && (seenAt e >? t0).

Definition countWhere (p : Entry -> bool) (l : list Entry) : Z :=
  Z.of_nat (List.length (filter p l)).

Definition sumAccessCounts (l : list Entry) : Z :=
  fold_right (fun e acc => Js.or0 (accessCount e) + acc) 0 l.

Definition derivedStatistics (now : Z) (entries : list Entry) : Statistics :=
  {| total := Z.of_nat (List.length entries);
     activeLast24h := countWhere (activeSince (now - day)) entries;
     activeLast7d := countWhere (activeSince (now - week)) entries;
     neverUsed := countWhere neverSeen entries;
     totalAccesses := sumAccessCounts entries |}.

(** A snapshot whose statistics are those of its own entries. *)
Definition SelfConsistent (now : Z) (s : Snapshot) : Prop :=
  snap_statistics s = derivedStatistics now (snap_macAddresses s).

(** How a variant treats the statistics block, given its accessors, the
    snapshot [snapshot now w] its persist procedure serialises, that
    procedure, and its listing handler:

    - the snapshot holds the current entries, in store order, and the
      statistics block as it stands in memory; persisting changes neither;
    - a listing recomputes the block from the current entries, and answers
      with it;
    - so a snapshot is self-consistent exactly when the in-memory block is
      up to date, as it is when the snapshot is taken right after a
      listing. *)
Definition StatisticsDiscipline (World : Type) (store : World -> Store)
    (stats : World -> Statistics) (snapshot : Z -> World -> Snapshot)
    (save : Z -> World -> World * option bool)
    (validKey : option string -> bool)
    (list : Z -> ListRequest -> World -> World * Response) : Prop :=
  (forall (now : Z) (w : World),
      snap_macAddresses (snapshot now w) = JsMap.values (store w) /\
      snap_statistics (snapshot now w) = stats w /\
      stats (fst (save now w)) = stats w /\
      store (fst (save now w)) = store w)
  /\
  (forall (now : Z) (req : ListRequest) (w : World),
      validKey (list_adminKey req) = true ->
      let r := list now req w in
      stats (fst r) = derivedStatistics now (JsMap.values (store w)) /\
      store (fst r) = store w /\
      (exists entries,
          data (snd r) =
          ListData entries (derivedStatistics now (JsMap.values (store w)))) /\
      SelfConsistent now (snapshot now (fst r)))
  /\
  (forall (now : Z) (w : World),
      SelfConsistent now (snapshot now w) <->
      stats w = derivedStatistics now (JsMap.values (store w))).

(** ** Load *)

(** The entries of a structurally valid snapshot: the file can be read,
    parses, and has an array under [macAddresses]. *)
Definition validEntries (f : option FileData) : option (list Entry) :=
  match f with
  | Some (Json (JObj d)) => doc_macAddresses d
  | Some (Json JNull) | Some Garbage | None => None
  end.

Definition readable (f : option FileData) : bool :=
  match f with Some _ => true | None => false end.

(** The world after a source has been read. *)
Definition afterRead (l : Enhanced.Loc) (w : Enhanced.World) : Enhanced.World :=
  Enhanced.setDisk
    (record (ReadFile l (readable (content (Enhanced.disk w) l)))
       (Enhanced.disk w)) w.

(** What loadMACWhitelist leaves in the store: the entries of the main
    file if it can be read and parsed, whether or not it is a snapshot;
    else those of the backup file if that can be read and parsed; else
    nothing. *)
Definition entriesOf (p : Parsed) : Store :=
  match p with
  | JObj d =>
      match doc_macAddresses d with
      | Some entries => Enhanced.populate entries
      | None => JsMap.clear
      end
  | JNull => JsMap.clear
  end.

(** A main data file holding the JSON object [{}], next to a backup file
    holding a snapshot with one entry. *)
Definition emptyObject : FileData :=
  Json (JObj {| doc_macAddresses := None; doc_statistics := None;
                doc_lastUpdated := None; doc_version := None |}).

Definition savedLaptop (version : string) : FileData :=
  serialize {| snap_macAddresses := [Samples.laptop];
               snap_statistics :=
                 {| total := 1; activeLast24h := 0; activeLast7d := 0;
                    neverUsed := 1; totalAccesses := 0 |};
               snap_lastUpdated := 1000; snap_version := version |}.

Definition shadowedBackup : Basic.World :=
  Basic.setDisk
    {| content := fun l => match l with
                           | Basic.DATA_FILE => Some emptyObject
                           | Basic.BACKUP_FILE => Some (savedLaptop "1.0")
                           end;
       writable := fun _ => true; can_mkdir := true; journal := [] |}
    Basic.initial.

Definition shadowedBackupEnhanced : Enhanced.World :=
  Enhanced.setDisk
    {| content := fun l => match l with
                           | Enhanced.PRIMARY => Some emptyObject
                           | Enhanced.BACKUP => Some (savedLaptop "2.0")
                           | Enhanced.FALLBACK => None
                           end;
       writable := fun _ => true; can_mkdir := true; journal := [] |}
    Enhanced.initial.

(** ** Bulk add *)

(** The outcome record of one item, given which normalized addresses are
    already known. *)
Definition itemOutcome (known : string -> bool) (item : BulkItem) : BulkResult :=
  match item_macAddress item with
  | Some macAddress =>
      if (macAddress =? "")%string then
        {| br_macAddress := "invalid"; br_success := false;
           br_message := "Invalid MAC address" |}
      else if known (Js.toLowerCase macAddress) then
        {| br_macAddress := Js.toLowerCase macAddress; br_success := false;
           br_message := "Already exists" |}
      else
        {| br_macAddress := Js.toLowerCase macAddress; br_success := true;
           br_message := "Added successfully" |}
  | None =>
      {| br_macAddress := "invalid"; br_success := false;
         br_message := "Invalid MAC address" |}
  end.

(** Whether an item carries an address that normalizes to [k]. *)
Definition names (item : BulkItem) (k : string) : bool :=
  match item_macAddress item with
  | Some macAddress =>
      negb (macAddress =? "")%string && (Js.toLowerCase macAddress =? k)%string
  | None => false
  end.

(** The addresses known when an item is reached: those of the store the
    request found, and those of the items before it in the batch. *)
Definition knownAfter (store : Store) (pre : list BulkItem) (k : string) : bool :=
  JsMap.has k store || existsb (fun item => names item k) pre.

(** The state in which handleBulkAdd enters its loop. *)
Definition bulkStart (store : Store) : BulkState :=
  {| bulk_store := store; bulk_results := []; bulk_addedCount := 0 |}.

Definition bulkRun (now : Z) (items : list BulkItem) (s : BulkState) : BulkState :=
  fold_left (bulkStep now) items s.

Definition successes (l : list BulkResult) : Z :=
  Z.of_nat (List.length (filter br_success l)).

Module DatabaseBulk.
Import Database.

(** The outcome of an item, given which normalized addresses are
    already known; none when the item has no address. *)
Definition itemOutcome (known : string -> bool) (item : BulkItem)
  : option BulkOutcome :=
  match item_macAddress item with
  | Some macAddress =>
      if known (Js.toLowerCase macAddress)
      then Some (Skipped (Js.toLowerCase macAddress))
      else Some (Added (Js.toLowerCase macAddress)
                   (Js.orElse (item_accessType item) "trial"))
  | None => None
  end.

Definition names (item : BulkItem) (k : string) : bool :=
  match item_macAddress item with
  | Some macAddress => (Js.toLowerCase macAddress =? k)%string
  | None => false
  end.

Definition knownAfter (entries : JsMap.t Entry) (pre : list BulkItem)
    (k : string) : bool :=
  JsMap.has k entries || existsb (fun item => names item k) pre.

Definition isAdded (o : BulkOutcome) : bool :=
  match o with Added _ _ => true | Skipped _ => false end.

Definition hasAddress (item : BulkItem) : Prop :=
  exists macAddress, item_macAddress item = Some macAddress.

End DatabaseBulk.

(** The basic variant deployed with an empty snapshot as its main data
    file, on a file system where only the scratch area can be written. *)
Definition deployedReadOnly : Basic.World :=
  Basic.setDisk
    {| content := fun l =>
                    match l with
                    | Basic.DATA_FILE =>
                        Some (serialize
                                {| snap_macAddresses := [];
                                   snap_statistics := zeroStatistics;
                                   snap_lastUpdated := 0;
                                   snap_version := "2.0" |})
                    | Basic.BACKUP_FILE => None
                    end;
       writable := fun l => Basic.Loc_eqb l Basic.BACKUP_FILE;
       can_mkdir := true; journal := [] |}
    Basic.initial.

(** A batch with the same address twice, in two spellings. *)
Definition twiceTheSame : list BulkItem :=
  [{| item_macAddress := Some Samples.MAC; item_description := Some "laptop";
      item_accessType := Some "trial" |};
   {| item_macAddress := Some Samples.mac; item_description := None;
      item_accessType := None |}].

(** A database file that already lists the sample address. *)
Definition listedEntry : Database.Entry :=
  {| Database.description := "laptop"; Database.accessType := Some "trial";
     Database.addedAt := 1000; Database.updatedAt := None;
     Database.lastSeen := None; Database.accessCount := Some 0;
     Database.lastDevice := None; Database.id := "id-0" |}.

Definition listedWorld : Database.World :=
  {| Database.macFile :=
       Some (Database.Holds
               {| Database.version := "1.0"; Database.created := 1000;
                  Database.macAddresses := [(Samples.mac, listedEntry)];
                  Database.statistics :=
                    {| Database.totalDevices := 1;
                       Database.totalAccesses := Some 0;
                       Database.lastUpdated := 1000 |} |});
     Database.macFile_writable := true;
     Database.logFile := None; Database.logFile_writable := true;
     Database.journal := []; Database.drawn := O |}.

(** A batch of one item, naming the listed address. *)
Definition oneListed : list BulkItem :=
  [{| item_macAddress := Some Samples.MAC; item_description := None;
      item_accessType := None |}].

(** No database file yet, and nowhere to write one. *)
Definition readOnlyDatabase : Database.World :=
  {| Database.macFile := None; Database.macFile_writable := false;
     Database.logFile := None; Database.logFile_writable := false;
     Database.journal := []; Database.drawn := O |}.

(** ** Keys and entries *)

(** The keys of the store are distinct, and every entry sits under the
    address it carries in its [macAddress] field. *)
Definition WellKeyed (s : Store) : Prop :=
  NoDup (JsMap.keys s) /\ Forall (fun kv => macAddress (snd kv) = fst kv) s.

(** An enhanced module that has been initialised and holds one entry. *)
Definition runningWorld : Enhanced.World :=
  Enhanced.setInitialized Samples.enhancedWorld.

(** A main data file that cannot be parsed, next to a backup file
    holding a snapshot with one entry; both can be written. *)
Definition brokenMain : Basic.World :=
  Basic.setDisk
    {| content := fun l =>
         match l with
         | Basic.DATA_FILE => Some Garbage
         | Basic.BACKUP_FILE => Some (savedLaptop "1.0")
         end;
       writable := fun _ => true;
       can_mkdir := true; journal := [] |}
    Basic.initial.

(** ** The order of a listing *)

(** [a] may stand before [b] in a listing: it was added no earlier. *)
Definition addedNoEarlier (a b : Entry) : Prop := addedAt a >= addedAt b.

(** ** The files of the database *)

(** What a database world holds on disk, and whether it can be written:
    everything but the journal and the identifier counter. *)
Definition onDisk (w : Database.World)
  : option (Database.FileOf Database.Data) * bool
    * option (Database.FileOf (list Database.LogEntry)) * bool :=
  (Database.macFile w, Database.macFile_writable w,
   Database.logFile w, Database.logFile_writable w).

(** The database file, when it parses, counts its own entries. *)
Definition Counted (w : Database.World) : Prop :=
  match Database.macFile w with
  | Some (Database.Holds d) =>
      Database.totalDevices (Database.statistics d) =
      JsMap.size (Database.macAddresses d)
  | Some Database.Unparseable | None => True
  end.

(** The database file is as before, or it is what [writeDatabase] made
    of some data at time [now]. *)
Definition KeptOrWritten (now : Z) (w w' : Database.World) : Prop :=
  Database.macFile w' = Database.macFile w
  \/ exists data,
       Database.macFile w' = Some (Database.Holds (Database.stamp now data)).

(** ** The limiter *)

(** Successive calls of [checkRateLimit] for one client, at the given
    times. *)
Fixpoint limitRun (identifier : string) (times : list Z)
    (store : JsMap.t DatabaseApi.RateEntry)
  : JsMap.t DatabaseApi.RateEntry * list bool :=
  match times with
  | [] => (store, [])
  | t :: rest =>
      let (store, ok) := DatabaseApi.checkRateLimit t identifier store in
      let (store, oks) := limitRun identifier rest store in
      (store, ok :: oks)
  end.

(** What a request to the database handler may do to the database
    behind it: the database file is kept or freshly written; an answer
    other than 200 leaves both files as they were; and an answer of 401,
    405 or 429 comes before any call to the database. *)
Definition Guarded (now : Z) (before after : Database.World) (st : Z) : Prop :=
  KeptOrWritten now before after
  /\ (st <> 200 ->
      Database.macFile after = Database.macFile before
      /\ Database.logFile after = Database.logFile before)
  /\ (In st [401; 405; 429] -> after = before).

(** ** Sample requests to the database handler *)

Definition sampleUUID (n : nat) : string := "id-1".

(** The admin key of a database deployment that did not set the
    environment variable. *)
Definition databaseKey : option string := Some "default-admin-key-change-me".

Definition post (a : Request) : DatabaseApi.Req :=
  {| DatabaseApi.method := "POST";
     DatabaseApi.forwardedFor := None;
     DatabaseApi.remoteAddress := Some "198.51.100.4";
     DatabaseApi.action := a |}.

(** An add-mac request with the key of another variant. *)
Definition foreignKeyAdd : DatabaseApi.Req :=
  post (AddMAC (Samples.addLaptop None)).

Definition properAdd : DatabaseApi.Req :=
  post (AddMAC {| add_macAddress := Some Samples.MAC;
                  add_description := Some "laptop";
                  add_accessType := None;
                  add_adminKey := databaseKey |}).

(** ** The access log *)

(** The events of the access log, none when it cannot be read or
    parsed. *)
Definition loggedEvents (w : Database.World) : list Database.LogEntry :=
  match Database.logFile w with
  | Some (Database.Holds l) => l
  | Some Database.Unparseable | None => []
  end.

(** ** Validated batches *)

(** An element of a bulk-add batch that passes the validation loop of
    the handler over the database. *)
Definition ValidItem (item : BulkItem) : Prop :=
  exists m,
    item_macAddress item = Some m
    /\ Database.validateMACAddress m = true
    /\ In (Js.orElse (item_accessType item) "trial") validAccessTypes.

(** An outcome record that names an accepted address and, if the
    address was added, one of the three tiers. *)
Definition GoodOutcome (o : Database.BulkOutcome) : Prop :=
  match o with
  | Database.Skipped k => Database.validateMACAddress k = true
  | Database.Added k t =>
      Database.validateMACAddress k = true /\ In t validAccessTypes
  end.

Definition validBatch : BulkRequest :=
  {| bulk_macAddresses :=
       Some [{| item_macAddress := Some Samples.MAC;
                item_description := None; item_accessType := None |};
             {| item_macAddress := Some Samples.other;
                item_description := Some "printer";
                item_accessType := Some "admin" |}];
     bulk_adminKey := databaseKey |}.

(** ** Calls that do not read *)

Definition isRead (L : Type) (c : FsCall L) : bool :=
  match c with
  | ReadFile _ _ => true
  | Mkdir _ | WriteFile _ _ _ => false
  end.

(** From [w] to [w'] the enhanced module made file-system calls, none
    of them a read. *)
Definition WroteOnly (w w' : Enhanced.World) : Prop :=
  exists calls,
    journal (Enhanced.disk w') = (journal (Enhanced.disk w) ++ calls)%list
    /\ forallb (fun c => negb (isRead Enhanced.Loc c)) calls = true.

(** ** Requests through the exported handlers *)

(** The actions that write at most one entry and persist when they
    succeed. *)
Definition oneEntryAction (request : Request) : bool :=
  match request with
  | CheckAccess _ | AddMAC _ | UpdateAccess _ | RemoveMAC _ => true
  | ListMACs _ | BulkAdd _ | OtherAction => false
  end.

(** The stored device record holds the five fields of the metadata the
    request supplied. *)
Definition suppliedBy (d : DeviceInfo) (ld : LastDevice) : Prop :=
  ld_hostname ld = hostname d
  /\ ld_username ld = username d
  /\ ld_platform ld = platform d
  /\ ld_localIP ld = localIP d
  /\ ld_publicIP ld = publicIP d.

(** Both files of the database exist, so that the constructor's
    initializeDatabase has nothing to create. *)
Definition Settled (w : Database.World) : Prop :=
  Database.macFile w <> None /\ Database.logFile w <> None.

(** The database with one entry and an empty access log. *)
Definition settledWorld : Database.World :=
  {| Database.macFile := Database.macFile listedWorld;
     Database.macFile_writable := true;
     Database.logFile := Some (Database.Holds []);
     Database.logFile_writable := true;
     Database.journal := []; Database.drawn := O |}.

(* ===================================================================== *)
(** * Properties *)
(* ===================================================================== *)

(** ** The keyed collection *)

Module JsMapFacts.
Import JsMap.
Set Implicit Arguments.

Section Facts.
Variable V : Type.
Implicit Types (m : t V) (k : string) (v : V).

Lemma has_get k m : has k m = true <-> exists v, get k m = Some v.
Proof.
  unfold has. destruct (get k m) as [v|]; split; intros H;
    try discriminate; eauto.
  destruct H as [v H]. discriminate.
Qed.

Lemma has_false_get k m : has k m = false <-> get k m = None.
Proof.
  unfold has. destruct (get k m); split; intros H; try discriminate; auto.
Qed.

Lemma get_set_same k v m : get k (set k v m) = Some v.
Proof.
  induction m as [|[k' v'] r IH]; simpl.
  - now rewrite String.eqb_refl.
  - destruct (k =? k')%string eqn:E; simpl.
    + now rewrite String.eqb_refl.
    + now rewrite E.
Qed.

Lemma get_set_other k k' v m : k' <> k -> get k' (set k v m) = get k' m.
Proof.
  intros Hne. induction m as [|[k0 v0] r IH]; simpl.
  - apply String.eqb_neq in Hne. now rewrite Hne.
  - destruct (k =? k0)%string eqn:E; simpl.
    + apply String.eqb_eq in E. subst k0.
      apply String.eqb_neq in Hne. now rewrite Hne.
    + now rewrite IH.
Qed.

Lemma has_set_same k v m : has k (set k v m) = true.
Proof. unfold has. now rewrite get_set_same. Qed.

Lemma has_set_other k k' v m : k' <> k -> has k' (set k v m) = has k' m.
Proof. intros H. unfold has. now rewrite get_set_other. Qed.

Lemma get_In k v m : get k m = Some v -> In (k, v) m.
Proof.
  induction m as [|[k' v'] r IH]; simpl; [discriminate|].
  destruct (k =? k')%string eqn:E.
  - apply String.eqb_eq in E. subst k'. intros [= ->]. now left.
  - intros H. right. now apply IH.
Qed.

Lemma get_None_keys k m : get k m = None <-> ~ In k (keys m).
Proof.
  induction m as [|[k' v'] r IH]; simpl.
  - split; auto.
  - destruct (k =? k')%string eqn:E.
    + apply String.eqb_eq in E. subst k'. split; [discriminate|].
      intros H. exfalso. apply H. now left.
    + apply String.eqb_neq in E. rewrite IH. split.
      * intros H [H1|H1]; [congruence | tauto].
      * intros H H1. apply H. now right.
Qed.

(** Setting an absent key appends it. *)
Lemma set_absent k v m : get k m = None -> set k v m = (m ++ [(k, v)])%list.
Proof.
  induction m as [|[k' v'] r IH]; simpl; [reflexivity|].
  destruct (k =? k')%string; [discriminate|].
  intros H. now rewrite IH.
Qed.

(** Setting a present key keeps the number of entries. *)
Lemma length_set_present k v m :
  has k m = true -> List.length (set k v m) = List.length m.
Proof.
  unfold has. induction m as [|[k' v'] r IH]; simpl; [discriminate|].
  destruct (k =? k')%string; simpl; [reflexivity|].
  intros H. now rewrite IH.
Qed.

Lemma size_set_absent k v m : has k m = false -> size (set k v m) = size m + 1.
Proof.
  intros H. apply has_false_get in H. unfold size.
  rewrite set_absent by assumption. rewrite length_app. simpl. lia.
Qed.

Lemma keys_set_present k v m : has k m = true -> keys (set k v m) = keys m.
Proof.
  unfold has, keys. induction m as [|[k' v'] r IH]; simpl; [discriminate|].
  destruct (k =? k')%string eqn:E; simpl.
  - apply String.eqb_eq in E. now subst.
  - intros H. now rewrite IH.
Qed.

(** Deleting an absent key changes nothing. *)
Lemma delete_absent k m : has k m = false -> delete k m = m.
Proof.
  intros H. apply has_false_get in H. unfold delete.
  induction m as [|[k' v'] r IH]; simpl in *; [reflexivity|].
  destruct (k =? k')%string; [discriminate|]. simpl.
  now rewrite IH.
Qed.

Lemma get_delete_same k m : get k (delete k m) = None.
Proof.
  unfold delete. induction m as [|[k' v'] r IH]; simpl; [reflexivity|].
  destruct (k =? k')%string eqn:E; simpl; [assumption|].
  now rewrite E.
Qed.

Lemma get_delete_other k k' m : k' <> k -> get k' (delete k m) = get k' m.
Proof.
  intros Hne. unfold delete.
  induction m as [|[k0 v0] r IH]; simpl; [reflexivity|].
  destruct (k =? k0)%string eqn:E; simpl.
  - apply String.eqb_eq in E. subst k0.
    apply String.eqb_neq in Hne. now rewrite Hne.
  - now rewrite IH.
Qed.

End Facts.

Unset Implicit Arguments.
End JsMapFacts.

(** ** Normalisation *)

Lemma lowerChar_idempotent c : Js.lowerChar (Js.lowerChar c) = Js.lowerChar c.
Proof.
  destruct c as [[] [] [] [] [] [] [] []]; reflexivity.
Qed.

Lemma toLowerCase_idempotent s :
  Js.toLowerCase (Js.toLowerCase s) = Js.toLowerCase s.
Proof.
  induction s as [|c r IH]; simpl; [reflexivity|].
  now rewrite lowerChar_idempotent, IH.
Qed.

Lemma toLowerCase_length s :
  String.length (Js.toLowerCase s) = String.length s.
Proof. induction s as [|c r IH]; simpl; congruence. Qed.

Lemma toLowerCase_nonempty s : s <> "" -> Js.toLowerCase s <> "".
Proof. destruct s; simpl; [congruence | discriminate]. Qed.

(** ** The scan of the Access Evaluator *)

Lemma findAuthorized_None store candidates :
  findAuthorized store candidates = None <->
  forall c, In c candidates -> JsMap.has (Js.toLowerCase c) store = false.
Proof.
  induction candidates as [|c r IH]; simpl.
  - split; [intros _ c [] | reflexivity].
  - destruct (JsMap.has (Js.toLowerCase c) store) eqn:E.
    + split.
      * intros H. apply JsMapFacts.has_get in E. destruct E as [e E].
        rewrite E in H. discriminate.
      * intros H. rewrite (H c (or_introl eq_refl)) in E. discriminate.
    + rewrite IH. split.
      * intros H x [<-|Hx]; auto.
      * intros H x Hx. apply H. now right.
Qed.

Lemma findAuthorized_first store pre c post e :
  (forall x, In x pre -> JsMap.has (Js.toLowerCase x) store = false) ->
  JsMap.get (Js.toLowerCase c) store = Some e ->
  findAuthorized store (pre ++ c :: post) = Some (Js.toLowerCase c, e).
Proof.
  intros Hpre Hc. induction pre as [|x r IH]; simpl.
  - unfold JsMap.has. now rewrite Hc.
  - rewrite (Hpre x (or_introl eq_refl)). apply IH.
    intros y Hy. apply Hpre. now right.
Qed.

Lemma findAuthorized_Some store candidates k e :
  findAuthorized store candidates = Some (k, e) ->
  JsMap.get k store = Some e /\
  exists pre c post,
    candidates = (pre ++ c :: post)%list /\ k = Js.toLowerCase c /\
    forall x, In x pre -> JsMap.has (Js.toLowerCase x) store = false.
Proof.
  induction candidates as [|c r IH]; simpl; [discriminate|].
  destruct (JsMap.has (Js.toLowerCase c) store) eqn:E.
  - destruct (JsMap.get (Js.toLowerCase c) store) as [e'|] eqn:G; [|discriminate].
    intros [= <- <-]. split; [assumption|].
    exists [], c, r. repeat split. intros x [].
  - intros H. destruct (IH H) as [G (pre & c' & post & -> & -> & Hpre)].
    split; [assumption|].
    exists (c :: pre), c', post. repeat split.
    intros x [<-|Hx]; auto.
Qed.

Section HandlerFacts.
Variable World : Type.
Variable getStore : World -> Store.
Variable setStore : Store -> World -> World.
Variable save : Z -> World -> World * option bool.

Let check := handleCheckAccess getStore setStore save.


Lemma handleCheckAccess_match now deviceInfo candidates w k e :
  findAuthorized (getStore w) candidates = Some (k, e) ->
  check now (checkRequest deviceInfo candidates) w =
  (fst (save now
          (setStore (JsMap.set k (noteDevice deviceInfo (touch now e)) (getStore w)) w)),
   reply 200 true "Device authorized"
     (AccessData (viewOf (noteDevice deviceInfo (touch now e))))).
Proof.
  intros H. unfold check, handleCheckAccess, checkRequest. simpl.
  destruct candidates as [|c r]; [discriminate|].
  rewrite H. now destruct (save now _).
Qed.

Lemma handleCheckAccess_denied now deviceInfo candidates w :
  candidates <> [] ->
  findAuthorized (getStore w) candidates = None ->
  check now (checkRequest deviceInfo candidates) w =
  (w, reply 403 false "Device not authorized. MAC address not in whitelist."
        NullData).
Proof.
  intros Hne H. unfold check, handleCheckAccess, checkRequest. simpl.
  destruct candidates as [|c r]; [congruence|].
  now rewrite H.
Qed.

End HandlerFacts.


Lemma handlers_first_match_wins (World : Type) (getStore : World -> Store)
    (setStore : Store -> World -> World)
    (save : Z -> World -> World * option bool) :
  FirstMatchWins World getStore (handleCheckAccess getStore setStore save).
Proof.
  intros now deviceInfo w candidates Hne r. split.
  - rewrite <- findAuthorized_None. subst r. split.
    + intros [Hst _].
      destruct (findAuthorized (getStore w) candidates) as [[k e]|] eqn:F;
        [|reflexivity].
      rewrite (handleCheckAccess_match _ getStore setStore save now deviceInfo _ _ _ _ F) in Hst.
      discriminate.
    + intros F.
      rewrite (handleCheckAccess_denied _ getStore setStore save now deviceInfo _ _ Hne F).
      now split.
  - intros pre c post e -> Hpre Hc. subst r.
    pose proof (findAuthorized_first _ _ _ post _ Hpre Hc) as F.
    rewrite (handleCheckAccess_match _ getStore setStore save now deviceInfo _ _ _ _ F).
    repeat split; try reflexivity.
    intros post'.
    pose proof (findAuthorized_first _ _ _ post' _ Hpre Hc) as F'.
    now rewrite (handleCheckAccess_match _ getStore setStore save now deviceInfo _ _ _ _ F').
Qed.

(** ** The scan of [MACDatabase.checkAccess] *)

Module DatabaseFacts.
Import Database.

Lemma readDatabase_entries now w :
  macAddresses (snd (readDatabase now w)) = stored w.
Proof.
  unfold readDatabase, stored.
  destruct (macFile w) as [[|d]|]; reflexivity.
Qed.

Lemma readDatabase_world now w :
  fst (readDatabase now w) =
  record (ReadDatabase (match macFile w with
                        | Some (Holds _) => true | _ => false end)) w.
Proof.
  unfold readDatabase. destruct (macFile w) as [[|d]|]; reflexivity.
Qed.

Lemma findEntry_None data candidates :
  findEntry data candidates = None <->
  forall c, In c candidates ->
            JsMap.has (Js.toLowerCase c) (macAddresses data) = false.
Proof.
  induction candidates as [|c r IH]; simpl.
  - split; [intros _ c [] | reflexivity].
  - destruct (JsMap.get (Js.toLowerCase c) (macAddresses data)) as [e|] eqn:G.
    + split; [discriminate|].
      intros H. specialize (H c (or_introl eq_refl)).
      apply JsMapFacts.has_false_get in H. congruence.
    + rewrite IH. split.
      * intros H x [<-|Hx]; [now apply JsMapFacts.has_false_get | auto].
      * intros H x Hx. apply H. now right.
Qed.

Lemma findEntry_first data pre c post e :
  (forall x, In x pre ->
             JsMap.has (Js.toLowerCase x) (macAddresses data) = false) ->
  JsMap.get (Js.toLowerCase c) (macAddresses data) = Some e ->
  findEntry data (pre ++ c :: post) = Some (Js.toLowerCase c, e).
Proof.
  intros Hpre Hc. induction pre as [|x r IH]; simpl.
  - now rewrite Hc.
  - pose proof (Hpre x (or_introl eq_refl)) as Hx.
    apply JsMapFacts.has_false_get in Hx. rewrite Hx. apply IH.
    intros y Hy. apply Hpre. now right.
Qed.

(** The outcome of a granted check depends on the candidates only
    through the match. *)
Lemma checkAccess_match randomUUID now candidates deviceInfo w k e :
  findEntry (snd (readDatabase now w)) candidates = Some (k, e) ->
  checkAccess randomUUID now candidates deviceInfo w =
  (let w1 := fst (readDatabase now w) in
   let data := snd (readDatabase now w) in
   let e1 := touch now deviceInfo e in
   let data1 :=
     countAccess (withMacAddresses (JsMap.set k e1 (macAddresses data)) data) in
   logAccess randomUUID now k deviceInfo true "Access granted"
     (fst (writeDatabase now data1 w1)),
   {| success := true; message := "Device authorized";
      granted := Some (viewOf k (touch now deviceInfo e)); entry := None |}).
Proof.
  intros H. unfold checkAccess.
  destruct (readDatabase now w) as [w1 data]. simpl in *.
  rewrite H. now destruct (writeDatabase now _ w1).
Qed.

Lemma checkAccess_denied randomUUID now candidates deviceInfo w :
  findEntry (snd (readDatabase now w)) candidates = None ->
  snd (checkAccess randomUUID now candidates deviceInfo w) =
  outcome false "Device not authorized. MAC address not in whitelist.".
Proof.
  intros H. unfold checkAccess.
  destruct (readDatabase now w) as [w1 data]. simpl in *.
  now rewrite H.
Qed.

(** A key that passed [validateMACAddress] names no member of
    [Object.prototype], lowercased or not: on such keys property lookup
    is own-property lookup. *)
Lemma macGroups_length n s :
  macGroups n s = true -> String.length s = (3 * n + 2)%nat.
Proof.
  revert s. induction n as [|n IH]; intros s; simpl.
  - destruct s as [|a [|b [|c r]]]; try discriminate. reflexivity.
  - destruct s as [|a [|b [|c r]]]; try discriminate.
    rewrite !andb_true_iff. intros [_ H]. simpl.
    rewrite (IH _ H). lia.
Qed.

Lemma valid_mac_own_property s :
  validateMACAddress s = true ->
  own_property_only (Js.toLowerCase s) = true.
Proof.
  intros H. apply macGroups_length in H.
  rewrite <- toLowerCase_length in H.
  unfold own_property_only. apply negb_true_iff.
  destruct (existsb _ _) eqn:E; [|reflexivity].
  apply existsb_exists in E. destruct E as [x [Hin Heq]].
  apply String.eqb_eq in Heq. subst x.
  simpl in Hin.
  repeat (destruct Hin as [Hin|Hin];
          [rewrite <- Hin in H; simpl in H; discriminate|]).
  destruct Hin.
Qed.

End DatabaseFacts.


(** C1.  In all three variants a check-access request with a non-empty
    list of candidate addresses is decided by scanning the candidates in
    the order given: it is denied (status 403 and [success = false] in
    the handlers, [success = false] from [MACDatabase.checkAccess]) if and
    only if no candidate, lowercased, is a key of the store; and the first
    candidate whose lowercased form is a key is the match, the outcome
    being the same whatever candidates come after it. *)
Theorem check_access_first_match_wins :
  FirstMatchWins Basic.World Basic.getStore Basic.handleCheckAccess
  /\ FirstMatchWins Enhanced.World Enhanced.getStore Enhanced.handleCheckAccess
  /\ (forall (randomUUID : nat -> string) (now : Z) (deviceInfo : DeviceInfo)
             (w : Database.World) (candidates : list string),
         candidates <> [] ->
         validMACs candidates ->
         let r := snd (Database.checkAccess randomUUID now candidates deviceInfo w) in
         (Database.success r = false <->
          (forall c, In c candidates ->
                     JsMap.has (Js.toLowerCase c) (Database.stored w) = false))
         /\
         (forall pre c post e,
             candidates = (pre ++ c :: post)%list ->
             (forall x, In x pre ->
                        JsMap.has (Js.toLowerCase x) (Database.stored w) = false) ->
             JsMap.get (Js.toLowerCase c) (Database.stored w) = Some e ->
             Database.success r = true /\
             Database.granted r =
               Some (Database.viewOf (Js.toLowerCase c)
                       (Database.touch now deviceInfo e)) /\
             forall post',
               validMACs post' ->
               Database.checkAccess randomUUID now (pre ++ c :: post') deviceInfo w =
               Database.checkAccess randomUUID now candidates deviceInfo w)).
Proof.
  split; [apply handlers_first_match_wins|].
  split; [apply handlers_first_match_wins|].
  intros randomUUID now deviceInfo w candidates Hne _ r. split.
  - rewrite <- (DatabaseFacts.readDatabase_entries now w).
    rewrite <- DatabaseFacts.findEntry_None. subst r. split.
    + intros Hs.
      destruct (Database.findEntry (snd (Database.readDatabase now w)) candidates)
        as [[k e]|] eqn:F; [|reflexivity].
      rewrite (DatabaseFacts.checkAccess_match randomUUID now _ deviceInfo w _ _ F) in Hs.
      discriminate.
    + intros F.
      now rewrite (DatabaseFacts.checkAccess_denied randomUUID now _ deviceInfo w F).
  - intros pre c post e -> Hpre Hc. subst r.
    rewrite <- (DatabaseFacts.readDatabase_entries now w) in Hpre, Hc.
    pose proof (DatabaseFacts.findEntry_first _ _ _ post _ Hpre Hc) as F.
    rewrite (DatabaseFacts.checkAccess_match randomUUID now _ deviceInfo w _ _ F).
    repeat split; try reflexivity.
    intros post' _.
    pose proof (DatabaseFacts.findEntry_first _ _ _ post' _ Hpre Hc) as F'.
    now rewrite (DatabaseFacts.checkAccess_match randomUUID now _ deviceInfo w _ _ F').
Qed.


Lemma check_access_first_match_wins_witness :
  status
    (snd (Basic.handleCheckAccess 5000
            (checkRequest None [Samples.other; Samples.MAC; "zz"])
            Samples.basicWorld)) = 200.
Proof.
  destruct check_access_first_match_wins as [HA _].
  destruct (HA 5000 None Samples.basicWorld [Samples.other; Samples.MAC; "zz"]
              ltac:(discriminate)) as [_ H].
  refine (proj1 (H [Samples.other] Samples.MAC ["zz"] Samples.laptop
                   eq_refl _ eq_refl)).
  intros x [<-|[]]. reflexivity.
Defined.

(** ** Bookkeeping of a successful check *)

Section CheckFacts.
Variable World : Type.
Variable getStore : World -> Store.
Variable setStore : Store -> World -> World.
Variable save : Z -> World -> World * option bool.
Variable unsaved : option bool.
Variable env : option string.

Hypothesis get_set : forall s w, getStore (setStore s w) = s.
Hypothesis save_keeps_store :
  forall now w, getStore (fst (save now w)) = getStore w.

Let check := handleCheckAccess getStore setStore save.
Let add := handleAddMAC getStore setStore save env.

Lemma check_store now deviceInfo candidates w k e :
  findAuthorized (getStore w) candidates = Some (k, e) ->
  getStore (fst (check now (checkRequest deviceInfo candidates) w)) =
  JsMap.set k (noteDevice deviceInfo (touch now e)) (getStore w).
Proof.
  intros F. unfold check.
  rewrite (handleCheckAccess_match _ getStore setStore save now deviceInfo _ _ _ _ F).
  simpl. now rewrite save_keeps_store, get_set.
Qed.

(** When every candidate before [c] that is a key lowercases to the key
    of [c], the match is the entry under that key. *)
Lemma findAuthorized_prefix_key store pre c post e :
  JsMap.get (Js.toLowerCase c) store = Some e ->
  (forall x, In x pre ->
             JsMap.has (Js.toLowerCase x) store = true ->
             Js.toLowerCase x = Js.toLowerCase c) ->
  findAuthorized store (pre ++ c :: post) = Some (Js.toLowerCase c, e).
Proof.
  intros G Honly.
  induction pre as [|x r IH]; simpl.
  - unfold JsMap.has. now rewrite G.
  - destruct (JsMap.has (Js.toLowerCase x) store) eqn:E.
    + rewrite (Honly x (or_introl eq_refl) E). now rewrite G.
    + apply IH. intros y Hy. apply Honly. now right.
Qed.

Lemma add_fresh now req w macAddress :
  validateAdminKey env (add_adminKey req) = true ->
  add_macAddress req = Some macAddress ->
  macAddress <> "" ->
  JsMap.has (Js.toLowerCase macAddress) (getStore w) = false ->
  let entry :=
    newEntry now (Js.toLowerCase macAddress) (add_description req)
      "No description" (finalAccessType (add_accessType req)) in
  let w1 := setStore (JsMap.set (Js.toLowerCase macAddress) entry (getStore w)) w in
  add now req w =
  (fst (save now w1),
   {| status := 201; success := true;
      message := "MAC address added successfully";
      data := EntryData entry; persistent := snd (save now w1) |}).
Proof.
  intros Hkey Hmac Hne Hfresh. unfold add, handleAddMAC.
  rewrite Hkey, Hmac. simpl.
  apply String.eqb_neq in Hne. rewrite Hne, Hfresh.
  now destruct (save now _).
Qed.

End CheckFacts.


Lemma handlers_access_bookkeeping (World : Type) (getStore : World -> Store)
    (setStore : Store -> World -> World)
    (save : Z -> World -> World * option bool) (env : option string) :
  (forall s w, getStore (setStore s w) = s) ->
  (forall now w, getStore (fst (save now w)) = getStore w) ->
  AccessBookkeeping World getStore setStore save
    (handleCheckAccess getStore setStore save)
    (validateAdminKey env)
    (handleAddMAC getStore setStore save env).
Proof.
  intros get_set save_keeps. split.
  - intros now deviceInfo w pre post c e Hpre Hc w'.
    pose proof (findAuthorized_first _ _ _ post _ Hpre Hc) as F.
    exists (noteDevice deviceInfo (touch now e)).
    subst w'.
    rewrite (check_store _ getStore setStore save get_set save_keeps
               now deviceInfo _ w _ _ F).
    rewrite JsMapFacts.get_set_same.
    rewrite (handleCheckAccess_match _ getStore setStore save now deviceInfo _ _ _ _ F).
    repeat split.
    + now destruct deviceInfo.
    + now destruct deviceInfo.
    + intros d ->. reflexivity.
  - intros now later req macAddress deviceInfo w Hmac Hne Hfresh Hkey w1.
    pose proof (add_fresh _ getStore setStore save env now req w macAddress
                  Hkey Hmac Hne Hfresh) as Hadd.
    simpl in Hadd.
    set (k := Js.toLowerCase macAddress) in *.
    set (e0 := newEntry now k (add_description req) "No description"
                 (finalAccessType (add_accessType req))) in *.
    assert (Hstore : getStore w1 = JsMap.set k e0 (getStore w)).
    { subst w1. rewrite Hadd. simpl. now rewrite save_keeps, get_set. }
    assert (G : JsMap.get k (getStore w1) = Some e0).
    { rewrite Hstore. apply JsMapFacts.get_set_same. }
    split; [now rewrite Hadd|].
    split; [exists e0; now split|].
    split.
    + intros candidates Hin.
      destruct (findAuthorized (getStore w1) candidates) as [[k' e']|] eqn:F.
      * now rewrite (handleCheckAccess_match _ getStore setStore save later
                       deviceInfo _ _ _ _ F).
      * exfalso.
        pose proof (proj1 (findAuthorized_None _ _) F macAddress Hin) as H.
        fold k in H. unfold JsMap.has in H. rewrite G in H. discriminate.
    + intros pre post Hpre r.
      assert (F : findAuthorized (getStore w1) (pre ++ macAddress :: post)
                  = Some (k, e0)).
      { apply findAuthorized_prefix_key; [assumption|].
        intros x Hin Hx.
        destruct (String.eqb_spec (Js.toLowerCase x) k) as [|Hd]; [assumption|].
        rewrite Hstore, (JsMapFacts.has_set_other _ _ Hd), (Hpre x Hin) in Hx.
        discriminate. }
      subst r.
      rewrite (check_store _ getStore setStore save get_set save_keeps
                 later deviceInfo _ w1 _ _ F).
      rewrite (handleCheckAccess_match _ getStore setStore save later
                 deviceInfo _ _ _ _ F).
      simpl. repeat split.
      * eexists. split; [reflexivity|]. now destruct deviceInfo.
      * eexists. split; [apply JsMapFacts.get_set_same|]. now destruct deviceInfo.
Qed.

(** ** The two Map-backed variants satisfy the laws the handlers rely on *)

Module BasicFacts.
Import Basic.

Lemma basic_get_set s w : getStore (setStore s w) = s.
Proof. reflexivity. Qed.

(** What saveMACWhitelist does to the world: only the disk changes. *)
Lemma basic_save_world now w :
  fst (saveMACWhitelist now w) =
  setDisk
    (fst (writeFile Loc_eqb BACKUP_FILE (serialize (snapshot now w))
            (fst (writeFile Loc_eqb DATA_FILE (serialize (snapshot now w))
                    (ensureDataDirectory (disk w)))))) w.
Proof.
  unfold saveMACWhitelist.
  destruct (writeFile Loc_eqb DATA_FILE _ _) as [d1 b1]. simpl.
  now destruct (writeFile Loc_eqb BACKUP_FILE _ d1) as [d2 b2].
Qed.

Lemma save_returns_nothing now w : snd (saveMACWhitelist now w) = None.
Proof.
  unfold saveMACWhitelist.
  destruct (writeFile Loc_eqb DATA_FILE _ _) as [d1 b1].
  now destruct (writeFile Loc_eqb BACKUP_FILE _ d1) as [d2 b2].
Qed.

Lemma basic_save_keeps_store now w :
  getStore (fst (saveMACWhitelist now w)) = getStore w.
Proof. now rewrite basic_save_world. Qed.

Lemma basic_save_keeps_statistics now w :
  statistics (fst (saveMACWhitelist now w)) = statistics w.
Proof. now rewrite basic_save_world. Qed.

End BasicFacts.

Module EnhancedFacts.
Import Enhanced.

Lemma enhanced_get_set s w : getStore (setStore s w) = s.
Proof. reflexivity. Qed.

Lemma enhanced_save_world now w :
  fst (saveToStorage now w) =
  setMemoryBackup (snapshot now w)
    (setDisk (fst (saveTargets (serialize (snapshot now w)) targets (disk w) []))
       w).
Proof.
  unfold saveToStorage, saveToStorage_results.
  now destruct (saveTargets _ targets (disk w) []) as [d results].
Qed.

Lemma enhanced_save_keeps_store now w :
  getStore (fst (saveToStorage now w)) = getStore w.
Proof. now rewrite enhanced_save_world. Qed.

Lemma enhanced_save_keeps_statistics now w :
  statistics (fst (saveToStorage now w)) = statistics w.
Proof. now rewrite enhanced_save_world. Qed.

Lemma save_disk now w :
  disk (fst (saveToStorage now w)) =
  fst (saveTargets (serialize (snapshot now w)) targets (disk w) []).
Proof. now rewrite enhanced_save_world. Qed.

End EnhancedFacts.



Lemma handlers_check_without_device (World : Type) (getStore : World -> Store)
    (setStore : Store -> World -> World)
    (save : Z -> World -> World * option bool) :
  (forall s w, getStore (setStore s w) = s) ->
  (forall now w, getStore (fst (save now w)) = getStore w) ->
  CheckWithoutDevice World getStore (handleCheckAccess getStore setStore save).
Proof.
  intros get_set save_keeps now w pre post c e Hpre Hc r.
  pose proof (findAuthorized_first _ _ _ post _ Hpre Hc) as F.
  subst r.
  rewrite (check_store _ getStore setStore save get_set save_keeps
             now None _ w _ _ F).
  rewrite (handleCheckAccess_match _ getStore setStore save now None _ _ _ _ F).
  simpl. repeat split.
  exists (touch now e). rewrite JsMapFacts.get_set_same. now repeat split.
Qed.

(** C9.  In both Map-backed variants, a check-access request without
    device metadata in which some candidate matches is still granted and
    still updates [accessCount] and [lastSeen], and leaves the matched
    entry's [lastDevice] unchanged. *)
Theorem check_without_device_info :
  CheckWithoutDevice Basic.World Basic.getStore Basic.handleCheckAccess
  /\ CheckWithoutDevice Enhanced.World Enhanced.getStore
       Enhanced.handleCheckAccess.
Proof.
  split; apply handlers_check_without_device.
  - apply BasicFacts.basic_get_set.
  - apply BasicFacts.basic_save_keeps_store.
  - apply EnhancedFacts.enhanced_get_set.
  - apply EnhancedFacts.enhanced_save_keeps_store.
Qed.

Lemma check_without_device_info_witness :
  exists e',
    JsMap.get Samples.mac
      (Enhanced.getStore
         (fst (Enhanced.handleCheckAccess 9000
                 (checkRequest None [Samples.other; Samples.MAC])
                 Samples.usedWorld))) = Some e'
    /\ accessCount e' = Some 4
    /\ lastSeen e' = Some 9000
    /\ lastDevice e' = Some (deviceSnapshot Samples.device).
Proof.
  destruct check_without_device_info as [_ HB].
  refine (proj2 (proj2 (HB 9000 Samples.usedWorld [Samples.other] []
                          Samples.MAC Samples.usedLaptop _ eq_refl))).
  intros x [<-|[]]. reflexivity.
Defined.

(** ** Access tier: defaulted on add, validated on update *)



Lemma handlers_add_defaults_tier (World : Type) (getStore : World -> Store)
    (setStore : Store -> World -> World)
    (save : Z -> World -> World * option bool) (env : option string) :
  (forall s w, getStore (setStore s w) = s) ->
  (forall now w, getStore (fst (save now w)) = getStore w) ->
  AddDefaultsTier World getStore (validateAdminKey env)
    (handleAddMAC getStore setStore save env).
Proof.
  intros get_set save_keeps now req w macAddress Hkey Hmac Hne Hfresh r.
  subst r.
  rewrite (add_fresh _ getStore setStore save env now req w macAddress
             Hkey Hmac Hne Hfresh).
  simpl. repeat split.
  eexists. split; [reflexivity|].
  rewrite save_keeps, get_set, JsMapFacts.get_set_same.
  split; [reflexivity|].
  unfold newEntry, finalAccessType, validAccessTypes, Js.includes.
  cbn [accessType].
  destruct (add_accessType req) as [a|].
  - destruct (existsb (String.eqb a) ["trial"; "unlimited"; "admin"]);
      split; intros; congruence.
  - split; [discriminate | reflexivity].
Qed.

Lemma handlers_update_rejects_tier (World : Type) (getStore : World -> Store)
    (setStore : Store -> World -> World)
    (save : Z -> World -> World * option bool) (env : option string) :
  UpdateRejectsTier World (validateAdminKey env)
    (handleUpdateAccess getStore setStore save env).
Proof.
  intros now req w Hkey Hbad r. subst r.
  unfold handleUpdateAccess. rewrite Hkey. simpl.
  destruct (negb (Js.truthy (upd_macAddress req))
            || negb (Js.truthy (upd_accessType req))); [now repeat split|].
  unfold validAccessTypes. rewrite Hbad. simpl. now repeat split.
Qed.

(** C10.  In both Map-backed variants an add-mac request with a valid
    admin key and a new address succeeds regardless of the supplied
    [accessType]: a value outside trial, unlimited, admin (or a missing
    one) is replaced by ['trial'] and is never reported as an error;
    update-access, by contrast, answers 400 to such a value. *)
Theorem add_defaults_tier_update_rejects :
  forall env : option string,
    AddDefaultsTier Basic.World Basic.getStore (validateAdminKey env)
      (Basic.handleAddMAC env)
    /\ AddDefaultsTier Enhanced.World Enhanced.getStore (validateAdminKey env)
         (Enhanced.handleAddMAC env)
    /\ UpdateRejectsTier Basic.World (validateAdminKey env)
         (Basic.handleUpdateAccess env)
    /\ UpdateRejectsTier Enhanced.World (validateAdminKey env)
         (Enhanced.handleUpdateAccess env).
Proof.
  intros env. split; [|split; [|split]].
  - apply handlers_add_defaults_tier.
    + apply BasicFacts.basic_get_set.
    + apply BasicFacts.basic_save_keeps_store.
  - apply handlers_add_defaults_tier.
    + apply EnhancedFacts.enhanced_get_set.
    + apply EnhancedFacts.enhanced_save_keeps_store.
  - apply handlers_update_rejects_tier.
  - apply handlers_update_rejects_tier.
Qed.

Lemma add_defaults_tier_update_rejects_witness :
  (exists e,
      data (snd (Basic.handleAddMAC None 1000
                   (Samples.addLaptop (Some "gold")) Basic.initial))
      = EntryData e
      /\ accessType e = Some "trial")
  /\ status (snd (Basic.handleUpdateAccess None 2000
                    {| upd_macAddress := Some Samples.MAC;
                       upd_accessType := Some "gold";
                       upd_adminKey := Samples.key |}
                    Samples.basicWorld)) = 400.
Proof.
  destruct (add_defaults_tier_update_rejects None) as (HA & _ & HU & _).
  split.
  - destruct (HA 1000 (Samples.addLaptop (Some "gold")) Basic.initial
                Samples.MAC eq_refl eq_refl ltac:(discriminate) eq_refl)
      as (_ & _ & e & He & _ & _ & Ht).
    exists e. split; [exact He | exact (Ht eq_refl)].
  - exact (proj1 (HU 2000 {| upd_macAddress := Some Samples.MAC;
                             upd_accessType := Some "gold";
                             upd_adminKey := Samples.key |}
                    Samples.basicWorld eq_refl eq_refl)).
Defined.

(** ** What each handler does to the store *)



Lemma Extends_refl s : Extends s s.
Proof. intros k e H. exact H. Qed.

Lemma Extends_trans s1 s2 s3 : Extends s1 s2 -> Extends s2 s3 -> Extends s1 s3.
Proof. intros H12 H23 k e H. apply H23, H12, H. Qed.

Lemma Extends_set_fresh s k e :
  JsMap.has k s = false -> Extends s (JsMap.set k e s).
Proof.
  intros Hf k' e' H.
  destruct (String.eqb_spec k' k) as [->|Hne].
  - apply JsMapFacts.has_false_get in Hf. congruence.
  - now rewrite JsMapFacts.get_set_other.
Qed.

Lemma Extends_keeps s s' : Extends s s' -> KeepsAddedAt s s'.
Proof. intros H k e e' G G'. rewrite (H _ _ G) in G'. now inversion G'. Qed.

Lemma KeepsAddedAt_refl s : KeepsAddedAt s s.
Proof. apply Extends_keeps, Extends_refl. Qed.

Lemma KeepsAddedAt_set s k e e1 :
  JsMap.get k s = Some e -> addedAt e1 = addedAt e ->
  KeepsAddedAt s (JsMap.set k e1 s).
Proof.
  intros G Ha k' e0 e0' G0 G0'.
  destruct (String.eqb_spec k' k) as [->|Hne].
  - rewrite JsMapFacts.get_set_same in G0'. congruence.
  - rewrite JsMapFacts.get_set_other in G0' by assumption. congruence.
Qed.

Lemma KeepsAddedAt_delete s k : KeepsAddedAt s (JsMap.delete k s).
Proof.
  intros k' e e' G G'.
  destruct (String.eqb_spec k' k) as [->|Hne].
  - rewrite JsMapFacts.get_delete_same in G'. discriminate.
  - rewrite JsMapFacts.get_delete_other in G' by assumption. congruence.
Qed.

(** After [let (w, saved) := save now w1 in (w, response)], the state is
    [fst (save now w1)]. *)
Ltac after_save :=
  match goal with
  | |- context [let (_, _) := ?save ?now ?w in _] =>
      let w' := fresh "w'" in
      let b := fresh "b" in
      let S := fresh "S" in
      destruct (save now w) as [w' b] eqn:S;
      apply (f_equal fst) in S; cbn [fst] in S; subst w'; cbn [fst snd]
  end.

Section FrameFacts.
Variable World : Type.
Variable getStore : World -> Store.
Variable setStore : Store -> World -> World.
Variable getStatistics : World -> Statistics.
Variable setStatistics : Statistics -> World -> World.
Variable save : Z -> World -> World * option bool.
Variable unsaved : option bool.
Variable env : option string.

Hypothesis get_set : forall s w, getStore (setStore s w) = s.
Hypothesis save_keeps_store :
  forall now w, getStore (fst (save now w)) = getStore w.
Hypothesis statistics_keep_store :
  forall st w, getStore (setStatistics st w) = getStore w.

Let check := handleCheckAccess getStore setStore save.
Let add := handleAddMAC getStore setStore save env.
Let update := handleUpdateAccess getStore setStore save env.
Let remove := handleRemoveMAC getStore setStore save env.
Let list := handleListMACs getStore getStatistics setStatistics env.
Let bulk := handleBulkAdd getStore setStore save unsaved env.

Lemma saved_store now s w :
  getStore (fst (save now (setStore s w))) = s.
Proof. now rewrite save_keeps_store, get_set. Qed.

Lemma check_keeps now req w :
  KeepsAddedAt (getStore w) (getStore (fst (check now req w))).
Proof.
  unfold check, handleCheckAccess.
  destruct (chk_macAddresses req) as [[|c r]|]; try apply KeepsAddedAt_refl.
  destruct (findAuthorized (getStore w) (c :: r)) as [[k e]|] eqn:F;
    [|apply KeepsAddedAt_refl].
  apply findAuthorized_Some in F. destruct F as [G _].
  after_save. rewrite saved_store.
  apply (KeepsAddedAt_set _ _ e); [assumption|].
  now destruct (chk_deviceInfo req).
Qed.

Lemma add_extends now req w :
  Extends (getStore w) (getStore (fst (add now req w))).
Proof.
  unfold add, handleAddMAC.
  destruct (negb (validateAdminKey env (add_adminKey req)));
    [apply Extends_refl|].
  destruct (add_macAddress req) as [m|]; [|apply Extends_refl].
  destruct (m =? "")%string; [apply Extends_refl|].
  destruct (JsMap.has (Js.toLowerCase m) (getStore w)) eqn:E;
    [apply Extends_refl|].
  after_save. rewrite saved_store.
  now apply Extends_set_fresh.
Qed.

(** The store after a successful update-access. *)
Lemma update_found now req w macAddress tier e :
  validateAdminKey env (upd_adminKey req) = true ->
  upd_macAddress req = Some macAddress -> macAddress <> "" ->
  upd_accessType req = Some tier ->
  In tier ["trial"; "unlimited"; "admin"] ->
  JsMap.get (Js.toLowerCase macAddress) (getStore w) = Some e ->
  status (snd (update now req w)) = 200 /\
  data (snd (update now req w)) = EntryData (retier now tier e) /\
  getStore (fst (update now req w)) =
  JsMap.set (Js.toLowerCase macAddress) (retier now tier e) (getStore w).
Proof.
  intros Hkey Hmac Hne Htier Hin G.
  unfold update, handleUpdateAccess. rewrite Hkey, Hmac, Htier.
  assert (Hm : (macAddress =? "")%string = false) by now apply String.eqb_neq.
  assert (Ht : (tier =? "")%string = false).
  { simpl in Hin. destruct Hin as [<-|[<-|[<-|[]]]]; reflexivity. }
  assert (Hv : Js.includes validAccessTypes (Some tier) = true).
  { simpl in Hin. destruct Hin as [<-|[<-|[<-|[]]]]; reflexivity. }
  cbn [Js.truthy Js.orElse]. rewrite Hm, Ht, Hv. cbn [negb orb].
  rewrite G.
  after_save. rewrite saved_store.
  now repeat split.
Qed.

Lemma update_keeps now req w :
  KeepsAddedAt (getStore w) (getStore (fst (update now req w))).
Proof.
  unfold update, handleUpdateAccess.
  destruct (negb (validateAdminKey env (upd_adminKey req)));
    [apply KeepsAddedAt_refl|].
  destruct (negb (Js.truthy (upd_macAddress req))
            || negb (Js.truthy (upd_accessType req)));
    [apply KeepsAddedAt_refl|].
  destruct (negb (Js.includes validAccessTypes (upd_accessType req)));
    [apply KeepsAddedAt_refl|].
  destruct (JsMap.get _ (getStore w)) as [e|] eqn:G;
    [|apply KeepsAddedAt_refl].
  after_save. rewrite saved_store.
  now apply (KeepsAddedAt_set _ _ e).
Qed.

(** Removing an address that is not a key: 404, and nothing changes. *)
Lemma remove_absent now req w macAddress :
  validateAdminKey env (rem_adminKey req) = true ->
  rem_macAddress req = Some macAddress -> macAddress <> "" ->
  JsMap.has (Js.toLowerCase macAddress) (getStore w) = false ->
  remove now req w =
  (w, reply 404 false "MAC address not found in whitelist" NoData).
Proof.
  intros Hkey Hmac Hne Habs.
  unfold remove, handleRemoveMAC. rewrite Hkey, Hmac.
  apply String.eqb_neq in Hne. cbn [Js.truthy Js.orElse negb].
  now rewrite Hne, Habs.
Qed.

Lemma remove_keeps now req w :
  KeepsAddedAt (getStore w) (getStore (fst (remove now req w))).
Proof.
  unfold remove, handleRemoveMAC.
  destruct (negb (validateAdminKey env (rem_adminKey req)));
    [apply KeepsAddedAt_refl|].
  destruct (negb (Js.truthy (rem_macAddress req)));
    [apply KeepsAddedAt_refl|].
  destruct (negb (JsMap.has _ (getStore w))); [apply KeepsAddedAt_refl|].
  after_save. rewrite saved_store.
  apply KeepsAddedAt_delete.
Qed.

Lemma list_keeps_store now req w :
  getStore (fst (list now req w)) = getStore w.
Proof.
  unfold list, handleListMACs.
  destruct (negb (validateAdminKey env (list_adminKey req))); [reflexivity|].
  simpl. apply statistics_keep_store.
Qed.

Lemma bulkStep_extends now s item :
  Extends (bulk_store s) (bulk_store (bulkStep now s item)).
Proof.
  unfold bulkStep.
  destruct (negb (Js.truthy (item_macAddress item))); [apply Extends_refl|].
  destruct (JsMap.has _ (bulk_store s)) eqn:E; [apply Extends_refl|].
  simpl. now apply Extends_set_fresh.
Qed.

Lemma bulkLoop_extends now items s :
  Extends (bulk_store s) (bulk_store (fold_left (bulkStep now) items s)).
Proof.
  revert s. induction items as [|item rest IH]; intros s; simpl.
  - apply Extends_refl.
  - eapply Extends_trans; [apply bulkStep_extends | apply IH].
Qed.

Lemma bulk_store_after now req w items :
  validateAdminKey env (bulk_adminKey req) = true ->
  bulk_macAddresses req = Some items ->
  getStore (fst (bulk now req w)) =
  bulk_store (fold_left (bulkStep now) items
                {| bulk_store := getStore w; bulk_results := [];
                   bulk_addedCount := 0 |}).
Proof.
  intros Hkey Hitems. unfold bulk, handleBulkAdd. rewrite Hkey, Hitems.
  cbn [negb].
  destruct (bulk_addedCount _ >? 0).
  - after_save. apply saved_store.
  - simpl. apply get_set.
Qed.

Lemma bulk_extends now req w :
  Extends (getStore w) (getStore (fst (bulk now req w))).
Proof.
  destruct (validateAdminKey env (bulk_adminKey req)) eqn:Hkey.
  - destruct (bulk_macAddresses req) as [items|] eqn:Hitems.
    + rewrite (bulk_store_after now req w items Hkey Hitems).
      apply (bulkLoop_extends now items
               {| bulk_store := getStore w; bulk_results := [];
                  bulk_addedCount := 0 |}).
    + unfold bulk, handleBulkAdd. rewrite Hkey, Hitems. apply Extends_refl.
  - unfold bulk, handleBulkAdd. rewrite Hkey. apply Extends_refl.
Qed.

(** No operation changes the creation time of an entry it keeps. *)
Lemma dispatch_keeps now request w :
  KeepsAddedAt (getStore w)
    (getStore (fst (dispatch getStore setStore getStatistics setStatistics
                      save unsaved env now request w))).
Proof.
  destruct request; simpl.
  - apply check_keeps.
  - apply Extends_keeps, add_extends.
  - apply update_keeps.
  - apply remove_keeps.
  - fold (list now body w). rewrite list_keeps_store. apply KeepsAddedAt_refl.
  - apply Extends_keeps, bulk_extends.
  - apply KeepsAddedAt_refl.
Qed.

End FrameFacts.

(** ** [MACDatabase]: what remove and update do to the stored entries *)

Module DatabaseFrame.
Import Database.

Lemma stored_record c w : stored (record c w) = stored w.
Proof. reflexivity. Qed.

Lemma stored_after_read now w : stored (fst (readDatabase now w)) = stored w.
Proof. rewrite DatabaseFacts.readDatabase_world. reflexivity. Qed.

Lemma macFile_after_read now w : macFile (fst (readDatabase now w)) = macFile w.
Proof. rewrite DatabaseFacts.readDatabase_world. reflexivity. Qed.

Lemma writable_after_read now w :
  macFile_writable (fst (readDatabase now w)) = macFile_writable w.
Proof. rewrite DatabaseFacts.readDatabase_world. reflexivity. Qed.

Lemma journal_after_read now w :
  exists ok, journal (fst (readDatabase now w)) = (journal w ++ [ReadDatabase ok])%list.
Proof. rewrite DatabaseFacts.readDatabase_world. eexists. reflexivity. Qed.

(** A write that succeeds stores the entries it was given. *)
Lemma stored_after_write now data w :
  stored (fst (writeDatabase now data w)) =
  if macFile_writable w then macAddresses data else stored w.
Proof.
  unfold writeDatabase. destruct (macFile_writable w); reflexivity.
Qed.

Lemma write_result now data w :
  snd (writeDatabase now data w) = macFile_writable w.
Proof.
  unfold writeDatabase. destruct (macFile_writable w); reflexivity.
Qed.

Lemma database_remove_absent now macAddress w :
  JsMap.has (Js.toLowerCase macAddress) (stored w) = false ->
  removeMACAddress now macAddress w =
  (fst (readDatabase now w),
   outcome false "MAC address not found in whitelist").
Proof.
  intros H. apply JsMapFacts.has_false_get in H.
  rewrite <- (DatabaseFacts.readDatabase_entries now w) in H.
  unfold removeMACAddress.
  destruct (readDatabase now w) as [w1 data]. simpl in *.
  now rewrite H.
Qed.

Lemma database_update_found now macAddress tier w e :
  JsMap.get (Js.toLowerCase macAddress) (stored w) = Some e ->
  let r := updateMACAccess now macAddress tier w in
  success (snd r) = macFile_writable w /\
  (success (snd r) = true -> entry (snd r) = Some (retier now tier e)) /\
  stored (fst r) =
    if macFile_writable w
    then JsMap.set (Js.toLowerCase macAddress) (retier now tier e) (stored w)
    else stored w.
Proof.
  intros G.
  pose proof (DatabaseFacts.readDatabase_entries now w) as Hd.
  pose proof (stored_after_read now w) as Hs.
  pose proof (writable_after_read now w) as Hw.
  unfold updateMACAccess.
  destruct (readDatabase now w) as [w1 data]. simpl in Hd, Hs, Hw.
  rewrite Hd, G.
  set (data1 := withMacAddresses _ data).
  pose proof (stored_after_write now data1 w1) as Hsw.
  pose proof (write_result now data1 w1) as Hr.
  destruct (writeDatabase now data1 w1) as [w2 ok]. simpl in Hsw, Hr.
  rewrite Hw in Hsw, Hr. subst ok.
  destruct (macFile_writable w); simpl.
  - repeat split. exact Hsw.
  - repeat split; [discriminate | congruence].
Qed.

End DatabaseFrame.

(** C7.  Removing an address that is not in the store fails with a
    not-found outcome and leaves the store as it was, its size included:
    the handler of api/mac-auth.js answers 404 and changes nothing at
    all, and [MACDatabase.removeMACAddress] reports the failure and does
    not touch the database file. *)
Theorem remove_absent_address :
  (forall (env : option string) (now : Z) (req : RemoveRequest)
          (w : Basic.World) (macAddress : string),
      validateAdminKey env (rem_adminKey req) = true ->
      rem_macAddress req = Some macAddress ->
      macAddress <> "" ->
      JsMap.has (Js.toLowerCase macAddress) (Basic.getStore w) = false ->
      let r := Basic.handleRemoveMAC env now req w in
      status (snd r) = 404 /\ success (snd r) = false /\
      message (snd r) = "MAC address not found in whitelist" /\
      Basic.getStore (fst r) = Basic.getStore w /\
      JsMap.size (Basic.getStore (fst r)) = JsMap.size (Basic.getStore w) /\
      fst r = w)
  /\
  (forall (now : Z) (macAddress : string) (w : Database.World),
      Database.validateMACAddress macAddress = true ->
      JsMap.has (Js.toLowerCase macAddress) (Database.stored w) = false ->
      let r := Database.removeMACAddress now macAddress w in
      Database.success (snd r) = false /\
      Database.message (snd r) = "MAC address not found in whitelist" /\
      Database.macFile (fst r) = Database.macFile w /\
      Database.stored (fst r) = Database.stored w /\
      JsMap.size (Database.stored (fst r)) = JsMap.size (Database.stored w)).
Proof.
  split.
  - intros env now req w macAddress Hkey Hmac Hne Habs r. subst r.
    unfold Basic.handleRemoveMAC.
    rewrite (remove_absent _ Basic.getStore Basic.setStore
               Basic.saveMACWhitelist env now req w macAddress
               Hkey Hmac Hne Habs).
    now repeat split.
  - intros now macAddress w _ Habs r. subst r.
    rewrite (DatabaseFrame.database_remove_absent now macAddress w Habs). simpl.
    rewrite DatabaseFrame.macFile_after_read, DatabaseFrame.stored_after_read.
    now repeat split.
Qed.

Lemma remove_absent_address_witness :
  status (snd (Basic.handleRemoveMAC None 3000
                 {| rem_macAddress := Some Samples.other;
                    rem_adminKey := Samples.key |}
                 Samples.basicWorld)) = 404
  /\ JsMap.size
       (Basic.getStore
          (fst (Basic.handleRemoveMAC None 3000
                  {| rem_macAddress := Some Samples.other;
                     rem_adminKey := Samples.key |}
                  Samples.basicWorld))) = 1.
Proof.
  destruct remove_absent_address as [HA _].
  destruct (HA None 3000 {| rem_macAddress := Some Samples.other;
                            rem_adminKey := Samples.key |}
              Samples.basicWorld Samples.other
              eq_refl eq_refl ltac:(discriminate) eq_refl)
    as (Hs & _ & _ & _ & Hsize & _).
  split; [exact Hs|]. rewrite Hsize. reflexivity.
Defined.



(** C8.  An update-tier operation on an existing entry with one of the
    three tiers changes the entry's [accessType] and [updatedAt] and
    nothing else: its address, description, [addedAt], [lastSeen],
    [accessCount] and [lastDevice] are what they were, and so is every
    other entry (the keys and their order too).  This holds of the handler
    of api/mac-auth.js and of [MACDatabase.updateMACAccess], whose change
    reaches the database file exactly when the file can be written.
    Moreover no operation of the handler's switch changes the [addedAt]
    of an entry that it leaves in the store. *)
Theorem update_tier_frame :
  (forall (env : option string) (now : Z) (req : UpdateRequest)
          (w : Basic.World) (macAddress tier : string) (e : Entry),
      validateAdminKey env (upd_adminKey req) = true ->
      upd_macAddress req = Some macAddress ->
      macAddress <> "" ->
      upd_accessType req = Some tier ->
      In tier ["trial"; "unlimited"; "admin"] ->
      JsMap.get (Js.toLowerCase macAddress) (Basic.getStore w) = Some e ->
      let r := Basic.handleUpdateAccess env now req w in
      let store' := Basic.getStore (fst r) in
      status (snd r) = 200 /\
      (exists e',
          JsMap.get (Js.toLowerCase macAddress) store' = Some e' /\
          accessType e' = Some tier /\ updatedAt e' = Some now /\
          sameBesidesTier e e') /\
      (forall k, k <> Js.toLowerCase macAddress ->
                 JsMap.get k store' = JsMap.get k (Basic.getStore w)) /\
      JsMap.keys store' = JsMap.keys (Basic.getStore w))
  /\
  (forall (env : option string) (now : Z) (request : Request)
          (w : Basic.World) (k : string) (e e' : Entry),
      JsMap.get k (Basic.getStore w) = Some e ->
      JsMap.get k (Basic.getStore (fst (Basic.dispatch env now request w)))
        = Some e' ->
      addedAt e' = addedAt e)
  /\
  (forall (now : Z) (macAddress tier : string) (w : Database.World)
          (e : Database.Entry),
      Database.validateMACAddress macAddress = true ->
      In tier ["trial"; "unlimited"; "admin"] ->
      JsMap.get (Js.toLowerCase macAddress) (Database.stored w) = Some e ->
      let r := Database.updateMACAccess now macAddress tier w in
      let stored' := Database.stored (fst r) in
      Database.success (snd r) = Database.macFile_writable w /\
      (exists e',
          JsMap.get (Js.toLowerCase macAddress) stored' = Some e' /\
          (Database.success (snd r) = true ->
           Database.accessType e' = Some tier /\
           Database.updatedAt e' = Some now) /\
          (Database.success (snd r) = false -> e' = e) /\
          Database_sameBesidesTier e e') /\
      (forall k, k <> Js.toLowerCase macAddress ->
                 JsMap.get k stored' = JsMap.get k (Database.stored w)) /\
      JsMap.keys stored' = JsMap.keys (Database.stored w)).
Proof.
  split; [|split].
  - intros env now req w macAddress tier e Hkey Hmac Hne Htier Hin G r store'.
    destruct (update_found _ Basic.getStore Basic.setStore Basic.saveMACWhitelist
                env BasicFacts.basic_get_set BasicFacts.basic_save_keeps_store
                now req w macAddress tier e Hkey Hmac Hne Htier Hin G)
      as (Hs & _ & Hstore).
    fold (Basic.handleUpdateAccess env now req w) in Hs, Hstore.
    subst store' r. rewrite Hstore. split; [exact Hs|]. split; [|split].
    + exists (retier now tier e). rewrite JsMapFacts.get_set_same.
      unfold sameBesidesTier. now repeat split.
    + intros k Hk. now apply JsMapFacts.get_set_other.
    + apply JsMapFacts.keys_set_present. unfold JsMap.has. now rewrite G.
  - intros env now request w.
    apply (dispatch_keeps _ Basic.getStore Basic.setStore Basic.getStatistics
             Basic.setStatistics Basic.saveMACWhitelist None env
             BasicFacts.basic_get_set BasicFacts.basic_save_keeps_store
             (fun _ _ => eq_refl)).
  - intros now macAddress tier w e _ _ G r stored'.
    destruct (DatabaseFrame.database_update_found now macAddress tier w e G)
      as (Hs & _ & Hstored).
    fold r in Hs, Hstored. fold stored' in Hstored.
    split; [exact Hs|]. rewrite Hs, Hstored.
    destruct (Database.macFile_writable w).
    + split; [|split].
      * exists (Database.retier now tier e). rewrite JsMapFacts.get_set_same.
        unfold Database_sameBesidesTier. repeat split; try discriminate.
      * intros k Hk. now apply JsMapFacts.get_set_other.
      * apply JsMapFacts.keys_set_present. unfold JsMap.has. now rewrite G.
    + split; [|split]; try reflexivity.
      exists e. unfold Database_sameBesidesTier.
      repeat split; try discriminate. exact G.
Qed.

Lemma update_tier_frame_witness :
  exists e',
    JsMap.get Samples.mac
      (Basic.getStore
         (fst (Basic.handleUpdateAccess None 7000
                 {| upd_macAddress := Some Samples.MAC;
                    upd_accessType := Some "admin";
                    upd_adminKey := Samples.key |}
                 Samples.basicWorld))) = Some e'
    /\ accessType e' = Some "admin"
    /\ updatedAt e' = Some 7000
    /\ sameBesidesTier Samples.laptop e'.
Proof.
  destruct update_tier_frame as [HA _].
  refine (proj1 (proj2 (HA None 7000
                          {| upd_macAddress := Some Samples.MAC;
                             upd_accessType := Some "admin";
                             upd_adminKey := Samples.key |}
                          Samples.basicWorld Samples.MAC "admin" Samples.laptop
                          eq_refl eq_refl _ eq_refl _ eq_refl))).
  - discriminate.
  - simpl. tauto.
Defined.

(** ** Durability Manager: the persist procedures *)

Lemma existsb_pointwise (A : Type) (f g : A -> bool) (l : list A) :
  (forall x, f x = g x) -> existsb f l = existsb g l.
Proof.
  intros H. induction l as [|x r IH]; simpl; [reflexivity|].
  now rewrite H, IH.
Qed.

Module PersistFacts.

(** *** saveMACWhitelist *)

Import Basic.

(** The calls saveMACWhitelist makes, whatever their outcome. *)
Lemma basic_journal now w :
  journal (disk (fst (saveMACWhitelist now w))) =
  (journal (disk w) ++
   [Mkdir (can_mkdir (disk w));
    WriteFile DATA_FILE (serialize (snapshot now w)) (writable (disk w) DATA_FILE);
    WriteFile BACKUP_FILE (serialize (snapshot now w))
      (writable (disk w) BACKUP_FILE)])%list.
Proof.
  rewrite BasicFacts.basic_save_world.
  unfold ensureDataDirectory, writeFile, mkdir, record. simpl.
  destruct (writable (disk w) DATA_FILE); simpl;
    destruct (writable (disk w) BACKUP_FILE); simpl;
    rewrite <- !app_assoc; reflexivity.
Qed.

(** A location holds the snapshot afterwards exactly when it accepted
    the write. *)
Lemma basic_content now w l :
  content (disk (fst (saveMACWhitelist now w))) l =
  if writable (disk w) l then Some (serialize (snapshot now w))
  else content (disk w) l.
Proof.
  rewrite BasicFacts.basic_save_world.
  unfold ensureDataDirectory, writeFile, mkdir, record. simpl.
  destruct (writable (disk w) DATA_FILE) eqn:E1; simpl;
    destruct (writable (disk w) BACKUP_FILE) eqn:E2; simpl;
    destruct l; simpl; rewrite ?E1, ?E2; reflexivity.
Qed.

End PersistFacts.

Module EnhancedPersistFacts.
Import Enhanced EnhancedPersist.



Lemma saveTarget_flags jsonData target d :
  writable (fst (saveTarget jsonData target d)) = writable d /\
  can_mkdir (fst (saveTarget jsonData target d)) = can_mkdir d.
Proof.
  unfold saveTarget, mkdir, writeFile, record.
  destruct (name target =? "Primary")%string; simpl.
  - destruct (can_mkdir d); simpl; [|now split].
    destruct (writable d target); now split.
  - destruct (writable d target); now split.
Qed.

Lemma saveTarget_result jsonData target d :
  snd (saveTarget jsonData target d) = accepts d target.
Proof.
  unfold saveTarget, accepts, mkdir, writeFile, record.
  destruct (name target =? "Primary")%string; simpl.
  - destruct (can_mkdir d); simpl; [|reflexivity].
    now destruct (writable d target).
  - now destruct (writable d target).
Qed.

Lemma saveTarget_journal jsonData target d :
  journal (fst (saveTarget jsonData target d)) =
  (journal d ++ attempt d jsonData target)%list.
Proof.
  unfold saveTarget, attempt, mkdir, writeFile, record.
  destruct (name target =? "Primary")%string; simpl.
  - destruct (can_mkdir d); simpl; [|reflexivity].
    destruct (writable d target); simpl; now rewrite <- app_assoc.
  - now destruct (writable d target).
Qed.

Lemma saveTarget_content jsonData target d l :
  content (fst (saveTarget jsonData target d)) l =
  if Loc_eqb target l && accepts d target then Some jsonData else content d l.
Proof.
  unfold saveTarget, accepts, mkdir, writeFile, record.
  destruct (name target =? "Primary")%string; simpl.
  - destruct (can_mkdir d); simpl; [|now rewrite andb_false_r].
    destruct (writable d target); simpl;
      [now rewrite andb_true_r | now rewrite andb_false_r].
  - destruct (writable d target); simpl;
      [now rewrite andb_true_r | now rewrite andb_false_r].
Qed.

Lemma accepts_after jsonData target d t :
  accepts (fst (saveTarget jsonData target d)) t = accepts d t.
Proof.
  unfold accepts.
  destruct (saveTarget_flags jsonData target d) as [-> ->]. reflexivity.
Qed.

Lemma attempt_after jsonData target d data t :
  attempt (fst (saveTarget jsonData target d)) data t = attempt d data t.
Proof.
  unfold attempt.
  destruct (saveTarget_flags jsonData target d) as [-> ->]. reflexivity.
Qed.

(** One record per target, in order; the record of a target says whether
    that target accepted, whatever happened at the others. *)
Lemma saveTargets_results jsonData remaining d results :
  snd (saveTargets jsonData remaining d results) =
  (results ++
   map (fun t => {| sr_name := name t; sr_success := accepts d t |}) remaining)%list.
Proof.
  revert d results.
  induction remaining as [|t rest IH]; intros d results; simpl.
  - now rewrite app_nil_r.
  - pose proof (saveTarget_result jsonData t d) as Hr.
    destruct (saveTarget jsonData t d) as [d1 ok] eqn:S. simpl in Hr.
    rewrite IH, <- app_assoc. simpl. subst ok.
    do 2 f_equal. apply map_ext. intros t'.
    change d1 with (fst (d1, accepts d t)). rewrite <- S.
    now rewrite accepts_after.
Qed.

(** Every target is attempted, in order. *)
Lemma saveTargets_journal jsonData remaining d results :
  journal (fst (saveTargets jsonData remaining d results)) =
  (journal d ++ flat_map (attempt d jsonData) remaining)%list.
Proof.
  revert d results.
  induction remaining as [|t rest IH]; intros d results; simpl.
  - now rewrite app_nil_r.
  - pose proof (saveTarget_journal jsonData t d) as Hj.
    destruct (saveTarget jsonData t d) as [d1 ok] eqn:S. simpl in Hj.
    rewrite IH, Hj, <- app_assoc. do 2 f_equal.
    apply flat_map_ext. intros t'.
    change d1 with (fst (d1, ok)). rewrite <- S.
    apply attempt_after.
Qed.

(** A location holds the serialized snapshot afterwards when it is a
    target that accepted, and what it held before otherwise. *)
Lemma saveTargets_content jsonData remaining d results l :
  content (fst (saveTargets jsonData remaining d results)) l =
  if existsb (fun t => Loc_eqb t l && accepts d t) remaining
  then Some jsonData else content d l.
Proof.
  revert d results.
  induction remaining as [|t rest IH]; intros d results; simpl.
  - reflexivity.
  - pose proof (saveTarget_content jsonData t d l) as Hc.
    destruct (saveTarget jsonData t d) as [d1 ok] eqn:S. simpl in Hc.
    rewrite IH, Hc.
    assert (E : existsb (fun t0 => Loc_eqb t0 l && accepts d1 t0) rest =
                existsb (fun t0 => Loc_eqb t0 l && accepts d t0) rest).
    { apply existsb_pointwise. intros t'.
      change d1 with (fst (d1, ok)). rewrite <- S.
      now rewrite accepts_after. }
    rewrite E.
    destruct (Loc_eqb t l && accepts d t); simpl; [|reflexivity].
    clear E. now destruct (existsb _ rest).
Qed.

Lemma count_successes (d : Disk Loc) (l : list Loc) :
  (Z.of_nat
     (List.length
        (filter sr_success
           (map (fun t => {| sr_name := name t; sr_success := accepts d t |}) l)))
   >? 0) = existsb (accepts d) l.
Proof.
  induction l as [|t r IH]; simpl; [reflexivity|].
  destruct (accepts d t); simpl; [|exact IH].
  apply Z.gtb_lt. lia.
Qed.

(** saveToStorage: the records, the returned flag, and the world. *)
Lemma saveToStorage_spec now w :
  saveToStorage_results now w =
  (fst (saveToStorage now w),
   map (fun t => {| sr_name := name t; sr_success := accepts (disk w) t |}) targets,
   existsb (accepts (disk w)) targets)
  /\ snd (saveToStorage now w) = Some (existsb (accepts (disk w)) targets).
Proof.
  unfold saveToStorage, saveToStorage_results.
  pose proof (saveTargets_results (serialize (snapshot now w)) targets (disk w) [])
    as Hr.
  destruct (saveTargets _ targets (disk w) []) as [d results].
  cbn [snd app] in Hr. subst results. rewrite count_successes.
  cbn [fst snd]. now split.
Qed.

Lemma save_content now w l :
  content (disk (fst (saveToStorage now w))) l =
  if accepts (disk w) l then Some (serialize (snapshot now w))
  else content (disk w) l.
Proof.
  rewrite EnhancedFacts.save_disk, saveTargets_content.
  unfold targets. simpl existsb.
  destruct l; simpl;
    destruct (accepts (disk w) PRIMARY);
    destruct (accepts (disk w) BACKUP);
    destruct (accepts (disk w) FALLBACK); reflexivity.
Qed.

End EnhancedPersistFacts.

(** C4, as the code has it.  Every persist attempts every configured
    location, in order and with the same serialized snapshot, whatever
    happened at the others, and a location holds that snapshot afterwards
    exactly when it accepted the write.  saveToStorage (three locations;
    the attempt at the primary one begins with creating its directory, and
    a failure there is that location's failure) builds one success/failure
    record per location and returns [true] if and only if at least one
    location accepted.  saveMACWhitelist (two locations; a failure to
    create the directory is swallowed before the write) returns
    nothing. *)
Theorem persist_attempts_every_location :
  (forall (now : Z) (w : Enhanced.World),
      let jsonData := serialize (Enhanced.snapshot now w) in
      let d := Enhanced.disk w in
      let r := Enhanced.saveToStorage_results now w in
      let w' := fst (fst r) in
      let results := snd (fst r) in
      let ok := snd r in
      journal (Enhanced.disk w') =
        (journal d ++
         flat_map (EnhancedPersist.attempt d jsonData) Enhanced.targets)%list /\
      results =
        map (fun t => {| Enhanced.sr_name := Enhanced.name t;
                         Enhanced.sr_success := EnhancedPersist.accepts d t |})
          Enhanced.targets /\
      (ok = true <->
       exists t, In t Enhanced.targets /\ EnhancedPersist.accepts d t = true) /\
      Enhanced.saveToStorage now w = (w', Some ok) /\
      (forall l, content (Enhanced.disk w') l =
                 if EnhancedPersist.accepts d l then Some jsonData
                 else content d l))
  /\
  (forall (now : Z) (w : Basic.World),
      let jsonData := serialize (Basic.snapshot now w) in
      let d := Basic.disk w in
      let r := Basic.saveMACWhitelist now w in
      journal (Basic.disk (fst r)) =
        (journal d ++
         [Mkdir (can_mkdir d);
          WriteFile Basic.DATA_FILE jsonData (writable d Basic.DATA_FILE);
          WriteFile Basic.BACKUP_FILE jsonData (writable d Basic.BACKUP_FILE)])%list /\
      (forall l, content (Basic.disk (fst r)) l =
                 if writable d l then Some jsonData else content d l) /\
      snd r = None).
Proof.
  split.
  - intros now w jsonData d r w' results ok.
    destruct (EnhancedPersistFacts.saveToStorage_spec now w) as [Hr Hs].
    fold r in Hr.
    assert (Hw' : w' = fst (Enhanced.saveToStorage now w))
      by (subst w'; now rewrite Hr).
    assert (Hres : results =
                   map (fun t => {| Enhanced.sr_name := Enhanced.name t;
                                    Enhanced.sr_success :=
                                      EnhancedPersist.accepts d t |})
                     Enhanced.targets)
      by (subst results; now rewrite Hr).
    assert (Hok : ok = existsb (EnhancedPersist.accepts d) Enhanced.targets)
      by (subst ok; now rewrite Hr).
    split; [|split; [exact Hres|split; [|split]]].
    + rewrite Hw', EnhancedFacts.save_disk.
      apply EnhancedPersistFacts.saveTargets_journal.
    + rewrite Hok, existsb_exists. reflexivity.
    + rewrite Hw', Hok. unfold d. rewrite <- Hs.
      now destruct (Enhanced.saveToStorage now w).
    + intros l. rewrite Hw'. apply EnhancedPersistFacts.save_content.
  - intros now w jsonData d r. split; [|split].
    + apply PersistFacts.basic_journal.
    + intros l. apply PersistFacts.basic_content.
    + apply BasicFacts.save_returns_nothing.
Qed.


Lemma persist_attempts_every_location_witness :
  let w := Enhanced.setDisk readOnlyPrimary Samples.enhancedWorld in
  snd (Enhanced.saveToStorage 1000 w) = Some true
  /\ content (Enhanced.disk (fst (Enhanced.saveToStorage 1000 w))) Enhanced.BACKUP
     = Some (serialize (Enhanced.snapshot 1000 w))
  /\ content (Enhanced.disk (fst (Enhanced.saveToStorage 1000 w))) Enhanced.PRIMARY
     = None.
Proof.
  intros w.
  destruct persist_attempts_every_location as [HB _].
  destruct (HB 1000 w) as (_ & _ & Hok & Hsave & Hcontent).
  rewrite Hsave. cbn [fst snd]. split; [|split].
  - apply (f_equal Some). apply Hok.
    exists Enhanced.BACKUP. split; [|reflexivity].
    right. now left.
  - rewrite Hcontent. reflexivity.
  - rewrite Hcontent. reflexivity.
Defined.


(** C4 as stated fails in two places.  In saveMACWhitelist both locations
    accept the write, and the procedure reports no success.  In
    saveToStorage, when the directory of the primary location cannot be
    created, no write is attempted at that location, although the file
    itself could be written. *)
Lemma persist_not_as_specified :
  (let r := Basic.saveMACWhitelist 1000 Samples.basicWorld in
   content (Basic.disk (fst r)) Basic.DATA_FILE
     = Some (serialize (Basic.snapshot 1000 Samples.basicWorld))
   /\ content (Basic.disk (fst r)) Basic.BACKUP_FILE
      = Some (serialize (Basic.snapshot 1000 Samples.basicWorld))
   /\ snd r <> Some true)
  /\
  (let w := Enhanced.setDisk noDataDirectory Samples.enhancedWorld in
   let jsonData := serialize (Enhanced.snapshot 1000 w) in
   writable (Enhanced.disk w) Enhanced.PRIMARY = true
   /\ journal (Enhanced.disk (fst (Enhanced.saveToStorage 1000 w)))
      = [Mkdir false;
         WriteFile Enhanced.BACKUP jsonData true;
         WriteFile Enhanced.FALLBACK jsonData true]).
Proof.
  cbv zeta. split.
  - repeat split; try reflexivity. discriminate.
  - split; reflexivity.
Qed.

(** ** Statistics Aggregator *)








Lemma statistics_eq (a b : Statistics) :
  total a = total b -> activeLast24h a = activeLast24h b ->
  activeLast7d a = activeLast7d b -> neverUsed a = neverUsed b ->
  totalAccesses a = totalAccesses b -> a = b.
Proof. destruct a, b; simpl; intros; subst; reflexivity. Qed.

Lemma countWhere_cons p e l :
  countWhere p (e :: l) = (if p e then 1 else 0) + countWhere p l.
Proof.
  unfold countWhere. simpl. destruct (p e); simpl List.length; lia.
Qed.

(** The loop of updateStatistics adds, to each counter, the number of
    entries it counts. *)
Lemma fold_countEntry oneDayAgo oneWeekAgo l st :
  fold_left (countEntry oneDayAgo oneWeekAgo) l st =
  {| total := total st;
     activeLast24h := activeLast24h st + countWhere (activeSince oneDayAgo) l;
     activeLast7d := activeLast7d st + countWhere (activeSince oneWeekAgo) l;
     neverUsed := neverUsed st + countWhere neverSeen l;
     totalAccesses := totalAccesses st + sumAccessCounts l |}.
Proof.
  revert st. induction l as [|e r IH]; intros st.
  - apply statistics_eq; unfold countWhere; simpl; lia.
  - simpl fold_left. rewrite IH. rewrite !countWhere_cons.
    unfold countEntry, activeSince, neverSeen, seenAt.
    set (seen := match lastSeen e with Some t => t | None => 0 end).
    cbn [sumAccessCounts fold_right]. fold (sumAccessCounts r).
    destruct (seen =? 0); destruct (seen >? oneDayAgo);
      destruct (seen >? oneWeekAgo);
      apply statistics_eq;
      cbn [negb andb total activeLast24h activeLast7d neverUsed totalAccesses];
      lia.
Qed.

Lemma updateStatistics_derived now store :
  updateStatistics now store = derivedStatistics now (JsMap.values store).
Proof.
  unfold updateStatistics. rewrite fold_countEntry.
  apply statistics_eq; simpl; try reflexivity.
  unfold JsMap.size, JsMap.values. now rewrite length_map.
Qed.

(** C3 as stated fails in both Map-backed variants.  On a fresh store,
    add-mac persists a snapshot with one entry whose statistics block
    still counts none. *)
Lemma persisted_statistics_are_stale :
  let wA := fst (Basic.handleAddMAC None 1000 (Samples.addLaptop None)
                   Basic.initial) in
  let wB := fst (Enhanced.handleAddMAC None 1000 (Samples.addLaptop None)
                   Enhanced.initial) in
  (exists snap,
      content (Basic.disk wA) Basic.DATA_FILE = Some (serialize snap) /\
      List.length (snap_macAddresses snap) = 1%nat /\
      total (snap_statistics snap) = 0 /\
      ~ SelfConsistent 1000 snap)
  /\
  (exists snap,
      content (Enhanced.disk wB) Enhanced.PRIMARY = Some (serialize snap) /\
      List.length (snap_macAddresses snap) = 1%nat /\
      total (snap_statistics snap) = 0 /\
      ~ SelfConsistent 1000 snap).
Proof.
  cbv zeta. split.
  - eexists. split; [reflexivity|]. repeat split. discriminate.
  - eexists. split; [reflexivity|]. repeat split. discriminate.
Qed.


Lemma list_recomputes (World : Type) (getStore : World -> Store)
    (getStatistics : World -> Statistics)
    (setStatistics : Statistics -> World -> World) (env : option string) :
  (forall st w, getStore (setStatistics st w) = getStore w) ->
  (forall st w, getStatistics (setStatistics st w) = st) ->
  forall now req w,
    validateAdminKey env (list_adminKey req) = true ->
    let r := handleListMACs getStore getStatistics setStatistics env now req w in
    getStatistics (fst r) = derivedStatistics now (JsMap.values (getStore w)) /\
    getStore (fst r) = getStore w /\
    data (snd r) =
    ListData (sortByAddedAt (JsMap.values (getStore w)))
      (derivedStatistics now (JsMap.values (getStore w))).
Proof.
  intros Hstore Hstats now req w Hkey r. subst r.
  unfold handleListMACs. rewrite Hkey. simpl.
  now rewrite Hstore, Hstats, updateStatistics_derived.
Qed.

(** C3, as the code has it.  In both Map-backed variants the persist
    procedure does not recompute the statistics: the snapshot it writes to
    every location that accepts the write holds the current entries and
    the in-memory statistics block as it stands.  That block (total,
    activeLast24h, activeLast7d, neverUsed, totalAccesses) is recomputed
    from the current entries by updateStatistics, which runs before every
    listing response; a persisted snapshot is self-consistent exactly when
    the in-memory block is up to date, for instance right after a
    listing. *)
Theorem snapshot_statistics_are_the_in_memory_block :
  (forall env : option string,
      StatisticsDiscipline Basic.World Basic.getStore Basic.getStatistics
        Basic.snapshot Basic.saveMACWhitelist (validateAdminKey env)
        (Basic.handleListMACs env))
  /\
  (forall env : option string,
      StatisticsDiscipline Enhanced.World Enhanced.getStore
        Enhanced.getStatistics Enhanced.snapshot Enhanced.saveToStorage
        (validateAdminKey env) (Enhanced.handleListMACs env))
  /\
  (forall (now : Z) (w : Basic.World) (l : Basic.Loc),
      writable (Basic.disk w) l = true ->
      content (Basic.disk (fst (Basic.saveMACWhitelist now w))) l =
      Some (serialize (Basic.snapshot now w)))
  /\
  (forall (now : Z) (w : Enhanced.World) (l : Enhanced.Loc),
      EnhancedPersist.accepts (Enhanced.disk w) l = true ->
      content (Enhanced.disk (fst (Enhanced.saveToStorage now w))) l =
      Some (serialize (Enhanced.snapshot now w)))
  /\
  (forall (now : Z) (store : Store),
      updateStatistics now store = derivedStatistics now (JsMap.values store)).
Proof.
  split; [|split; [|split; [|split]]].
  - intros env. split; [|split].
    + intros now w. repeat split.
      * apply BasicFacts.basic_save_keeps_statistics.
      * apply BasicFacts.basic_save_keeps_store.
    + intros now req w Hkey r.
      destruct (list_recomputes Basic.World Basic.getStore Basic.getStatistics
                  Basic.setStatistics env (fun _ _ => eq_refl)
                  (fun _ _ => eq_refl) now req w Hkey) as (H1 & H2 & H3).
      fold (Basic.handleListMACs env now req w) in H1, H2, H3. fold r in H1, H2, H3.
      split; [exact H1|]. split; [exact H2|]. split; [eexists; exact H3|].
      unfold SelfConsistent. simpl.
      change (Basic.statistics (fst r)) with (Basic.getStatistics (fst r)).
      change (Basic.macWhitelist (fst r)) with (Basic.getStore (fst r)).
      now rewrite H1, H2.
    + intros now w. unfold SelfConsistent. simpl. reflexivity.
  - intros env. split; [|split].
    + intros now w. repeat split.
      * apply EnhancedFacts.enhanced_save_keeps_statistics.
      * apply EnhancedFacts.enhanced_save_keeps_store.
    + intros now req w Hkey r.
      destruct (list_recomputes Enhanced.World Enhanced.getStore
                  Enhanced.getStatistics Enhanced.setStatistics env
                  (fun _ _ => eq_refl) (fun _ _ => eq_refl) now req w Hkey)
        as (H1 & H2 & H3).
      fold (Enhanced.handleListMACs env now req w) in H1, H2, H3.
      fold r in H1, H2, H3.
      split; [exact H1|]. split; [exact H2|]. split; [eexists; exact H3|].
      unfold SelfConsistent. simpl.
      change (Enhanced.statistics (fst r)) with (Enhanced.getStatistics (fst r)).
      change (Enhanced.macAddresses (fst r)) with (Enhanced.getStore (fst r)).
      now rewrite H1, H2.
    + intros now w. unfold SelfConsistent. simpl. reflexivity.
  - intros now w l Hl. rewrite PersistFacts.basic_content. now rewrite Hl.
  - intros now w l Hl. rewrite EnhancedPersistFacts.save_content. now rewrite Hl.
  - apply updateStatistics_derived.
Qed.

Lemma snapshot_statistics_are_the_in_memory_block_witness :
  SelfConsistent 5000
    (Basic.snapshot 5000
       (fst (Basic.handleListMACs None 5000
               {| list_adminKey := Samples.key |} Samples.basicWorld)))
  /\ content (Basic.disk (fst (Basic.saveMACWhitelist 1000 Samples.basicWorld)))
       Basic.DATA_FILE
     = Some (serialize (Basic.snapshot 1000 Samples.basicWorld)).
Proof.
  destruct snapshot_statistics_are_the_in_memory_block as (HA & _ & HW & _).
  split.
  - destruct (HA None) as (_ & HL & _).
    exact (proj2 (proj2 (proj2
             (HL 5000 {| list_adminKey := Samples.key |} Samples.basicWorld
                 eq_refl)))).
  - apply HW. reflexivity.
Defined.

(** ** Durability Manager: the load procedures *)



Lemma fold_set_fresh (entries : list Entry) (m : Store) :
  NoDup (JsMap.keys m ++ map macAddress entries) ->
  fold_left (fun m entry => JsMap.set (macAddress entry) entry m) entries m =
  (m ++ map (fun e => (macAddress e, e)) entries)%list.
Proof.
  revert m. induction entries as [|e r IH]; intros m Hnd; simpl.
  - now rewrite app_nil_r.
  - assert (Hfresh : JsMap.get (macAddress e) m = None).
    { apply JsMapFacts.get_None_keys. intros Hin.
      apply NoDup_remove_2 in Hnd. apply Hnd.
      apply in_or_app. now left. }
    rewrite JsMapFacts.set_absent by assumption.
    rewrite IH.
    + now rewrite <- app_assoc.
    + unfold JsMap.keys in *. rewrite map_app. simpl.
      rewrite <- app_assoc. simpl.
      apply NoDup_remove_1 in Hnd as Hnd1.
      (* move the key of [e] from the middle to where it is consed *)
      apply NoDup_remove_2 in Hnd as Hnd2.
      clear - Hnd1 Hnd2.
      induction (map fst m) as [|k ks IHk]; simpl in *.
      * now constructor.
      * inversion Hnd1 as [|? ? Hk Hrest]; subst.
        constructor.
        -- intros Hin. apply in_app_or in Hin.
           destruct Hin as [Hin|[<-|Hin]].
           ++ apply Hk, in_or_app. now left.
           ++ apply Hnd2. now left.
           ++ apply Hk, in_or_app. now right.
        -- apply IHk; [assumption|]. intros Hin. apply Hnd2. now right.
Qed.

(** Populating from entries with distinct addresses keeps them all, in
    order. *)
Lemma populate_values entries :
  NoDup (map macAddress entries) ->
  JsMap.values (Enhanced.populate entries) = entries.
Proof.
  intros Hnd. unfold Enhanced.populate, JsMap.clear.
  rewrite fold_set_fresh by exact Hnd. simpl.
  unfold JsMap.values. rewrite map_map. simpl. apply map_id.
Qed.

Module LoadFacts.
Import Enhanced.


(** A source without a structurally valid snapshot is passed over. *)
Lemma loadFrom_skip now l rest w :
  validEntries (content (disk w) l) = None ->
  loadFrom now (l :: rest) w = loadFrom now rest (afterRead l w).
Proof.
  intros Hl. cbn [loadFrom]. unfold readFile, afterRead, readable.
  destruct (content (disk w) l) as [[|[|parsed]]|]; simpl in Hl;
    try reflexivity.
  now rewrite Hl.
Qed.

(** A source with one ends the loop. *)
Lemma loadFrom_hit now l rest w entries :
  validEntries (content (disk w) l) = Some entries ->
  macAddresses (loadFrom now (l :: rest) w) = populate entries /\
  lastLoaded (loadFrom now (l :: rest) w) = Some now /\
  disk (loadFrom now (l :: rest) w) = disk (afterRead l w).
Proof.
  intros Hl. cbn [loadFrom]. unfold readFile, afterRead, readable.
  destruct (content (disk w) l) as [[|[|parsed]]|]; simpl in Hl;
    try discriminate.
  rewrite Hl. destruct (doc_statistics parsed); now repeat split.
Qed.

Lemma loadFrom_none now remaining w :
  (forall x, In x remaining -> validEntries (content (disk w) x) = None) ->
  macAddresses (loadFrom now remaining w) = JsMap.clear /\
  statistics (loadFrom now remaining w) = statistics w /\
  journal (disk (loadFrom now remaining w)) =
  (journal (disk w) ++
   map (fun x => ReadFile x (readable (content (disk w) x))) remaining)%list.
Proof.
  revert w. induction remaining as [|l rest IH]; intros w Hnone.
  - simpl. repeat split. now rewrite app_nil_r.
  - rewrite loadFrom_skip by (apply Hnone; now left).
    destruct (IH (afterRead l w)) as (H1 & H2 & H3).
    { intros x Hx. apply Hnone. now right. }
    rewrite H1, H2, H3. repeat split.
    simpl. now rewrite <- app_assoc.
Qed.

(** The first source with a structurally valid snapshot wins, and no
    later source is read. *)
Lemma loadFrom_first_valid now pre l post entries w :
  (forall x, In x pre -> validEntries (content (disk w) x) = None) ->
  validEntries (content (disk w) l) = Some entries ->
  let w' := loadFrom now (pre ++ l :: post) w in
  macAddresses w' = populate entries /\
  lastLoaded w' = Some now /\
  journal (disk w') =
  (journal (disk w) ++
   map (fun x => ReadFile x (readable (content (disk w) x))) (pre ++ [l]))%list.
Proof.
  revert w. induction pre as [|p rest IH]; intros w Hpre Hl.
  - cbn [app]. cbv zeta.
    destruct (loadFrom_hit now l post w entries Hl) as (H1 & H2 & H3).
    rewrite H1, H2, H3. now repeat split.
  - rewrite <- app_comm_cons. cbv zeta.
    rewrite loadFrom_skip by (apply Hpre; now left).
    destruct (IH (afterRead p w)) as (H1 & H2 & H3).
    { intros x Hx. apply Hpre. now right. }
    { exact Hl. }
    rewrite H1, H2, H3. repeat split.
    simpl. now rewrite <- app_assoc.
Qed.

End LoadFacts.

(** loadFromStorage does what the load procedure is specified to do: the
    store holds the entries of the first source, in order, that has a
    structurally valid snapshot, and later sources are not even read; with
    no such source the store is empty.  The function is total: there is no
    outcome in which it raises. *)
Lemma enhanced_load_first_valid_location (now : Z) (w : Enhanced.World) :
  (forall pre l post entries,
      Enhanced.sources = (pre ++ l :: post)%list ->
      (forall x, In x pre ->
                 validEntries (content (Enhanced.disk w) x) = None) ->
      validEntries (content (Enhanced.disk w) l) = Some entries ->
      let w' := Enhanced.loadFromStorage now w in
      Enhanced.macAddresses w' = Enhanced.populate entries /\
      (NoDup (map macAddress entries) ->
       JsMap.values (Enhanced.macAddresses w') = entries) /\
      journal (Enhanced.disk w') =
      (journal (Enhanced.disk w) ++
       map (fun x => ReadFile x (readable (content (Enhanced.disk w) x)))
         (pre ++ [l]))%list)
  /\
  ((forall l, validEntries (content (Enhanced.disk w) l) = None) ->
   Enhanced.macAddresses (Enhanced.loadFromStorage now w) = JsMap.clear).
Proof.
  split.
  - intros pre l post entries Hsrc Hpre Hl w'.
    subst w'. unfold Enhanced.loadFromStorage. rewrite Hsrc.
    destruct (LoadFacts.loadFrom_first_valid now pre l post entries w Hpre Hl)
      as (H1 & _ & H3).
    split; [exact H1|]. split; [|exact H3].
    intros Hnd. rewrite H1. now apply populate_values.
  - intros Hnone. unfold Enhanced.loadFromStorage.
    apply (LoadFacts.loadFrom_none now Enhanced.sources w).
    intros x _. apply Hnone.
Qed.


Lemma basic_adopt_store data w :
  Basic.macWhitelist (Basic.adopt data w) = entriesOf data.
Proof.
  unfold Basic.adopt, entriesOf.
  destruct data as [|d]; [reflexivity|].
  destruct (doc_macAddresses d); destruct (doc_statistics d); reflexivity.
Qed.

Lemma basic_load_store (w : Basic.World) :
  Basic.macWhitelist (Basic.loadMACWhitelist w) =
  match Basic.parseFile (content (Basic.disk w) Basic.DATA_FILE) with
  | Some p => entriesOf p
  | None =>
      match Basic.parseFile (content (Basic.disk w) Basic.BACKUP_FILE) with
      | Some p => entriesOf p
      | None => JsMap.clear
      end
  end.
Proof.
  unfold Basic.loadMACWhitelist, Basic.ensureDataDirectory, mkdir, readFile.
  cbn [fst snd record content].
  destruct (Basic.parseFile (content (Basic.disk w) Basic.DATA_FILE)) as [p|].
  - apply basic_adopt_store.
  - destruct (content (Basic.disk w) Basic.BACKUP_FILE) as [[|p]|];
      cbn [Basic.parseFile].
    + apply basic_adopt_store.
    + destruct (writeFile Basic.Loc_eqb Basic.DATA_FILE (Json p) _).
      apply basic_adopt_store.
    + apply basic_adopt_store.
Qed.





(** C5 fails in loadMACWhitelist.  The main data file parses but is not a
    snapshot, the backup file is a structurally valid snapshot with one
    entry: the first location that yields a valid snapshot is the backup,
    yet loadMACWhitelist never reads it and leaves the store empty.
    loadFromStorage, on the same contents, loads the entry. *)
Theorem basic_load_ignores_valid_backup :
  validEntries (content (Basic.disk shadowedBackup) Basic.DATA_FILE) = None
  /\ validEntries (content (Basic.disk shadowedBackup) Basic.BACKUP_FILE)
     = Some [Samples.laptop]
  /\ Basic.macWhitelist (Basic.loadMACWhitelist shadowedBackup) = JsMap.clear
  /\ journal (Basic.disk (Basic.loadMACWhitelist shadowedBackup))
     = [Mkdir true; ReadFile Basic.DATA_FILE true]
  /\ Enhanced.macAddresses (Enhanced.loadFromStorage 2000 shadowedBackupEnhanced)
     = [(Samples.mac, Samples.laptop)].
Proof. repeat split. Qed.

(** ** Bulk add *)







Lemma itemOutcome_ext (f g : string -> bool) item :
  (forall k, f k = g k) -> itemOutcome f item = itemOutcome g item.
Proof.
  intros H. unfold itemOutcome.
  destruct (item_macAddress item) as [m|]; [|reflexivity].
  now rewrite H.
Qed.

Section BulkLoop.
Variable now : Z.

Let storeHas (s : BulkState) (k : string) : bool := JsMap.has k (bulk_store s).

(** One iteration pushes the outcome of its item against the store as it
    then is; it adds an entry exactly when that outcome is a success. *)
Lemma bulkStep_outcome s item :
  bulk_results (bulkStep now s item) =
  (bulk_results s ++ [itemOutcome (storeHas s) item])%list
  /\ bulk_addedCount (bulkStep now s item) =
     bulk_addedCount s
     + (if br_success (itemOutcome (storeHas s) item) then 1 else 0)
  /\ JsMap.size (bulk_store (bulkStep now s item)) =
     JsMap.size (bulk_store s)
     + (if br_success (itemOutcome (storeHas s) item) then 1 else 0)
  /\ (br_success (itemOutcome (storeHas s) item) = false ->
      bulk_store (bulkStep now s item) = bulk_store s).
Proof.
  unfold bulkStep, itemOutcome, storeHas.
  destruct (item_macAddress item) as [m|]; cbn [Js.truthy Js.orElse negb].
  - destruct (m =? "")%string eqn:E; cbn [negb].
    + repeat split; simpl; lia.
    + destruct (JsMap.has (Js.toLowerCase m) (bulk_store s)) eqn:H.
      * repeat split; simpl; lia.
      * cbn [bulk_results bulk_addedCount bulk_store br_success].
        repeat split; try discriminate.
        now apply JsMapFacts.size_set_absent.
  - repeat split; simpl; lia.
Qed.

(** What one iteration does to the set of keys. *)
Lemma bulkStep_has s item k :
  JsMap.has k (bulk_store (bulkStep now s item)) =
  JsMap.has k (bulk_store s) || names item k.
Proof.
  unfold bulkStep, names.
  destruct (item_macAddress item) as [m|]; cbn [Js.truthy Js.orElse negb].
  - destruct (m =? "")%string eqn:E; cbn [negb andb].
    + now rewrite orb_false_r.
    + destruct (JsMap.has (Js.toLowerCase m) (bulk_store s)) eqn:H.
      * cbn [bulk_store].
        destruct (String.eqb_spec (Js.toLowerCase m) k) as [<-|Hne].
        -- now rewrite H.
        -- now rewrite orb_false_r.
      * cbn [bulk_store].
        destruct (String.eqb_spec (Js.toLowerCase m) k) as [<-|Hne].
        -- rewrite JsMapFacts.has_set_same. now rewrite orb_true_r.
        -- rewrite JsMapFacts.has_set_other by congruence.
           now rewrite orb_false_r.
  - now rewrite orb_false_r.
Qed.

Lemma bulkRun_has items s k :
  JsMap.has k (bulk_store (bulkRun now items s)) =
  JsMap.has k (bulk_store s) || existsb (fun item => names item k) items.
Proof.
  revert s. induction items as [|item rest IH]; intros s; simpl.
  - now rewrite orb_false_r.
  - fold (bulkRun now rest (bulkStep now s item)).
    now rewrite IH, bulkStep_has, orb_assoc.
Qed.

Lemma bulkRun_app pre post s :
  bulkRun now (pre ++ post) s = bulkRun now post (bulkRun now pre s).
Proof. apply fold_left_app. Qed.

(** The loop appends one record per item, counts the successes, and
    grows the store by as many entries. *)
Lemma bulkRun_results items s :
  exists records,
    bulk_results (bulkRun now items s) = (bulk_results s ++ records)%list /\
    List.length records = List.length items /\
    bulk_addedCount (bulkRun now items s) = bulk_addedCount s + successes records /\
    JsMap.size (bulk_store (bulkRun now items s)) =
      JsMap.size (bulk_store s) + successes records /\
    (successes records = 0 -> bulk_store (bulkRun now items s) = bulk_store s).
Proof.
  revert s. induction items as [|item rest IH]; intros s.
  - exists []. simpl. rewrite app_nil_r. unfold successes. simpl.
    repeat split; lia.
  - destruct (bulkStep_outcome s item) as (Hr & Hc & Hsz & Hsame).
    destruct (IH (bulkStep now s item)) as (records & H1 & H2 & H3 & H4 & H5).
    exists (itemOutcome (storeHas s) item :: records).
    cbn [bulkRun fold_left]. fold (bulkRun now rest (bulkStep now s item)).
    rewrite H1, H3, H4, Hr, Hc, Hsz, <- app_assoc.
    unfold successes in *. cbn [app filter List.length].
    destruct (br_success (itemOutcome (storeHas s) item)) eqn:E;
      cbn [List.length]; repeat split; try lia.
    intros Hz. rewrite H5 by lia. now apply Hsame.
Qed.

(** The record of an item is its outcome against the addresses of the
    store and of the items before it. *)
Lemma bulkRun_nth pre item post store :
  nth_error (bulk_results (bulkRun now (pre ++ item :: post) (bulkStart store)))
    (List.length pre) =
  Some (itemOutcome (knownAfter store pre) item).
Proof.
  rewrite bulkRun_app. cbn [bulkRun fold_left].
  fold (bulkRun now pre (bulkStart store)).
  set (s := bulkRun now pre (bulkStart store)).
  fold (bulkRun now post (bulkStep now s item)).
  destruct (bulkRun_results post (bulkStep now s item)) as (records & H1 & _).
  destruct (bulkRun_results pre (bulkStart store)) as (before & Hb & Hlen & _).
  fold s in Hb. simpl in Hb.
  destruct (bulkStep_outcome s item) as (Hr & _).
  rewrite H1, Hr, Hb, <- app_assoc.
  rewrite nth_error_app2 by lia.
  rewrite Hlen, Nat.sub_diag. cbn [nth_error app]. f_equal.
  apply itemOutcome_ext. intros k. unfold storeHas, knownAfter. subst s.
  apply bulkRun_has.
Qed.

End BulkLoop.

Section BulkHandler.
Variable World : Type.
Variable getStore : World -> Store.
Variable setStore : Store -> World -> World.
Variable save : Z -> World -> World * option bool.
Variable unsaved : option bool.
Variable env : option string.

(** handleBulkAdd, once the key and the array have been checked. *)
Lemma bulk_response now req w items :
  validateAdminKey env (bulk_adminKey req) = true ->
  bulk_macAddresses req = Some items ->
  let s := bulkRun now items (bulkStart (getStore w)) in
  let w1 := setStore (bulk_store s) w in
  handleBulkAdd getStore setStore save unsaved env now req w =
  (if bulk_addedCount s >? 0 then fst (save now w1) else w1,
   {| status := 200; success := true;
      message := "Bulk add completed. " ++ Js.showZ (bulk_addedCount s)
                 ++ " MAC addresses added.";
      data := BulkData (bulk_results s) (Z.of_nat (List.length items))
                (bulk_addedCount s);
      persistent :=
        if bulk_addedCount s >? 0 then snd (save now w1) else unsaved |}).
Proof.
  intros Hkey Hitems s w1. unfold handleBulkAdd. rewrite Hkey, Hitems.
  cbn [negb]. fold (bulkStart (getStore w)).
  fold (bulkRun now items (bulkStart (getStore w))). fold s. fold w1.
  destruct (bulk_addedCount s >? 0); [|reflexivity].
  now destruct (save now w1).
Qed.

End BulkHandler.

(** A later item that names the address of an earlier item of the batch is
    a duplicate. *)
Lemma knownAfter_earlier store pre a mid ma k :
  item_macAddress a = Some ma -> ma <> "" -> Js.toLowerCase ma = k ->
  knownAfter store (pre ++ a :: mid) k = true.
Proof.
  intros Ha Hne Hk. unfold knownAfter. apply orb_true_iff. right.
  apply existsb_exists. exists a. split.
  - apply in_or_app. right. now left.
  - unfold names. rewrite Ha. apply String.eqb_neq in Hne. rewrite Hne.
    simpl. now apply String.eqb_eq.
Qed.

(** *** [MACDatabase.bulkAddMACs] *)

Module DatabaseBulkFacts.
Import Database DatabaseBulk.






Section Loop.
Variable randomUUID : nat -> string.
Variable now : Z.

Let dataHas (s : BulkState) (k : string) : bool :=
  JsMap.has k (macAddresses (bulk_data s)).

(** One iteration: no file-system call, one more record. *)
Lemma bulkStep_spec s item :
  hasAddress item ->
  exists s' o,
    bulkStep randomUUID now s item = Some s' /\
    itemOutcome (dataHas s) item = Some o /\
    bulk_results s' = (bulk_results s ++ [o])%list /\
    bulk_addedCount s' = bulk_addedCount s + (if isAdded o then 1 else 0) /\
    journal (bulk_world s') = journal (bulk_world s) /\
    macFile (bulk_world s') = macFile (bulk_world s) /\
    macFile_writable (bulk_world s') = macFile_writable (bulk_world s) /\
    JsMap.size (macAddresses (bulk_data s')) =
      JsMap.size (macAddresses (bulk_data s)) + (if isAdded o then 1 else 0) /\
    (forall k, dataHas s' k = dataHas s k || names item k).
Proof.
  intros [m Hm]. unfold bulkStep, itemOutcome, names, dataHas.
  rewrite Hm. unfold JsMap.has.
  destruct (JsMap.get (Js.toLowerCase m) (macAddresses (bulk_data s)))
    as [e|] eqn:G.
  - eexists. eexists. split; [reflexivity|]. split; [reflexivity|].
    cbn [bulk_results bulk_addedCount bulk_world bulk_data isAdded].
    repeat split; try lia.
    intros k. destruct (String.eqb_spec (Js.toLowerCase m) k) as [<-|Hne].
    + now rewrite G.
    + now rewrite orb_false_r.
  - eexists. eexists. split; [reflexivity|]. split; [reflexivity|].
    cbn [bulk_results bulk_addedCount bulk_world bulk_data isAdded
         withMacAddresses macAddresses].
    repeat split.
    { apply JsMapFacts.size_set_absent. unfold JsMap.has. now rewrite G. }
    intros k. destruct (String.eqb_spec (Js.toLowerCase m) k) as [<-|Hne].
    + rewrite JsMapFacts.get_set_same. now rewrite orb_true_r.
    + rewrite JsMapFacts.get_set_other by congruence. now rewrite orb_false_r.
Qed.

(** The loop: no file-system call, one record per item, each decided
    against the entries read and the items before it. *)
Lemma bulkLoop_spec items s :
  (forall item, In item items -> hasAddress item) ->
  exists s' records,
    bulkLoop randomUUID now items s = Some s' /\
    bulk_results s' = (bulk_results s ++ records)%list /\
    List.length records = List.length items /\
    bulk_addedCount s' =
      bulk_addedCount s + Z.of_nat (List.length (filter isAdded records)) /\
    journal (bulk_world s') = journal (bulk_world s) /\
    macFile (bulk_world s') = macFile (bulk_world s) /\
    macFile_writable (bulk_world s') = macFile_writable (bulk_world s) /\
    JsMap.size (macAddresses (bulk_data s')) =
      JsMap.size (macAddresses (bulk_data s))
      + Z.of_nat (List.length (filter isAdded records)) /\
    (forall k, dataHas s' k =
               dataHas s k || existsb (fun item => names item k) items) /\
    (forall pre item post,
        items = (pre ++ item :: post)%list ->
        nth_error records (List.length pre) =
        itemOutcome
          (fun k => dataHas s k || existsb (fun i => names i k) pre)
          item).
Proof.
  revert s. induction items as [|item rest IH]; intros s Hall.
  - exists s, []. simpl. rewrite app_nil_r.
    repeat split; try lia.
    + intros k. now rewrite orb_false_r.
    + intros pre item post H. destruct pre; discriminate.
  - destruct (bulkStep_spec s item (Hall item (or_introl eq_refl)))
      as (s1 & o & Hstep & Ho & Hr & Hc & Hj & Hf & Hw & Hsz & Hhas).
    destruct (IH s1) as (s' & records & Hloop & Hr' & Hlen & Hc' & Hj'
                         & Hf' & Hw' & Hsz' & Hhas' & Hnth).
    { intros i Hi. apply Hall. now right. }
    exists s', (o :: records).
    cbn [bulkLoop]. rewrite Hstep.
    split; [exact Hloop|].
    split; [rewrite Hr', Hr, <- app_assoc; reflexivity|].
    split; [simpl; lia|].
    split.
    { rewrite Hc', Hc. cbn [filter].
      destruct (isAdded o); cbn [List.length]; lia. }
    split; [congruence|]. split; [congruence|]. split; [congruence|].
    split.
    { rewrite Hsz', Hsz. cbn [filter].
      destruct (isAdded o); cbn [List.length]; lia. }
    split.
    { intros k. rewrite Hhas', Hhas. cbn [existsb]. now rewrite orb_assoc. }
    intros pre it post Heq.
    destruct pre as [|p pre]; simpl in Heq.
    + inversion Heq; subst. cbn [nth_error List.length existsb].
      rewrite <- Ho. unfold itemOutcome.
      destruct (item_macAddress it); [|reflexivity].
      now rewrite orb_false_r.
    + inversion Heq; subst. cbn [nth_error List.length].
      rewrite (Hnth pre it post eq_refl).
      unfold itemOutcome.
      destruct (item_macAddress it) as [m|]; [|reflexivity].
      rewrite Hhas. cbn [existsb]. now rewrite orb_assoc.
Qed.

End Loop.
End DatabaseBulkFacts.

Lemma basic_snapshot_after_save now later w :
  Basic.snapshot later (fst (Basic.saveMACWhitelist now w)) = Basic.snapshot later w.
Proof. now rewrite BasicFacts.basic_save_world. Qed.

(** [MACDatabase.bulkAddMACs] on a batch whose items all carry an
    address: one read, the loop, one write. *)
Lemma database_bulk_spec randomUUID now items w :
  (forall item, In item items -> DatabaseBulk.hasAddress item) ->
  let r := Database.bulkAddMACs randomUUID now items w in
  exists ok data records,
    Database.journal (fst r) =
      (Database.journal w ++
       [Database.ReadDatabase ok;
        Database.WriteDatabase data (Database.macFile_writable w)])%list /\
    Database.report_success (snd r) = Database.macFile_writable w /\
    List.length records = List.length items /\
    (forall pre item post,
        items = (pre ++ item :: post)%list ->
        nth_error records (List.length pre) =
        DatabaseBulk.itemOutcome
          (DatabaseBulk.knownAfter (Database.stored w) pre) item) /\
    JsMap.size (Database.macAddresses data) =
      JsMap.size (Database.stored w)
      + Z.of_nat (List.length (filter DatabaseBulk.isAdded records)) /\
    (Database.macFile_writable w = true ->
     Database.report_results (snd r) = records /\
     Database.report_added (snd r) =
       Z.of_nat (List.length (filter DatabaseBulk.isAdded records)) /\
     Database.stored (fst r) = Database.macAddresses data).
Proof.
  intros Hall r. subst r. unfold Database.bulkAddMACs.
  pose proof (DatabaseFacts.readDatabase_entries now w) as Hd.
  pose proof (DatabaseFrame.journal_after_read now w) as [ok Hj].
  pose proof (DatabaseFrame.writable_after_read now w) as Hw.
  destruct (Database.readDatabase now w) as [w1 data0]. cbn [fst snd] in *.
  destruct (DatabaseBulkFacts.bulkLoop_spec randomUUID now items
              {| Database.bulk_world := w1; Database.bulk_data := data0;
                 Database.bulk_results := []; Database.bulk_addedCount := 0;
                 Database.bulk_skippedCount := 0 |} Hall)
    as (s' & records & Hloop & Hr & Hlen & Hc & Hj' & _ & Hw' & Hsz & _ & Hnth).
  cbn [Database.bulk_world Database.bulk_data Database.bulk_results
       Database.bulk_addedCount app] in *.
  rewrite Hloop.
  exists ok, (Database.stamp now (Database.bulk_data s')), records.
  unfold Database.writeDatabase. rewrite Hw', Hw.
  destruct (Database.macFile_writable w) eqn:E;
    cbn [fst snd Database.journal Database.record Database.report_success
         Database.bulkFailure Database.stamp Database.macAddresses].
  - rewrite Hj', Hj, <- app_assoc. cbn [app].
    split; [reflexivity|]. split; [reflexivity|]. split; [exact Hlen|].
    split.
    { intros pre item post Heq. rewrite (Hnth pre item post Heq).
      unfold DatabaseBulk.knownAfter. now rewrite Hd. }
    split; [now rewrite Hsz, Hd|].
    intros _. cbn [Database.report_results Database.report_added].
    split; [exact Hr|]. split; [lia|]. reflexivity.
  - rewrite Hj', Hj, <- app_assoc. cbn [app].
    split; [reflexivity|]. split; [reflexivity|]. split; [exact Hlen|].
    split.
    { intros pre item post Heq. rewrite (Hnth pre item post Heq).
      unfold DatabaseBulk.knownAfter. now rewrite Hd. }
    split; [now rewrite Hsz, Hd|].
    discriminate.
Qed.







(** ** Further checks of the model against the specification's scenarios *)

(** The load procedure of the enhanced variant runs once per process. *)
Lemma initializeStorage_idempotent now later w :
  Enhanced.initializeStorage later (Enhanced.initializeStorage now w) =
  Enhanced.initializeStorage now w.
Proof.
  unfold Enhanced.initializeStorage.
  destruct (Enhanced.initialized w) eqn:E.
  - now rewrite E.
  - reflexivity.
Qed.

(** Normalization is idempotent, and spellings that differ in case only
    share a key. *)
Example normalize_sample :
  Js.toLowerCase Samples.MAC = Samples.mac
  /\ Js.toLowerCase Samples.mac = Samples.mac.
Proof. split; reflexivity. Qed.

(** One entry last seen two hours ago: active in both windows. *)
Example statistics_recent :
  updateStatistics 100000000
    [(Samples.mac,
      {| macAddress := Samples.mac; description := "laptop";
         accessType := Some "trial"; addedAt := 1000; updatedAt := None;
         lastSeen := Some (100000000 - 2 * 60 * 60 * 1000);
         accessCount := Some 5; lastDevice := None |})]
  = {| total := 1; activeLast24h := 1; activeLast7d := 1; neverUsed := 0;
       totalAccesses := 5 |}.
Proof. reflexivity. Qed.

(** One entry never seen. *)
Example statistics_never_used :
  updateStatistics 100000000 [(Samples.mac, Samples.laptop)]
  = {| total := 1; activeLast24h := 0; activeLast7d := 0; neverUsed := 1;
       totalAccesses := 0 |}.
Proof. reflexivity. Qed.

(** The scenario of the specification, through the exported handler of
    the enhanced variant: empty store, add-mac, check-access. *)
Example add_then_check_scenario :
  let w1 := fst (Enhanced.handler None 1000
                   (Some (AddMAC (Samples.addLaptop (Some "trial"))))
                   Enhanced.initial) in
  snd (Enhanced.handler None 2000
         (Some (CheckAccess (checkRequest (Some Samples.device) [Samples.mac])))
         w1)
  = inr (reply 200 true "Device authorized"
           (AccessData {| view_macAddress := Samples.mac;
                          view_description := "laptop";
                          view_accessType := "trial";
                          view_addedAt := 1000;
                          view_lastSeen := Some 2000;
                          view_accessCount := Some 1 |})).
Proof. reflexivity. Qed.

(** After a save of the basic variant, the next request's load finds the
    entries again. *)
Example save_then_load :
  Basic.macWhitelist
    (Basic.loadMACWhitelist
       (Basic.setStore JsMap.clear
          (fst (Basic.saveMACWhitelist 1000 Samples.basicWorld))))
  = [(Samples.mac, Samples.laptop)].
Proof. reflexivity. Qed.


(* ===================================================================== *)
(** * Further properties of the code *)
(* ===================================================================== *)

(** ** The store is keyed by the entries' own addresses *)

Lemma NoDup_keys_set (V : Type) (k : string) (v : V) (m : JsMap.t V) :
  NoDup (JsMap.keys m) -> NoDup (JsMap.keys (JsMap.set k v m)).
Proof.
  intros H. destruct (JsMap.get k m) as [x|] eqn:G.
  - rewrite JsMapFacts.keys_set_present; [exact H|].
    apply JsMapFacts.has_get. now exists x.
  - rewrite JsMapFacts.set_absent by exact G.
    unfold JsMap.keys in *. rewrite map_app. simpl.
    apply NoDup_app; [exact H | repeat constructor; intros [] |].
    intros a Ha [<-|[]].
    now apply (JsMapFacts.get_None_keys k m).
Qed.

Lemma NoDup_keys_delete (V : Type) (k : string) (m : JsMap.t V) :
  NoDup (JsMap.keys m) -> NoDup (JsMap.keys (JsMap.delete k m)).
Proof.
  unfold JsMap.keys, JsMap.delete.
  induction m as [|[k' v] r IH]; simpl; intros H; [constructor|].
  inversion H as [|? ? Hk Hr]; subst.
  destruct (negb (k =? k')%string); simpl; [|now apply IH].
  constructor; [|now apply IH].
  intros Hin. apply Hk.
  apply in_map_iff in Hin. destruct Hin as [[k2 v2] [E Hin]].
  apply filter_In in Hin. destruct Hin as [Hin _].
  apply in_map_iff. now exists (k2, v2).
Qed.

Lemma Forall_set (V : Type) (P : string * V -> Prop) k v (m : JsMap.t V) :
  Forall P m -> P (k, v) -> Forall P (JsMap.set k v m).
Proof.
  intros H Hkv. induction m as [|[k' v'] r IH]; simpl.
  - now constructor.
  - inversion H; subst.
    destruct (k =? k')%string; constructor; auto.
Qed.

Lemma Forall_delete (V : Type) (P : string * V -> Prop) k (m : JsMap.t V) :
  Forall P m -> Forall P (JsMap.delete k m).
Proof.
  intros H. apply Forall_forall. intros x Hx.
  apply filter_In in Hx. destruct Hx as [Hx _].
  revert x Hx. now apply Forall_forall.
Qed.

Lemma WellKeyed_clear : WellKeyed JsMap.clear.
Proof. split; constructor. Qed.

Lemma WellKeyed_set k e s :
  WellKeyed s -> macAddress e = k -> WellKeyed (JsMap.set k e s).
Proof.
  intros [Hnd Hf] He. split.
  - now apply NoDup_keys_set.
  - now apply Forall_set.
Qed.

Lemma WellKeyed_delete k s : WellKeyed s -> WellKeyed (JsMap.delete k s).
Proof.
  intros [Hnd Hf]. split.
  - now apply NoDup_keys_delete.
  - now apply Forall_delete.
Qed.

Lemma WellKeyed_get k e s :
  WellKeyed s -> JsMap.get k s = Some e -> macAddress e = k.
Proof.
  intros [_ Hf] G. apply JsMapFacts.get_In in G.
  rewrite Forall_forall in Hf. exact (Hf _ G).
Qed.

(** Whatever array a file holds, keying its elements by their own
    [macAddress] gives a well-keyed store. *)
Lemma WellKeyed_fold entries s :
  WellKeyed s ->
  WellKeyed
    (fold_left (fun m entry => JsMap.set (macAddress entry) entry m) entries s).
Proof.
  revert s. induction entries as [|e r IH]; intros s H; simpl; [exact H|].
  apply IH. now apply WellKeyed_set.
Qed.

Section StoreInvariant.
Variable World : Type.
Variable getStore : World -> Store.
Variable setStore : Store -> World -> World.
Variable getStatistics : World -> Statistics.
Variable setStatistics : Statistics -> World -> World.
Variable save : Z -> World -> World * option bool.
Variable unsaved : option bool.
Variable env : option string.

Hypothesis get_set : forall s w, getStore (setStore s w) = s.
Hypothesis save_keeps_store :
  forall now w, getStore (fst (save now w)) = getStore w.
Hypothesis statistics_keep_store :
  forall st w, getStore (setStatistics st w) = getStore w.

Lemma bulkStep_well_keyed now s item :
  WellKeyed (bulk_store s) -> WellKeyed (bulk_store (bulkStep now s item)).
Proof.
  intros H. unfold bulkStep.
  destruct (negb (Js.truthy (item_macAddress item))); [exact H|].
  destruct (JsMap.has _ (bulk_store s)); [exact H|].
  simpl. now apply WellKeyed_set.
Qed.

Lemma bulkLoop_well_keyed now items s :
  WellKeyed (bulk_store s) ->
  WellKeyed (bulk_store (fold_left (bulkStep now) items s)).
Proof.
  revert s. induction items as [|item rest IH]; intros s H; simpl; [exact H|].
  apply IH. now apply bulkStep_well_keyed.
Qed.

Lemma dispatch_well_keyed now request w :
  WellKeyed (getStore w) ->
  WellKeyed
    (getStore (fst (dispatch getStore setStore getStatistics setStatistics
                      save unsaved env now request w))).
Proof.
  intros H. destruct request as [b|b|b|b|b|b|]; simpl.
  - unfold handleCheckAccess.
    destruct (chk_macAddresses b) as [[|c r]|]; try exact H.
    destruct (findAuthorized (getStore w) (c :: r)) as [[k e]|] eqn:F;
      [|exact H].
    apply findAuthorized_Some in F. destruct F as [G _].
    after_save. rewrite save_keeps_store, get_set.
    apply WellKeyed_set; [exact H|].
    pose proof (WellKeyed_get _ _ _ H G) as K.
    now destruct (chk_deviceInfo b).
  - unfold handleAddMAC.
    destruct (negb (validateAdminKey env (add_adminKey b))); [exact H|].
    destruct (add_macAddress b) as [m|]; [|exact H].
    destruct (m =? "")%string; [exact H|].
    destruct (JsMap.has (Js.toLowerCase m) (getStore w)); [exact H|].
    after_save. rewrite save_keeps_store, get_set.
    now apply WellKeyed_set.
  - unfold handleUpdateAccess.
    destruct (negb (validateAdminKey env (upd_adminKey b))); [exact H|].
    destruct (negb (Js.truthy (upd_macAddress b))
              || negb (Js.truthy (upd_accessType b))); [exact H|].
    destruct (negb (Js.includes validAccessTypes (upd_accessType b)));
      [exact H|].
    destruct (JsMap.get _ (getStore w)) as [e|] eqn:G; [|exact H].
    after_save. rewrite save_keeps_store, get_set.
    apply WellKeyed_set; [exact H|].
    exact (WellKeyed_get _ _ _ H G).
  - unfold handleRemoveMAC.
    destruct (negb (validateAdminKey env (rem_adminKey b))); [exact H|].
    destruct (negb (Js.truthy (rem_macAddress b))); [exact H|].
    destruct (negb (JsMap.has _ (getStore w))); [exact H|].
    after_save. rewrite save_keeps_store, get_set.
    now apply WellKeyed_delete.
  - unfold handleListMACs.
    destruct (negb (validateAdminKey env (list_adminKey b))); [exact H|].
    simpl. now rewrite statistics_keep_store.
  - unfold handleBulkAdd.
    destruct (negb (validateAdminKey env (bulk_adminKey b))); [exact H|].
    destruct (bulk_macAddresses b) as [items|]; [|exact H].
    destruct (bulk_addedCount _ >? 0).
    + after_save. rewrite save_keeps_store, get_set.
      now apply bulkLoop_well_keyed.
    + simpl. rewrite get_set. now apply bulkLoop_well_keyed.
  - exact H.
Qed.

End StoreInvariant.

(** ** Requests that fail *)

Section FailureFacts.
Variable World : Type.
Variable getStore : World -> Store.
Variable setStore : Store -> World -> World.
Variable getStatistics : World -> Statistics.
Variable setStatistics : Statistics -> World -> World.
Variable save : Z -> World -> World * option bool.
Variable unsaved : option bool.
Variable env : option string.

(** Every early return of the handlers comes before the first write to
    the store and before the persist procedure is called. *)
Lemma dispatch_failure_unchanged now request w :
  success (snd (dispatch getStore setStore getStatistics setStatistics
                  save unsaved env now request w)) = false ->
  fst (dispatch getStore setStore getStatistics setStatistics
         save unsaved env now request w) = w.
Proof.
  destruct request as [b|b|b|b|b|b|]; simpl.
  - unfold handleCheckAccess.
    destruct (chk_macAddresses b) as [[|c r]|]; try reflexivity.
    destruct (findAuthorized (getStore w) (c :: r)) as [[k e]|];
      [|reflexivity].
    destruct (save now _); simpl; discriminate.
  - unfold handleAddMAC.
    destruct (negb (validateAdminKey env (add_adminKey b))); [reflexivity|].
    destruct (add_macAddress b) as [m|]; [|reflexivity].
    destruct (m =? "")%string; [reflexivity|].
    destruct (JsMap.has (Js.toLowerCase m) (getStore w)); [reflexivity|].
    destruct (save now _); simpl; discriminate.
  - unfold handleUpdateAccess.
    destruct (negb (validateAdminKey env (upd_adminKey b))); [reflexivity|].
    destruct (negb (Js.truthy (upd_macAddress b))
              || negb (Js.truthy (upd_accessType b))); [reflexivity|].
    destruct (negb (Js.includes validAccessTypes (upd_accessType b)));
      [reflexivity|].
    destruct (JsMap.get _ (getStore w)) as [e|]; [|reflexivity].
    destruct (save now _); simpl; discriminate.
  - unfold handleRemoveMAC.
    destruct (negb (validateAdminKey env (rem_adminKey b))); [reflexivity|].
    destruct (negb (Js.truthy (rem_macAddress b))); [reflexivity|].
    destruct (negb (JsMap.has _ (getStore w))); [reflexivity|].
    destruct (save now _); simpl; discriminate.
  - unfold handleListMACs.
    destruct (negb (validateAdminKey env (list_adminKey b))); [reflexivity|].
    simpl; discriminate.
  - unfold handleBulkAdd.
    destruct (negb (validateAdminKey env (bulk_adminKey b))); [reflexivity|].
    destruct (bulk_macAddresses b) as [items|]; [|reflexivity].
    destruct (bulk_addedCount _ >? 0).
    + destruct (save now _); simpl; discriminate.
    + simpl; discriminate.
  - reflexivity.
Qed.

(** An admin request whose key is not the configured one is answered
    403, whatever else it carries. *)
Lemma dispatch_bad_key now request w :
  match request with
  | AddMAC b => validateAdminKey env (add_adminKey b) = false
  | UpdateAccess b => validateAdminKey env (upd_adminKey b) = false
  | RemoveMAC b => validateAdminKey env (rem_adminKey b) = false
  | ListMACs b => validateAdminKey env (list_adminKey b) = false
  | BulkAdd b => validateAdminKey env (bulk_adminKey b) = false
  | CheckAccess _ | OtherAction => False
  end ->
  dispatch getStore setStore getStatistics setStatistics save unsaved env
    now request w
  = (w, reply 403 false "Invalid admin key" NoData).
Proof.
  destruct request as [b|b|b|b|b|b|]; simpl; intros H; try contradiction.
  - unfold handleAddMAC. now rewrite H.
  - unfold handleUpdateAccess. now rewrite H.
  - unfold handleRemoveMAC. now rewrite H.
  - unfold handleListMACs. now rewrite H.
  - unfold handleBulkAdd. now rewrite H.
Qed.

End FailureFacts.

(** X1.  In both Map-backed variants a request that is answered with
    [success: false] leaves the whole module state as it was: nothing is
    stored, no statistic is refreshed and no file operation is made. *)
Theorem failed_request_changes_nothing :
  (forall (env : option string) (now : Z) (request : Request)
          (w : Basic.World),
      success (snd (Basic.dispatch env now request w)) = false ->
      fst (Basic.dispatch env now request w) = w)
  /\
  (forall (env : option string) (now : Z) (request : Request)
          (w : Enhanced.World),
      success (snd (Enhanced.dispatch env now request w)) = false ->
      fst (Enhanced.dispatch env now request w) = w).
Proof.
  split; intros env now request w; apply dispatch_failure_unchanged.
Qed.

Lemma failed_request_changes_nothing_witness :
  fst (Basic.dispatch None 3000
         (RemoveMAC {| rem_macAddress := Some Samples.other;
                       rem_adminKey := Samples.key |})
         Samples.basicWorld) = Samples.basicWorld
  /\
  fst (Enhanced.dispatch None 3000
         (CheckAccess (checkRequest None [Samples.other]))
         Samples.enhancedWorld) = Samples.enhancedWorld.
Proof.
  destruct failed_request_changes_nothing as [HA HB].
  split.
  - exact (HA None 3000
             (RemoveMAC {| rem_macAddress := Some Samples.other;
                           rem_adminKey := Samples.key |})
             Samples.basicWorld eq_refl).
  - exact (HB None 3000 (CheckAccess (checkRequest None [Samples.other]))
             Samples.enhancedWorld eq_refl).
Defined.

(** ** What the load procedures leave in the store *)

Lemma entriesOf_well_keyed p : WellKeyed (entriesOf p).
Proof.
  destruct p as [|d]; simpl; [apply WellKeyed_clear|].
  destruct (doc_macAddresses d); [|apply WellKeyed_clear].
  apply WellKeyed_fold, WellKeyed_clear.
Qed.

Lemma basic_load_well_keyed w :
  WellKeyed (Basic.macWhitelist (Basic.loadMACWhitelist w)).
Proof.
  rewrite basic_load_store.
  destruct (Basic.parseFile _); [apply entriesOf_well_keyed|].
  destruct (Basic.parseFile _);
    [apply entriesOf_well_keyed | apply WellKeyed_clear].
Qed.

Lemma enhanced_loadFrom_well_keyed now remaining w :
  WellKeyed (Enhanced.macAddresses (Enhanced.loadFrom now remaining w)).
Proof.
  revert w. induction remaining as [|l rest IH]; intros w; simpl.
  - apply WellKeyed_clear.
  - destruct (content (Enhanced.disk w) l) as [[|[|d]]|]; try apply IH.
    destruct (doc_macAddresses d) as [entries|]; [|apply IH].
    destruct (doc_statistics d); simpl;
      apply WellKeyed_fold, WellKeyed_clear.
Qed.

Lemma enhanced_statistics_keep_store st w :
  Enhanced.getStore (Enhanced.setStatistics st w) = Enhanced.getStore w.
Proof. reflexivity. Qed.

Lemma basic_statistics_keep_store st w :
  Basic.getStore (Basic.setStatistics st w) = Basic.getStore w.
Proof. reflexivity. Qed.

(** X2.  After any request to the exported handler of api/mac-auth.js,
    whatever the two files held before, the keys of the whitelist are
    distinct and every entry is stored under the address in its
    [macAddress] field. *)
Theorem basic_handler_well_keyed (env : option string) (now : Z)
    (request : Request) (w : Basic.World) :
  WellKeyed (Basic.macWhitelist (fst (Basic.handler env now request w))).
Proof.
  unfold Basic.handler, Basic.dispatch.
  apply (dispatch_well_keyed _ Basic.getStore Basic.setStore
           Basic.getStatistics Basic.setStatistics Basic.saveMACWhitelist
           None env BasicFacts.basic_get_set BasicFacts.basic_save_keeps_store
           basic_statistics_keep_store).
  apply basic_load_well_keyed.
Qed.

(** What neither the setters nor the persist procedure touch, no request
    touches. *)
Section DispatchFrame.
Variable World : Type.
Variable getStore : World -> Store.
Variable setStore : Store -> World -> World.
Variable getStatistics : World -> Statistics.
Variable setStatistics : Statistics -> World -> World.
Variable save : Z -> World -> World * option bool.
Variable unsaved : option bool.
Variable env : option string.
Variable A : Type.
Variable f : World -> A.

Hypothesis f_setStore : forall s w, f (setStore s w) = f w.
Hypothesis f_setStatistics : forall st w, f (setStatistics st w) = f w.
Hypothesis f_save : forall now w, f (fst (save now w)) = f w.

Lemma dispatch_frame now request w :
  f (fst (dispatch getStore setStore getStatistics setStatistics
            save unsaved env now request w)) = f w.
Proof.
  destruct request as [b|b|b|b|b|b|]; simpl.
  - unfold handleCheckAccess.
    destruct (chk_macAddresses b) as [[|c r]|]; try reflexivity.
    destruct (findAuthorized (getStore w) (c :: r)) as [[k e]|];
      [|reflexivity].
    after_save. now rewrite f_save, f_setStore.
  - unfold handleAddMAC.
    destruct (negb (validateAdminKey env (add_adminKey b))); [reflexivity|].
    destruct (add_macAddress b) as [m|]; [|reflexivity].
    destruct (m =? "")%string; [reflexivity|].
    destruct (JsMap.has (Js.toLowerCase m) (getStore w)); [reflexivity|].
    after_save. now rewrite f_save, f_setStore.
  - unfold handleUpdateAccess.
    destruct (negb (validateAdminKey env (upd_adminKey b))); [reflexivity|].
    destruct (negb (Js.truthy (upd_macAddress b))
              || negb (Js.truthy (upd_accessType b))); [reflexivity|].
    destruct (negb (Js.includes validAccessTypes (upd_accessType b)));
      [reflexivity|].
    destruct (JsMap.get _ (getStore w)) as [e|]; [|reflexivity].
    after_save. now rewrite f_save, f_setStore.
  - unfold handleRemoveMAC.
    destruct (negb (validateAdminKey env (rem_adminKey b))); [reflexivity|].
    destruct (negb (Js.truthy (rem_macAddress b))); [reflexivity|].
    destruct (negb (JsMap.has _ (getStore w))); [reflexivity|].
    after_save. now rewrite f_save, f_setStore.
  - unfold handleListMACs.
    destruct (negb (validateAdminKey env (list_adminKey b))); [reflexivity|].
    simpl. apply f_setStatistics.
  - unfold handleBulkAdd.
    destruct (negb (validateAdminKey env (bulk_adminKey b))); [reflexivity|].
    destruct (bulk_macAddresses b) as [items|]; [|reflexivity].
    destruct (bulk_addedCount _ >? 0).
    + after_save. now rewrite f_save, f_setStore.
    + simpl. apply f_setStore.
  - reflexivity.
Qed.

End DispatchFrame.

Lemma enhanced_dispatch_initialized env now request w :
  Enhanced.initialized (fst (Enhanced.dispatch env now request w)) =
  Enhanced.initialized w.
Proof.
  apply (dispatch_frame _ Enhanced.getStore Enhanced.setStore
           Enhanced.getStatistics Enhanced.setStatistics
           Enhanced.saveToStorage (Some false) env _ Enhanced.initialized).
  - reflexivity.
  - reflexivity.
  - intros t x. now rewrite EnhancedFacts.enhanced_save_world.
Qed.

Lemma enhanced_dispatch_well_keyed env now request w :
  WellKeyed (Enhanced.macAddresses w) ->
  WellKeyed (Enhanced.macAddresses (fst (Enhanced.dispatch env now request w))).
Proof.
  apply (dispatch_well_keyed _ Enhanced.getStore Enhanced.setStore
           Enhanced.getStatistics Enhanced.setStatistics
           Enhanced.saveToStorage (Some false) env
           EnhancedFacts.enhanced_get_set
           EnhancedFacts.enhanced_save_keeps_store
           enhanced_statistics_keep_store).
Qed.

Lemma initializeStorage_initialized now w :
  Enhanced.initialized (Enhanced.initializeStorage now w) = true.
Proof.
  unfold Enhanced.initializeStorage.
  destruct (Enhanced.initialized w) eqn:E; [exact E | reflexivity].
Qed.

Lemma enhanced_handler_world env now request w :
  fst (Enhanced.handler env now request w) =
  match request with
  | None => Enhanced.initializeStorage now w
  | Some r =>
      fst (Enhanced.dispatch env now r (Enhanced.initializeStorage now w))
  end.
Proof.
  unfold Enhanced.handler. destruct request as [r|]; [|reflexivity].
  now destruct (Enhanced.dispatch env now r _).
Qed.

(** X3.  The exported handler of api/mac-auth-enhanced.js: if the store
    of an initialised module is keyed by its entries' addresses, then
    after any request, the health check included, the module is
    initialised and its store is still keyed so.  Of a module that was
    not initialised nothing is assumed. *)
Theorem enhanced_handler_well_keyed (env : option string) (now : Z)
    (request : option Request) (w : Enhanced.World) :
  (Enhanced.initialized w = true -> WellKeyed (Enhanced.macAddresses w)) ->
  Enhanced.initialized (fst (Enhanced.handler env now request w)) = true
  /\ WellKeyed (Enhanced.macAddresses (fst (Enhanced.handler env now request w))).
Proof.
  intros H. rewrite enhanced_handler_world.
  assert (Hk : WellKeyed (Enhanced.macAddresses
                            (Enhanced.initializeStorage now w))).
  { unfold Enhanced.initializeStorage.
    destruct (Enhanced.initialized w) eqn:E; [now apply H|].
    apply enhanced_loadFrom_well_keyed. }
  destruct request as [r|].
  - split.
    + rewrite enhanced_dispatch_initialized.
      apply initializeStorage_initialized.
    + now apply enhanced_dispatch_well_keyed.
  - split; [apply initializeStorage_initialized | exact Hk].
Qed.

Lemma enhanced_handler_well_keyed_witness :
  WellKeyed
    (Enhanced.macAddresses
       (fst (Enhanced.handler None 2000
               (Some (AddMAC {| add_macAddress := Some Samples.other;
                                add_description := None;
                                add_accessType := None;
                                add_adminKey := Samples.key |}))
               runningWorld))).
Proof.
  refine (proj2 (enhanced_handler_well_keyed None 2000 _ runningWorld _)).
  intros _. split.
  - constructor; [intros [] | constructor].
  - repeat constructor.
Defined.

(** ** Saving, then loading *)

Lemma spread_full base st : spreadStats base (fullStats st) = st.
Proof. now destruct st. Qed.

(** Re-keying the values of a well-keyed store gives the store back. *)
Lemma populate_values_back (m : Store) :
  WellKeyed m -> Enhanced.populate (JsMap.values m) = m.
Proof.
  intros [Hnd Hf]. unfold Enhanced.populate, JsMap.clear.
  assert (Hk : map macAddress (JsMap.values m) = JsMap.keys m).
  { unfold JsMap.values, JsMap.keys. rewrite map_map.
    apply map_ext_in. intros kv Hin.
    rewrite Forall_forall in Hf. now apply Hf. }
  rewrite fold_set_fresh by (simpl; now rewrite Hk).
  simpl. unfold JsMap.values. rewrite map_map.
  rewrite <- (map_id m) at 2. apply map_ext_in.
  intros [k e] Hin. rewrite Forall_forall in Hf.
  specialize (Hf _ Hin). simpl in *. now subst k.
Qed.

Lemma enhanced_loadFrom_snapshot now pre l post snap w :
  (forall x, In x pre ->
             validEntries (content (Enhanced.disk w) x) = None) ->
  content (Enhanced.disk w) l = Some (serialize snap) ->
  let w' := Enhanced.loadFrom now (pre ++ l :: post) w in
  Enhanced.macAddresses w' = Enhanced.populate (snap_macAddresses snap)
  /\ Enhanced.statistics w' = snap_statistics snap
  /\ Enhanced.lastLoaded w' = Some now.
Proof.
  revert w. induction pre as [|p rest IH]; intros w Hpre Hl; cbv zeta.
  - cbn [app Enhanced.loadFrom]. unfold readFile. rewrite Hl.
    cbn. now rewrite spread_full.
  - rewrite <- app_comm_cons.
    rewrite LoadFacts.loadFrom_skip by (apply Hpre; now left).
    apply IH.
    + intros x Hx. apply Hpre. now right.
    + exact Hl.
Qed.

(** X4.  api/mac-auth-enhanced.js, saveToStorage then loadFromStorage:
    when some location accepts the write and no location before it in
    the search order holds or receives a snapshot, a module that starts
    from the files left behind loads exactly the store and the
    statistics that were saved, whatever it had in memory. *)
Theorem enhanced_save_then_load (now later : Z) (w cold : Enhanced.World)
    (pre post : list Enhanced.Loc) (l : Enhanced.Loc) :
  WellKeyed (Enhanced.macAddresses w) ->
  Enhanced.sources = (pre ++ l :: post)%list ->
  (forall x, In x pre ->
     EnhancedPersist.accepts (Enhanced.disk w) x = false
     /\ validEntries (content (Enhanced.disk w) x) = None) ->
  EnhancedPersist.accepts (Enhanced.disk w) l = true ->
  Enhanced.disk cold = Enhanced.disk (fst (Enhanced.saveToStorage now w)) ->
  let w' := Enhanced.loadFromStorage later cold in
  Enhanced.macAddresses w' = Enhanced.macAddresses w
  /\ Enhanced.statistics w' = Enhanced.statistics w
  /\ Enhanced.lastLoaded w' = Some later.
Proof.
  intros Hk Hsrc Hpre Hl Hdisk. cbv zeta.
  unfold Enhanced.loadFromStorage. rewrite Hsrc.
  destruct (enhanced_loadFrom_snapshot later pre l post
              (Enhanced.snapshot now w) cold) as (H1 & H2 & H3).
  - intros x Hx. rewrite Hdisk, EnhancedPersistFacts.save_content.
    destruct (Hpre x Hx) as [Ha Hv]. now rewrite Ha.
  - rewrite Hdisk, EnhancedPersistFacts.save_content. now rewrite Hl.
  - rewrite H1, H2, H3. split; [|split; reflexivity].
    simpl. now apply populate_values_back.
Qed.

Lemma enhanced_save_then_load_witness :
  Enhanced.macAddresses
    (Enhanced.loadFromStorage 2000
       (Enhanced.setDisk
          (Enhanced.disk (fst (Enhanced.saveToStorage 1000 Samples.usedWorld)))
          Enhanced.initial))
  = [(Samples.mac, Samples.usedLaptop)].
Proof.
  refine (proj1 (enhanced_save_then_load 1000 2000 Samples.usedWorld
                   (Enhanced.setDisk
                      (Enhanced.disk
                         (fst (Enhanced.saveToStorage 1000 Samples.usedWorld)))
                      Enhanced.initial)
                   [] [Enhanced.BACKUP; Enhanced.FALLBACK] Enhanced.PRIMARY
                   _ eq_refl _ eq_refl eq_refl)).
  - split; [constructor; [intros [] | constructor] | repeat constructor].
  - intros x [].
Defined.

Lemma basic_load_snapshot (w : Basic.World) entries st lu v :
  let p := JObj {| doc_macAddresses := Some entries;
                   doc_statistics := Some (fullStats st);
                   doc_lastUpdated := lu; doc_version := v |} in
  Basic.parseFile (content (Basic.disk w) Basic.DATA_FILE) = Some p
  \/ (Basic.parseFile (content (Basic.disk w) Basic.DATA_FILE) = None
      /\ content (Basic.disk w) Basic.BACKUP_FILE = Some (Json p)) ->
  Basic.macWhitelist (Basic.loadMACWhitelist w) = Enhanced.populate entries
  /\ Basic.statistics (Basic.loadMACWhitelist w) = st.
Proof.
  intros p H.
  unfold Basic.loadMACWhitelist, Basic.ensureDataDirectory, mkdir, readFile.
  cbn [fst snd record content].
  destruct H as [H|[H B]]; rewrite H.
  - unfold Basic.adopt. cbn. now rewrite spread_full.
  - rewrite B. cbn [Basic.parseFile].
    destruct (writeFile Basic.Loc_eqb Basic.DATA_FILE (Json p) _).
    unfold Basic.adopt. cbn. now rewrite spread_full.
Qed.

(** X5.  api/mac-auth.js, saveMACWhitelist then loadMACWhitelist: when
    the main data file accepts the write, or it can be neither written
    nor parsed and the backup file accepts the write, a module that
    starts from the files left behind loads exactly the whitelist and
    the statistics that were saved, whatever it had in memory. *)
Theorem basic_save_then_load (now : Z) (w cold : Basic.World) :
  WellKeyed (Basic.macWhitelist w) ->
  writable (Basic.disk w) Basic.DATA_FILE = true
  \/ (writable (Basic.disk w) Basic.DATA_FILE = false
      /\ Basic.parseFile (content (Basic.disk w) Basic.DATA_FILE) = None
      /\ writable (Basic.disk w) Basic.BACKUP_FILE = true) ->
  Basic.disk cold = Basic.disk (fst (Basic.saveMACWhitelist now w)) ->
  Basic.macWhitelist (Basic.loadMACWhitelist cold) = Basic.macWhitelist w
  /\ Basic.statistics (Basic.loadMACWhitelist cold) = Basic.statistics w.
Proof.
  intros Hk Hw Hdisk.
  destruct (basic_load_snapshot cold (JsMap.values (Basic.macWhitelist w))
              (Basic.statistics w) (Some now) (Some "1.0")) as [H1 H2].
  - rewrite Hdisk, !PersistFacts.basic_content.
    destruct Hw as [Hd|(Hd & Hp & Hb)]; rewrite Hd.
    + left. reflexivity.
    + right. rewrite Hb. split; [exact Hp | reflexivity].
  - rewrite H1, H2. split; [|reflexivity].
    now apply populate_values_back.
Qed.

Lemma basic_save_then_load_witness :
  Basic.macWhitelist
    (Basic.loadMACWhitelist
       (Basic.setDisk
          (Basic.disk (fst (Basic.saveMACWhitelist 1000 Samples.basicWorld)))
          Basic.initial))
  = [(Samples.mac, Samples.laptop)].
Proof.
  refine (proj1 (basic_save_then_load 1000 Samples.basicWorld
                   (Basic.setDisk
                      (Basic.disk
                         (fst (Basic.saveMACWhitelist 1000 Samples.basicWorld)))
                      Basic.initial)
                   _ (or_introl eq_refl) eq_refl)).
  split; [constructor; [intros [] | constructor] | repeat constructor].
Defined.

(** ** What loadMACWhitelist writes *)

(** X6.  loadMACWhitelist of api/mac-auth.js never changes the backup
    file; when the main data file is read and parsed it writes nothing;
    and when the main data file cannot be read or parsed while the
    backup can, it copies the backup over the main data file if that
    accepts the write. *)
Theorem basic_load_restores_main_file (w : Basic.World) :
  content (Basic.disk (Basic.loadMACWhitelist w)) Basic.BACKUP_FILE =
  content (Basic.disk w) Basic.BACKUP_FILE
  /\
  (forall p,
      Basic.parseFile (content (Basic.disk w) Basic.DATA_FILE) = Some p ->
      journal (Basic.disk (Basic.loadMACWhitelist w)) =
      (journal (Basic.disk w) ++
       [Mkdir (can_mkdir (Basic.disk w));
        ReadFile Basic.DATA_FILE true])%list)
  /\
  (forall raw p,
      Basic.parseFile (content (Basic.disk w) Basic.DATA_FILE) = None ->
      content (Basic.disk w) Basic.BACKUP_FILE = Some raw ->
      Basic.parseFile (Some raw) = Some p ->
      writable (Basic.disk w) Basic.DATA_FILE = true ->
      content (Basic.disk (Basic.loadMACWhitelist w)) Basic.DATA_FILE =
      Some raw).
Proof.
  assert (Hadopt : forall data x, Basic.disk (Basic.adopt data x) = Basic.disk x).
  { intros data x. unfold Basic.adopt.
    destruct data as [|d]; [reflexivity|].
    destruct (doc_macAddresses d); destruct (doc_statistics d); reflexivity. }
  unfold Basic.loadMACWhitelist, Basic.ensureDataDirectory, mkdir, readFile.
  cbn [fst snd record content].
  split; [|split].
  - destruct (Basic.parseFile (content (Basic.disk w) Basic.DATA_FILE));
      [now rewrite Hadopt|].
    destruct (content (Basic.disk w) Basic.BACKUP_FILE) as [[|p]|] eqn:B;
      cbn [Basic.parseFile];
      try (rewrite Hadopt; simpl; rewrite ?B; reflexivity).
    unfold writeFile. cbn [writable record content journal].
    destruct (writable (Basic.disk w) Basic.DATA_FILE);
      rewrite Hadopt; simpl; rewrite ?B; reflexivity.
  - intros p Hp. rewrite Hp, Hadopt. simpl.
    destruct (content (Basic.disk w) Basic.DATA_FILE); [|discriminate].
    now rewrite <- app_assoc.
  - intros raw p Hmain Hb Hp Hw. rewrite Hmain, Hb, Hp.
    unfold writeFile. cbn [writable record content journal].
    rewrite Hw, Hadopt. reflexivity.
Qed.

Lemma basic_load_restores_main_file_witness :
  content (Basic.disk (Basic.loadMACWhitelist brokenMain)) Basic.DATA_FILE
  = Some (savedLaptop "1.0").
Proof.
  refine (proj2 (proj2 (basic_load_restores_main_file brokenMain))
            (savedLaptop "1.0") _ eq_refl eq_refl eq_refl eq_refl).
Defined.

(** ** Adding twice, removing, and checking afterwards *)

Lemma delete_set_fresh (V : Type) (k : string) (v : V) (m : JsMap.t V) :
  JsMap.get k m = None -> JsMap.delete k (JsMap.set k v m) = m.
Proof.
  intros G. rewrite JsMapFacts.set_absent by exact G.
  unfold JsMap.delete. rewrite filter_app. simpl.
  rewrite String.eqb_refl. simpl. rewrite app_nil_r.
  apply JsMapFacts.delete_absent. now apply JsMapFacts.has_false_get.
Qed.

Section MutationFacts.
Variable World : Type.
Variable getStore : World -> Store.
Variable setStore : Store -> World -> World.
Variable save : Z -> World -> World * option bool.
Variable env : option string.

Hypothesis get_set : forall s w, getStore (setStore s w) = s.
Hypothesis save_keeps_store :
  forall now w, getStore (fst (save now w)) = getStore w.

Let check := handleCheckAccess getStore setStore save.
Let add := handleAddMAC getStore setStore save env.
Let remove := handleRemoveMAC getStore setStore save env.

(** Whether it answers 201 or 409, an add-mac request with a valid key
    and an address leaves the address in the store. *)
Lemma add_has now req w macAddress :
  validateAdminKey env (add_adminKey req) = true ->
  add_macAddress req = Some macAddress ->
  macAddress <> "" ->
  JsMap.has (Js.toLowerCase macAddress) (getStore (fst (add now req w))) = true.
Proof.
  intros Hkey Hmac Hne. unfold add, handleAddMAC.
  rewrite Hkey, Hmac. simpl.
  apply String.eqb_neq in Hne. rewrite Hne.
  destruct (JsMap.has (Js.toLowerCase macAddress) (getStore w)) eqn:E;
    [exact E|].
  after_save. rewrite save_keeps_store, get_set.
  apply JsMapFacts.has_set_same.
Qed.

Lemma add_present now req w macAddress :
  validateAdminKey env (add_adminKey req) = true ->
  add_macAddress req = Some macAddress ->
  macAddress <> "" ->
  JsMap.has (Js.toLowerCase macAddress) (getStore w) = true ->
  add now req w =
  (w, reply 409 false "MAC address already exists in whitelist" NoData).
Proof.
  intros Hkey Hmac Hne Hhas. unfold add, handleAddMAC.
  rewrite Hkey, Hmac. simpl.
  apply String.eqb_neq in Hne. now rewrite Hne, Hhas.
Qed.

Lemma remove_present now req w macAddress :
  validateAdminKey env (rem_adminKey req) = true ->
  rem_macAddress req = Some macAddress ->
  macAddress <> "" ->
  JsMap.has (Js.toLowerCase macAddress) (getStore w) = true ->
  status (snd (remove now req w)) = 200
  /\ success (snd (remove now req w)) = true
  /\ getStore (fst (remove now req w)) =
     JsMap.delete (Js.toLowerCase macAddress) (getStore w).
Proof.
  intros Hkey Hmac Hne Hhas. unfold remove, handleRemoveMAC.
  rewrite Hkey, Hmac. simpl.
  apply String.eqb_neq in Hne. rewrite Hne. simpl. rewrite Hhas. simpl.
  destruct (save now _) as [w' b] eqn:S.
  apply (f_equal fst) in S. cbn [fst] in S. subst w'. cbn [fst snd status success].
  repeat split. now rewrite save_keeps_store, get_set.
Qed.

(** A scan in which every candidate lowercases to an absent key finds
    nothing. *)
Lemma check_all_absent now deviceInfo candidates w :
  candidates <> [] ->
  (forall c, In c candidates ->
             JsMap.has (Js.toLowerCase c) (getStore w) = false) ->
  check now (checkRequest deviceInfo candidates) w =
  (w, reply 403 false "Device not authorized. MAC address not in whitelist."
        NullData).
Proof.
  intros Hne Habs. unfold check, handleCheckAccess. simpl.
  assert (F : findAuthorized (getStore w) candidates = None).
  { clear Hne. induction candidates as [|c r IH]; simpl; [reflexivity|].
    rewrite (Habs c (or_introl eq_refl)).
    apply IH. intros x Hx. apply Habs. now right. }
  rewrite F. destruct candidates; [contradiction | reflexivity].
Qed.

End MutationFacts.

Lemma same_key_nonempty m m' :
  m <> "" -> Js.toLowerCase m' = Js.toLowerCase m -> m' <> "".
Proof.
  intros Hne Hsame ->. simpl in Hsame.
  now apply (toLowerCase_nonempty m Hne).
Qed.




(** ** The listing *)

Lemma insertByAddedAt_perm e l : Permutation (insertByAddedAt e l) (e :: l).
Proof.
  induction l as [|x r IH]; simpl; [reflexivity|].
  destruct (addedAt x >? addedAt e); [|reflexivity].
  rewrite IH. apply perm_swap.
Qed.

Lemma sortByAddedAt_perm l : Permutation (sortByAddedAt l) l.
Proof.
  induction l as [|e r IH]; simpl; [reflexivity|].
  rewrite insertByAddedAt_perm. now constructor.
Qed.

Lemma insertByAddedAt_sorted e l :
  StronglySorted addedNoEarlier l ->
  StronglySorted addedNoEarlier (insertByAddedAt e l).
Proof.
  induction 1 as [|x r Hr IH Hx]; simpl.
  - repeat constructor.
  - destruct (addedAt x >? addedAt e) eqn:C.
    + constructor; [exact IH|].
      eapply Permutation_Forall; [symmetry; apply insertByAddedAt_perm|].
      constructor; [unfold addedNoEarlier; lia | exact Hx].
    + constructor; [now constructor|].
      constructor; [unfold addedNoEarlier; lia|].
      eapply Forall_impl; [|exact Hx].
      unfold addedNoEarlier. intros a Ha. lia.
Qed.

Lemma sortByAddedAt_sorted l : StronglySorted addedNoEarlier (sortByAddedAt l).
Proof.
  induction l as [|e r IH]; simpl; [constructor|].
  now apply insertByAddedAt_sorted.
Qed.

(** Entries with the same creation time keep the order of the store. *)
Lemma sortByAddedAt_constant l t :
  Forall (fun e => addedAt e = t) l -> sortByAddedAt l = l.
Proof.
  induction 1 as [|e r He Hr IH]; simpl; [reflexivity|].
  rewrite IH. destruct r as [|x r']; [reflexivity|]. simpl.
  inversion Hr; subst.
  destruct (addedAt x >? addedAt e) eqn:C; [|reflexivity].
  apply Z.gtb_lt in C. lia.
Qed.

Section ListingFacts.
Variable World : Type.
Variable getStore : World -> Store.
Variable getStatistics : World -> Statistics.
Variable setStatistics : Statistics -> World -> World.
Variable env : option string.

Hypothesis statistics_keep_store :
  forall st w, getStore (setStatistics st w) = getStore w.
Hypothesis get_set_statistics :
  forall st w, getStatistics (setStatistics st w) = st.

Lemma list_response now req w :
  validateAdminKey env (list_adminKey req) = true ->
  handleListMACs getStore getStatistics setStatistics env now req w =
  (setStatistics (updateStatistics now (getStore w)) w,
   reply 200 true "MAC addresses retrieved successfully"
     (ListData (sortByAddedAt (JsMap.values (getStore w)))
        (updateStatistics now (getStore w)))).
Proof.
  intros K. unfold handleListMACs. rewrite K. simpl.
  now rewrite statistics_keep_store, get_set_statistics.
Qed.

End ListingFacts.

(** X10.  In both Map-backed variants the list-macs answer to a valid
    key holds every entry of the store exactly once, ordered from the
    latest [addedAt] to the earliest, and the store itself is left as it
    was. *)
Theorem listing_is_sorted_newest_first :
  (forall (env : option string) (now : Z) (req : ListRequest)
          (w : Basic.World),
      validateAdminKey env (list_adminKey req) = true ->
      exists entries st,
        snd (Basic.handleListMACs env now req w) =
        reply 200 true "MAC addresses retrieved successfully"
          (ListData entries st)
        /\ Permutation entries (JsMap.values (Basic.macWhitelist w))
        /\ StronglySorted addedNoEarlier entries
        /\ Basic.macWhitelist (fst (Basic.handleListMACs env now req w)) =
           Basic.macWhitelist w)
  /\
  (forall (env : option string) (now : Z) (req : ListRequest)
          (w : Enhanced.World),
      validateAdminKey env (list_adminKey req) = true ->
      exists entries st,
        snd (Enhanced.handleListMACs env now req w) =
        reply 200 true "MAC addresses retrieved successfully"
          (ListData entries st)
        /\ Permutation entries (JsMap.values (Enhanced.macAddresses w))
        /\ StronglySorted addedNoEarlier entries
        /\ Enhanced.macAddresses (fst (Enhanced.handleListMACs env now req w)) =
           Enhanced.macAddresses w).
Proof.
  split; intros env now req w K.
  - unfold Basic.handleListMACs.
    rewrite (list_response _ Basic.getStore Basic.getStatistics
               Basic.setStatistics env basic_statistics_keep_store
               (fun _ _ => eq_refl) now req w K).
    eexists _, _. split; [reflexivity|].
    split; [apply sortByAddedAt_perm|].
    split; [apply sortByAddedAt_sorted | reflexivity].
  - unfold Enhanced.handleListMACs.
    rewrite (list_response _ Enhanced.getStore Enhanced.getStatistics
               Enhanced.setStatistics env enhanced_statistics_keep_store
               (fun _ _ => eq_refl) now req w K).
    eexists _, _. split; [reflexivity|].
    split; [apply sortByAddedAt_perm|].
    split; [apply sortByAddedAt_sorted | reflexivity].
Qed.

Lemma listing_is_sorted_newest_first_witness :
  exists entries st,
    snd (Basic.handleListMACs None 5000
           {| list_adminKey := Samples.key |} Samples.basicWorld) =
    reply 200 true "MAC addresses retrieved successfully"
      (ListData entries st)
    /\ Permutation entries [Samples.laptop].
Proof.
  destruct listing_is_sorted_newest_first as [HA _].
  destruct (HA None 5000 {| list_adminKey := Samples.key |}
              Samples.basicWorld eq_refl) as (entries & st & H1 & H2 & _).
  exists entries, st. split; [exact H1 | exact H2].
Defined.

(** ** Bounds of the statistics *)

Lemma countWhere_nonneg p l : 0 <= countWhere p l.
Proof. unfold countWhere. lia. Qed.

Lemma countWhere_le p q l :
  (forall e, p e = true -> q e = true) -> countWhere p l <= countWhere q l.
Proof.
  intros H. induction l as [|e r IH]; [reflexivity|].
  rewrite !countWhere_cons.
  destruct (p e) eqn:P; [rewrite (H e P); lia|].
  destruct (q e); lia.
Qed.

Lemma countWhere_disjoint p q l :
  (forall e, p e = true -> q e = false) ->
  countWhere p l + countWhere q l <= Z.of_nat (List.length l).
Proof.
  intros H. induction l as [|e r IH]; [reflexivity|].
  rewrite !countWhere_cons. simpl List.length.
  destruct (p e) eqn:P; [rewrite (H e P); lia|].
  destruct (q e); lia.
Qed.

(** X11.  updateStatistics, whatever the store and the clock: the counts
    are not negative, [total] is the number of entries, every entry
    active in the last 24 hours is active in the last 7 days, and no
    entry is counted both as active and as never used. *)
Theorem statistics_bounds (now : Z) (store : Store) :
  let st := updateStatistics now store in
  total st = JsMap.size store
  /\ 0 <= activeLast24h st <= activeLast7d st
  /\ 0 <= neverUsed st
  /\ activeLast7d st + neverUsed st <= total st.
Proof.
  cbv zeta. rewrite updateStatistics_derived. simpl.
  split; [|split; [|split]].
  - unfold JsMap.size, JsMap.values. now rewrite length_map.
  - split; [apply countWhere_nonneg|].
    apply countWhere_le. intros e. unfold activeSince, day, week.
    destruct (seenAt e =? 0); simpl; [discriminate|].
    intros H. apply Z.gtb_lt in H. apply Z.gtb_lt. lia.
  - apply countWhere_nonneg.
  - apply countWhere_disjoint. intros e. unfold activeSince, neverSeen.
    destruct (seenAt e =? 0); simpl; [discriminate | reflexivity].
Qed.

(** ** The admin key *)

Lemma orElse_nonempty o d : d <> "" -> Js.orElse o d <> "".
Proof.
  intros Hd. unfold Js.orElse. destruct o as [x|]; [|exact Hd].
  destruct (x =? "")%string eqn:E; [exact Hd|].
  now apply String.eqb_neq.
Qed.

(** X12.  Whatever ADMIN_SECRET_KEY is set to, none of the three
    variants accepts a request without an admin key or with the empty
    string as key, and setting the variable to the empty string is the
    same as not setting it: the built-in default key is then the key. *)
Theorem admin_key_is_never_empty (env : option string) :
  validateAdminKey env None = false
  /\ validateAdminKey env (Some "") = false
  /\ (forall k, validateAdminKey (Some "") k = validateAdminKey None k)
  /\ DatabaseApi.verifyAdminKey None (DatabaseApi.requiredAdminKey env) = false
  /\ DatabaseApi.verifyAdminKey (Some "") (DatabaseApi.requiredAdminKey env)
     = false
  /\ (forall k,
        DatabaseApi.verifyAdminKey k (DatabaseApi.requiredAdminKey (Some "")) =
        DatabaseApi.verifyAdminKey k (DatabaseApi.requiredAdminKey None)).
Proof.
  split; [reflexivity|]. split; [|split; [reflexivity|]].
  - unfold validateAdminKey.
    destruct ("" =? Js.orElse env "default-admin-key-change-this")%string eqn:E;
      [|reflexivity].
    apply String.eqb_eq in E. symmetry in E.
    now apply orElse_nonempty in E.
  - split; [reflexivity|]. split; reflexivity.
Qed.

(** ** The health check *)

(** X13.  The health action of api/mac-auth-enhanced.js always reports
    an initialised module, since the handler initialises storage before
    it looks at the action, and it reports the number of entries and the
    load time of the state it leaves; on a module that is already
    initialised it changes nothing and reads no file. *)
Theorem health_check_reports_initialized (env : option string) (now : Z)
    (w : Enhanced.World) :
  exists r,
    snd (Enhanced.handler env now None w) = inl r
    /\ Enhanced.health_initialized r = true
    /\ Enhanced.health_totalMACs r =
       JsMap.size (Enhanced.macAddresses (fst (Enhanced.handler env now None w)))
    /\ Enhanced.health_lastLoaded r =
       Enhanced.lastLoaded (fst (Enhanced.handler env now None w))
    /\ (Enhanced.initialized w = true ->
        fst (Enhanced.handler env now None w) = w).
Proof.
  unfold Enhanced.handler, Enhanced.handleHealthCheck. cbn [fst snd].
  eexists. split; [reflexivity|]. cbn.
  split; [apply initializeStorage_initialized|].
  split; [reflexivity|]. split; [reflexivity|].
  intros Hi. unfold Enhanced.initializeStorage. now rewrite Hi.
Qed.

Lemma health_check_reports_initialized_witness :
  fst (Enhanced.handler None 2000 None runningWorld) = runningWorld.
Proof.
  destruct (health_check_reports_initialized None 2000 runningWorld)
    as (r & _ & _ & _ & _ & H).
  exact (H eq_refl).
Defined.

(** ** [MACDatabase]: what the methods do to the files *)

Module DatabaseFiles.
Import Database.

Lemma KeptOrWritten_counted now w w' :
  KeptOrWritten now w w' -> Counted w -> Counted w'.
Proof.
  unfold Counted. intros [->|[data ->]] H; [exact H | reflexivity].
Qed.

Lemma write_file now data w :
  macFile (fst (writeDatabase now data w)) =
  (if macFile_writable w then Some (Holds (stamp now data)) else macFile w)
  /\ logFile (fst (writeDatabase now data w)) = logFile w
  /\ macFile_writable (fst (writeDatabase now data w)) = macFile_writable w
  /\ logFile_writable (fst (writeDatabase now data w)) = logFile_writable w.
Proof.
  unfold writeDatabase. destruct (macFile_writable w) eqn:E; cbn; auto.
Qed.

Section Methods.
Variable randomUUID : nat -> string.

(** logAccess touches the log file only. *)
Lemma log_keeps_database now macAddress deviceInfo ok msg w :
  let w' := logAccess randomUUID now macAddress deviceInfo ok msg w in
  macFile w' = macFile w /\ macFile_writable w' = macFile_writable w
  /\ logFile_writable w' = logFile_writable w.
Proof.
  unfold logAccess, draw, record. cbn.
  destruct (logFile_writable w) eqn:E; cbn; auto.
Qed.

Lemma add_file now macAddress description accessType w :
  let r := addMACAddress randomUUID now macAddress description accessType w in
  logFile (fst r) = logFile w
  /\ (success (snd r) = false -> macFile (fst r) = macFile w)
  /\ KeptOrWritten now w (fst r).
Proof.
  unfold addMACAddress, KeptOrWritten.
  rewrite (surjective_pairing (readDatabase now w)).
  rewrite DatabaseFacts.readDatabase_world.
  destruct (JsMap.has _ _ || negb _); [cbn; auto|].
  unfold draw, writeDatabase, record. cbn.
  destruct (macFile_writable w) eqn:E; cbn.
  - split; [reflexivity|]. split; [discriminate|]. right. eexists. reflexivity.
  - auto.
Qed.

Lemma update_file now macAddress tier w :
  let r := updateMACAccess now macAddress tier w in
  logFile (fst r) = logFile w
  /\ (success (snd r) = false -> macFile (fst r) = macFile w)
  /\ KeptOrWritten now w (fst r).
Proof.
  unfold updateMACAccess, KeptOrWritten.
  rewrite (surjective_pairing (readDatabase now w)).
  rewrite DatabaseFacts.readDatabase_world.
  destruct (JsMap.get _ _); [|cbn; auto].
  unfold writeDatabase, record. cbn.
  destruct (macFile_writable w) eqn:E; cbn.
  - split; [reflexivity|]. split; [discriminate|]. right. eexists. reflexivity.
  - auto.
Qed.

Lemma remove_file now macAddress w :
  let r := removeMACAddress now macAddress w in
  logFile (fst r) = logFile w
  /\ (success (snd r) = false -> macFile (fst r) = macFile w)
  /\ KeptOrWritten now w (fst r).
Proof.
  unfold removeMACAddress, KeptOrWritten.
  rewrite (surjective_pairing (readDatabase now w)).
  rewrite DatabaseFacts.readDatabase_world.
  destruct (JsMap.get _ _); [|cbn; auto].
  unfold writeDatabase, record. cbn.
  destruct (macFile_writable w) eqn:E; cbn.
  - split; [reflexivity|]. split; [discriminate|]. right. eexists. reflexivity.
  - auto.
Qed.

Lemma list_file now w :
  onDisk (fst (listMACAddresses now w)) = onDisk w.
Proof.
  unfold listMACAddresses.
  rewrite (surjective_pairing (readDatabase now w)).
  rewrite DatabaseFacts.readDatabase_world. reflexivity.
Qed.

Lemma check_file now candidates deviceInfo w :
  let r := checkAccess randomUUID now candidates deviceInfo w in
  (success (snd r) = false -> macFile (fst r) = macFile w)
  /\ KeptOrWritten now w (fst r).
Proof.
  unfold checkAccess, KeptOrWritten.
  rewrite (surjective_pairing (readDatabase now w)).
  rewrite DatabaseFacts.readDatabase_world.
  destruct (findEntry _ candidates) as [[k e]|].
  - rewrite (surjective_pairing (writeDatabase _ _ _)). cbn [fst snd success].
    split; [discriminate|].
    destruct (log_keeps_database now k deviceInfo true "Access granted"
                (fst (writeDatabase now
                        (countAccess
                           (withMacAddresses
                              (JsMap.set k (touch now deviceInfo e)
                                 (macAddresses (snd (readDatabase now w))))
                              (snd (readDatabase now w))))
                        (record (ReadDatabase
                                   match macFile w with
                                   | Some (Holds _) => true
                                   | _ => false
                                   end) w)))) as (-> & _).
    unfold writeDatabase, record. cbn.
    destruct (macFile_writable w); cbn; [right; eexists; reflexivity | auto].
  - cbn [fst snd].
    destruct (log_keeps_database now (firstOrUnknown candidates) deviceInfo
                false "MAC address not whitelisted"
                (record (ReadDatabase
                           match macFile w with
                           | Some (Holds _) => true
                           | _ => false
                           end) w)) as (-> & _).
    auto.
Qed.

Lemma bulkStep_onDisk now s item s' :
  bulkStep randomUUID now s item = Some s' ->
  onDisk (bulk_world s') = onDisk (bulk_world s).
Proof.
  unfold bulkStep. destruct (item_macAddress item); [|discriminate].
  destruct (JsMap.get _ _); intros H; inversion H; reflexivity.
Qed.

Lemma bulkLoop_onDisk now items s s' :
  bulkLoop randomUUID now items s = Some s' ->
  onDisk (bulk_world s') = onDisk (bulk_world s).
Proof.
  revert s. induction items as [|item rest IH]; intros s; simpl.
  - intros H; now inversion H.
  - destruct (bulkStep randomUUID now s item) as [s1|] eqn:E; [|discriminate].
    intros H. rewrite (IH _ H). now apply bulkStep_onDisk in E.
Qed.

Lemma bulk_file now items w :
  let r := bulkAddMACs randomUUID now items w in
  logFile (fst r) = logFile w
  /\ (report_success (snd r) = false -> macFile (fst r) = macFile w)
  /\ KeptOrWritten now w (fst r).
Proof.
  unfold bulkAddMACs, KeptOrWritten.
  rewrite (surjective_pairing (readDatabase now w)).
  rewrite DatabaseFacts.readDatabase_world.
  destruct (bulkLoop _ _ _ _) as [s|] eqn:L; [|cbn; auto].
  apply bulkLoop_onDisk in L. unfold onDisk in L. cbn in L.
  injection L as L1 L2 L3 L4.
  unfold writeDatabase, record. rewrite L2.
  destruct (macFile_writable w) eqn:E; cbn.
  - split; [exact L3|]. split; [discriminate|]. right. eexists. reflexivity.
  - auto.
Qed.

End Methods.
End DatabaseFiles.

(** ** The handler over the database: what reaches the files *)

Module DatabaseApiFacts.
Import DatabaseApi.

Lemma Guarded_rejected now d st : st <> 200 -> Guarded now d d st.
Proof.
  intros _. split; [left; reflexivity|]. split; [now split | reflexivity].
Qed.

Lemma Guarded_answered now d d' (ok : bool) :
  Database.logFile d' = Database.logFile d ->
  (ok = false -> Database.macFile d' = Database.macFile d) ->
  KeptOrWritten now d d' ->
  Guarded now d d' (statusOf ok).
Proof.
  intros Hl Hf Hk. split; [exact Hk|]. split.
  - destruct ok; simpl; [congruence|]. intros _. split; [now apply Hf | exact Hl].
  - destruct ok; simpl; intros [H|[H|[H|[]]]]; discriminate.
Qed.

Ltac rejected :=
  cbn [fst snd status macDB reject unauthorized];
  apply Guarded_rejected; discriminate.

Section Api.
Variable randomUUID : nat -> string.
Variable env : option string.

Lemma check_guarded now method req ip w :
  let r := handleCheckAccess randomUUID now method req ip w in
  Guarded now (macDB w) (macDB (fst r)) (status (snd r)).
Proof.
  unfold handleCheckAccess.
  destruct (negb (method =? "POST")%string); [rejected|].
  destruct (chk_macAddresses req) as [[|c l]|]; try rejected.
  destruct (chk_deviceInfo req) as [dev|]; [|rejected].
  destruct (find _ (c :: l)); [rejected|].
  pose proof (DatabaseFiles.check_file randomUUID now (c :: l)
                (withClientIP ip dev) (macDB w)) as H.
  destruct (Database.checkAccess _ _ _ _ _) as [d result].
  cbn in H |- *. destruct H as [_ Hk].
  split; [exact Hk|]. split; [congruence|].
  intros [H|[H|[H|[]]]]; discriminate.
Qed.

Lemma add_guarded now method req w :
  let r := handleAddMAC randomUUID env now method req w in
  Guarded now (macDB w) (macDB (fst r)) (status (snd r)).
Proof.
  unfold handleAddMAC.
  destruct (negb (method =? "POST")%string); [rejected|].
  destruct (negb (verifyAdminKey _ _)); [rejected|].
  destruct (negb (Js.truthy (add_macAddress req))
            || negb (Js.truthy (add_description req))); [rejected|].
  destruct (add_macAddress req) as [m|]; [|rejected].
  destruct (add_description req) as [desc|]; [|rejected].
  destruct (negb (Database.validateMACAddress m)); [rejected|].
  destruct (negb (Js.includes validAccessTypes _)); [rejected|].
  match goal with
  | |- context [Database.addMACAddress ?u ?n ?a ?b ?c ?x] =>
      pose proof (DatabaseFiles.add_file u n a b c x) as H;
      destruct (Database.addMACAddress u n a b c x) as [d result]
  end.
  cbn in H |- *. destruct H as (H1 & H2 & H3).
  now apply Guarded_answered.
Qed.

Lemma update_guarded now method req w :
  let r := handleUpdateAccess env now method req w in
  Guarded now (macDB w) (macDB (fst r)) (status (snd r)).
Proof.
  unfold handleUpdateAccess.
  destruct (negb (method =? "POST")%string); [rejected|].
  destruct (negb (verifyAdminKey _ _)); [rejected|].
  destruct (negb (Js.truthy (upd_macAddress req))
            || negb (Js.truthy (upd_accessType req))); [rejected|].
  destruct (upd_macAddress req) as [m|]; [|rejected].
  destruct (upd_accessType req) as [tier|]; [|rejected].
  destruct (negb (Database.validateMACAddress m)); [rejected|].
  destruct (negb (Js.includes validAccessTypes _)); [rejected|].
  pose proof (DatabaseFiles.update_file now m tier (macDB w)) as H.
  destruct (Database.updateMACAccess now m tier (macDB w)) as [d result].
  cbn in H |- *. destruct H as (H1 & H2 & H3).
  now apply Guarded_answered.
Qed.

Lemma remove_guarded now method req w :
  let r := handleRemoveMAC env now method req w in
  Guarded now (macDB w) (macDB (fst r)) (status (snd r)).
Proof.
  unfold handleRemoveMAC.
  destruct (negb (method =? "DELETE")%string); [rejected|].
  destruct (negb (verifyAdminKey _ _)); [rejected|].
  destruct (rem_macAddress req) as [m|]; [|rejected].
  destruct (m =? "")%string; [rejected|].
  destruct (negb (Database.validateMACAddress m)); [rejected|].
  pose proof (DatabaseFiles.remove_file now m (macDB w)) as H.
  destruct (Database.removeMACAddress now m (macDB w)) as [d result].
  cbn in H |- *. destruct H as (H1 & H2 & H3).
  now apply Guarded_answered.
Qed.

Lemma list_guarded now method req w :
  let r := handleListMACs env now method req w in
  Guarded now (macDB w) (macDB (fst r)) (status (snd r)).
Proof.
  unfold handleListMACs.
  destruct (negb (method =? "POST")%string); [rejected|].
  destruct (negb (verifyAdminKey _ _)); [rejected|].
  pose proof (DatabaseFiles.list_file now (macDB w)) as H.
  destruct (Database.listMACAddresses now (macDB w)) as [d listing].
  cbn in H |- *. unfold onDisk in H. injection H as H1 H2 H3 H4.
  split; [now left|]. split; [congruence|].
  intros [H|[H|[H|[]]]]; discriminate.
Qed.

Lemma bulk_guarded now method req w :
  let r := handleBulkAdd randomUUID env now method req w in
  Guarded now (macDB w) (macDB (fst r)) (status (snd r)).
Proof.
  unfold handleBulkAdd.
  destruct (negb (method =? "POST")%string); [rejected|].
  destruct (negb (verifyAdminKey _ _)); [rejected|].
  destruct (bulk_macAddresses req) as [[|i l]|]; try rejected.
  destruct (firstInvalid (i :: l)); [rejected|].
  pose proof (DatabaseFiles.bulk_file randomUUID now (i :: l) (macDB w)) as H.
  destruct (Database.bulkAddMACs randomUUID now (i :: l) (macDB w))
    as [d report].
  cbn in H |- *. destruct H as (H1 & H2 & H3).
  now apply Guarded_answered.
Qed.

Lemma handler_guarded now req w :
  let r := handler randomUUID env now req w in
  Guarded now (macDB w) (macDB (fst r)) (status (snd r)).
Proof.
  unfold handler.
  destruct (method req =? "OPTIONS")%string.
  - cbn. split; [now left|]. split; [congruence|].
    intros [H|[H|[H|[]]]]; discriminate.
  - destruct (checkRateLimit now (clientIPOf req) (rateLimitStore w))
      as [limits allowed].
    destruct allowed; cbn [negb]; [|rejected].
    destruct (action req) as [b|b|b|b|b|b|].
    + apply (check_guarded now (method req) b (clientIPOf req)
               (setLimits limits w)).
    + apply (add_guarded now (method req) b (setLimits limits w)).
    + apply (update_guarded now (method req) b (setLimits limits w)).
    + apply (remove_guarded now (method req) b (setLimits limits w)).
    + apply (list_guarded now (method req) b (setLimits limits w)).
    + apply (bulk_guarded now (method req) b (setLimits limits w)).
    + rejected.
Qed.

End Api.
End DatabaseApiFacts.

(** X14.  The handler over the database: an answer other than 200
    leaves the database file and the access log as they were, and an
    answer of 401, 405 or 429 is given before the database is called at
    all, so that nothing is read either. *)
Theorem database_handler_guards_files (randomUUID : nat -> string)
    (env : option string) (now : Z) (req : DatabaseApi.Req)
    (w : DatabaseApi.World) :
  let r := DatabaseApi.handler randomUUID env now req w in
  (DatabaseApi.status (snd r) <> 200 ->
   Database.macFile (DatabaseApi.macDB (fst r)) =
   Database.macFile (DatabaseApi.macDB w)
   /\ Database.logFile (DatabaseApi.macDB (fst r)) =
      Database.logFile (DatabaseApi.macDB w))
  /\ (In (DatabaseApi.status (snd r)) [401; 405; 429] ->
      DatabaseApi.macDB (fst r) = DatabaseApi.macDB w).
Proof.
  destruct (DatabaseApiFacts.handler_guarded randomUUID env now req w)
    as (_ & H2 & H3).
  split; assumption.
Qed.

Lemma database_handler_guards_files_witness :
  DatabaseApi.status
    (snd (DatabaseApi.handler sampleUUID None 1000 foreignKeyAdd
            DatabaseApi.initial)) = 401
  /\ DatabaseApi.macDB
       (fst (DatabaseApi.handler sampleUUID None 1000 foreignKeyAdd
               DatabaseApi.initial)) = Database.emptyWorld.
Proof.
  split; [reflexivity|].
  exact (proj2 (database_handler_guards_files sampleUUID None 1000
                  foreignKeyAdd DatabaseApi.initial)
           (or_introl eq_refl)).
Defined.

(** X15.  The handler over the database keeps the device count of the
    database file right: if the file, when it parses, has
    [statistics.totalDevices] equal to its number of entries, it still
    has after any request, whatever the request and its outcome. *)
Theorem database_file_counts_its_entries (randomUUID : nat -> string)
    (env : option string) (now : Z) (req : DatabaseApi.Req)
    (w : DatabaseApi.World) :
  Counted (DatabaseApi.macDB w) ->
  Counted
    (DatabaseApi.macDB (fst (DatabaseApi.handler randomUUID env now req w))).
Proof.
  destruct (DatabaseApiFacts.handler_guarded randomUUID env now req w)
    as (H1 & _).
  now apply DatabaseFiles.KeptOrWritten_counted with (now := now).
Qed.

Lemma database_file_counts_its_entries_witness :
  Counted
    (DatabaseApi.macDB
       (fst (DatabaseApi.handler sampleUUID None 1000 properAdd
               DatabaseApi.initial)))
  /\ Database.stored
       (DatabaseApi.macDB
          (fst (DatabaseApi.handler sampleUUID None 1000 properAdd
                  DatabaseApi.initial)))
     <> [].
Proof.
  split.
  - exact (database_file_counts_its_entries sampleUUID None 1000 properAdd
             DatabaseApi.initial I).
  - discriminate.
Defined.

(** ** The limiter *)

Module LimiterFacts.
Import DatabaseApi.

Lemma checkRateLimit_other now identifier other store :
  other <> identifier ->
  JsMap.get other (fst (checkRateLimit now identifier store)) =
  JsMap.get other store.
Proof.
  intros Hne. unfold checkRateLimit.
  destruct (JsMap.get identifier store) as [e|]; cbn [fst].
  - destruct (now >? resetTime e); cbn [fst];
      [now apply JsMapFacts.get_set_other|].
    destruct (count e >=? RATE_LIMIT); cbn [fst]; [reflexivity|].
    now apply JsMapFacts.get_set_other.
  - now apply JsMapFacts.get_set_other.
Qed.

(** Within the window of an entry that has [k] requests left, the next
    [k] calls pass and all further ones are refused. *)
Lemma limitRun_within identifier times :
  forall store (k : nat) T,
    JsMap.get identifier store =
      Some {| count := RATE_LIMIT - Z.of_nat k; resetTime := T |} ->
    (forall t, In t times -> t <= T) ->
    snd (limitRun identifier times store) =
      (repeat true (Nat.min (List.length times) k)
       ++ repeat false (List.length times - k))%list
    /\ JsMap.get identifier (fst (limitRun identifier times store)) =
       Some {| count := RATE_LIMIT
                        - Z.of_nat (k - Nat.min (List.length times) k);
               resetTime := T |}
    /\ (forall other, other <> identifier ->
          JsMap.get other (fst (limitRun identifier times store)) =
          JsMap.get other store).
Proof.
  induction times as [|t rest IH]; intros store k T G Hin.
  - cbn. rewrite Nat.sub_0_r. auto.
  - cbn [limitRun]. unfold checkRateLimit. rewrite G. cbn [resetTime count].
    assert (Ht : (t >? T) = false).
    { destruct (t >? T) eqn:C; [|reflexivity].
      apply Z.gtb_lt in C. specialize (Hin t (or_introl eq_refl)). lia. }
    rewrite Ht.
    destruct k as [|k'].
    + replace (RATE_LIMIT - Z.of_nat 0 >=? RATE_LIMIT) with true
        by (unfold RATE_LIMIT; reflexivity).
      destruct (IH store O T G (fun x Hx => Hin x (or_intror Hx)))
        as (H1 & H2 & H3).
      destruct (limitRun identifier rest store) as [s' oks].
      cbn [fst snd] in *. rewrite H1.
      rewrite Nat.min_0_r in *. cbn. rewrite Nat.sub_0_r. auto.
    + assert (Hc : (RATE_LIMIT - Z.of_nat (S k') >=? RATE_LIMIT) = false).
      { rewrite Z.geb_leb. apply Z.leb_gt. lia. }
      rewrite Hc.
      set (store1 := JsMap.set identifier _ store).
      assert (G1 : JsMap.get identifier store1 =
                   Some {| count := RATE_LIMIT - Z.of_nat k';
                           resetTime := T |}).
      { unfold store1. rewrite JsMapFacts.get_set_same.
        do 2 f_equal. lia. }
      destruct (IH store1 k' T G1 (fun x Hx => Hin x (or_intror Hx)))
        as (H1 & H2 & H3).
      destruct (limitRun identifier rest store1) as [s' oks].
      cbn [fst snd] in *. rewrite H1. cbn [List.length Nat.min Nat.sub].
      split; [reflexivity|]. split; [exact H2|].
      intros other Hne. rewrite (H3 other Hne).
      unfold store1. now apply JsMapFacts.get_set_other.
Qed.

End LimiterFacts.

(** X16.  The limiter of the handler over the database: of the requests
    a client makes from its first one until the window of that first
    request ends, exactly the first 60 pass and every later one is
    refused; a request after the window has ended passes again; and the
    entries of other clients are not touched. *)
Theorem rate_limit_allows_sixty_per_window (identifier : string) (t0 : Z)
    (rest : list Z) (store : JsMap.t DatabaseApi.RateEntry) :
  JsMap.get identifier store = None ->
  (forall t, In t rest -> t <= t0 + DatabaseApi.RATE_LIMIT_WINDOW) ->
  let r := limitRun identifier (t0 :: rest) store in
  snd r = (repeat true (Nat.min (S (List.length rest)) 60)
           ++ repeat false (S (List.length rest) - 60))%list
  /\ (forall later,
        later > t0 + DatabaseApi.RATE_LIMIT_WINDOW ->
        snd (DatabaseApi.checkRateLimit later identifier (fst r)) = true)
  /\ (forall other, other <> identifier ->
        JsMap.get other (fst r) = JsMap.get other store).
Proof.
  intros G Hin. cbv zeta. cbn [limitRun].
  unfold DatabaseApi.checkRateLimit at 1 3 4. rewrite G.
  set (store1 := JsMap.set identifier _ store).
  assert (G1 : JsMap.get identifier store1 =
               Some {| DatabaseApi.count :=
                         DatabaseApi.RATE_LIMIT - Z.of_nat 59;
                       DatabaseApi.resetTime :=
                         t0 + DatabaseApi.RATE_LIMIT_WINDOW |}).
  { unfold store1. now rewrite JsMapFacts.get_set_same. }
  destruct (LimiterFacts.limitRun_within identifier rest store1 59
              (t0 + DatabaseApi.RATE_LIMIT_WINDOW) G1 Hin) as (H1 & H2 & H3).
  destruct (limitRun identifier rest store1) as [s' oks].
  cbn [fst snd] in *. split; [|split].
  - rewrite H1. reflexivity.
  - intros later Hl. unfold DatabaseApi.checkRateLimit. rewrite H2.
    cbn [DatabaseApi.resetTime].
    replace (later >? t0 + DatabaseApi.RATE_LIMIT_WINDOW) with true;
      [reflexivity|].
    symmetry. apply Z.gtb_lt. lia.
  - intros other Hne. rewrite (H3 other Hne).
    unfold store1. now apply JsMapFacts.get_set_other.
Qed.

Lemma rate_limit_allows_sixty_per_window_witness :
  snd (limitRun "198.51.100.4" (1000 :: repeat 2000 61) JsMap.clear) =
  (repeat true 60 ++ [false; false])%list.
Proof.
  refine (proj1 (rate_limit_allows_sixty_per_window "198.51.100.4" 1000
                   (repeat 2000 61) JsMap.clear eq_refl _)).
  intros t Ht. apply repeat_spec in Ht. subst t. vm_compute. discriminate.
Defined.

(** ** The address pattern *)

Lemma isHex_lowerChar c : Database.isHex (Js.lowerChar c) = Database.isHex c.
Proof. destruct c as [[] [] [] [] [] [] [] []]; reflexivity. Qed.

Lemma isSeparator_lowerChar c :
  Database.isSeparator (Js.lowerChar c) = Database.isSeparator c.
Proof. destruct c as [[] [] [] [] [] [] [] []]; reflexivity. Qed.

Lemma macGroups_toLowerCase n s :
  Database.macGroups n (Js.toLowerCase s) = Database.macGroups n s.
Proof.
  revert s. induction n as [|n IH]; intros s.
  - destruct s as [|a [|b [|c r]]]; try reflexivity.
    cbn [Js.toLowerCase Database.macGroups].
    now rewrite !isHex_lowerChar.
  - destruct s as [|a [|b [|c r]]]; try reflexivity.
    cbn [Js.toLowerCase Database.macGroups].
    now rewrite !isHex_lowerChar, isSeparator_lowerChar, IH.
Qed.

(** X17.  validateMACAddress of the handler over the database does not
    depend on letter case, so the key under which MACDatabase files an
    accepted address is itself an accepted address; an accepted address
    has 17 characters, and its key is never the name of a member of
    [Object.prototype]. *)
Theorem valid_address_normal_form (s : string) :
  Database.validateMACAddress (Js.toLowerCase s) = Database.validateMACAddress s
  /\ (Database.validateMACAddress s = true ->
      String.length s = 17%nat
      /\ Database.own_property_only (Js.toLowerCase s) = true).
Proof.
  split; [apply macGroups_toLowerCase|].
  intros H. split.
  - exact (DatabaseFacts.macGroups_length 5 s H).
  - now apply DatabaseFacts.valid_mac_own_property.
Qed.

Lemma valid_address_normal_form_witness :
  String.length Samples.MAC = 17%nat
  /\ Database.own_property_only (Js.toLowerCase Samples.MAC) = true.
Proof.
  exact (proj2 (valid_address_normal_form Samples.MAC) eq_refl).
Defined.

(** ** The access log *)

(** X19.  logAccess of MACDatabase, when the log can be written: the
    new event is appended, only as many of the oldest events are dropped
    as are needed to keep at most 500, nothing is dropped from a log
    that held fewer than 500, and the database file is not touched. *)
Theorem access_log_is_capped (randomUUID : nat -> string) (now : Z)
    (macAddress : string) (deviceInfo : DeviceInfo) (ok : bool)
    (msg : string) (w : Database.World) :
  Database.logFile_writable w = true ->
  let w' := Database.logAccess randomUUID now macAddress deviceInfo ok msg w in
  let event :=
    {| Database.log_timestamp := now;
       Database.log_macAddress := macAddress;
       Database.log_deviceInfo := deviceSnapshot deviceInfo;
       Database.log_success := ok;
       Database.log_message := msg;
       Database.log_id := randomUUID (Database.drawn w) |} in
  loggedEvents w' =
    (skipn (List.length (loggedEvents w) + 1 - 500) (loggedEvents w)
     ++ [event])%list
  /\ (List.length (loggedEvents w') <= 500)%nat
  /\ Database.macFile w' = Database.macFile w.
Proof.
  intros Hw. cbv zeta.
  unfold Database.logAccess, Database.draw, Database.record.
  cbn -[Nat.ltb Database.lastN].
  rewrite Hw. unfold loggedEvents. cbn -[Nat.ltb Database.lastN].
  set (old := match Database.logFile w with
              | Some (Database.Holds l) => l
              | _ => []
              end).
  replace (match Database.logFile w with
           | Some (Database.Holds l) => l
           | Some Database.Unparseable | None => []
           end) with old
    by (unfold old; destruct (Database.logFile w) as [[|l]|]; reflexivity).
  rewrite length_app. cbn [List.length].
  destruct (Nat.ltb 500 (List.length old + 1)) eqn:C.
  - apply Nat.ltb_lt in C. unfold Database.lastN.
    rewrite length_app. cbn [List.length].
    rewrite skipn_app.
    replace (List.length old + 1 - 500 - List.length old)%nat with O by lia.
    cbn [skipn]. split; [reflexivity|]. split; [|reflexivity].
    rewrite length_app, length_skipn. cbn [List.length]. lia.
  - apply Nat.ltb_ge in C.
    replace (List.length old + 1 - 500)%nat with O by lia.
    cbn [skipn]. split; [reflexivity|]. split; [|reflexivity].
    rewrite length_app. cbn [List.length]. lia.
Qed.

Lemma access_log_is_capped_witness :
  loggedEvents
    (Database.logAccess sampleUUID 2000 Samples.mac Samples.device true
       "Access granted" listedWorld)
  = [{| Database.log_timestamp := 2000;
        Database.log_macAddress := Samples.mac;
        Database.log_deviceInfo := deviceSnapshot Samples.device;
        Database.log_success := true;
        Database.log_message := "Access granted";
        Database.log_id := "id-1" |}].
Proof.
  exact (proj1 (access_log_is_capped sampleUUID 2000 Samples.mac
                  Samples.device true "Access granted" listedWorld eq_refl)).
Defined.

(** ** check-access over the database *)

Lemma find_invalid (macs : list string) bad :
  In bad macs -> Database.validateMACAddress bad = false ->
  exists mac,
    find (fun m => negb (Database.validateMACAddress m)) macs = Some mac
    /\ Database.validateMACAddress mac = false.
Proof.
  intros Hin Hbad.
  destruct (find (fun m => negb (Database.validateMACAddress m)) macs)
    as [mac|] eqn:F.
  - exists mac. split; [reflexivity|].
    apply find_some in F. destruct F as [_ F].
    now apply negb_true_iff in F.
  - apply (find_none _ _ F) in Hin. rewrite Hbad in Hin. discriminate.
Qed.

Lemma find_all_valid (macs : list string) :
  forallb Database.validateMACAddress macs = true ->
  find (fun m => negb (Database.validateMACAddress m)) macs = None.
Proof.
  induction macs as [|m r IH]; simpl; [reflexivity|].
  intros H. apply andb_true_iff in H. destruct H as [Hm Hr].
  rewrite Hm. simpl. now apply IH.
Qed.

(** X18.  handleCheckAccess over the database, for a POST request with
    device information: when every candidate matches the address
    pattern the answer is 200 whether or not the device is authorized,
    and its body is what MACDatabase.checkAccess returns for the device
    information with the client address attached; when one candidate
    does not match, the answer is 400 and the database is not called,
    even if another candidate is whitelisted. *)
Theorem database_check_access_status (randomUUID : nat -> string) (now : Z)
    (req : CheckRequest) (ip : string) (w : DatabaseApi.World)
    (macs : list string) (dev : DeviceInfo) :
  chk_macAddresses req = Some macs -> macs <> [] ->
  chk_deviceInfo req = Some dev ->
  let r := DatabaseApi.handleCheckAccess randomUUID now "POST" req ip w in
  (forallb Database.validateMACAddress macs = true ->
   DatabaseApi.status (snd r) = 200
   /\ DatabaseApi.body (snd r) =
      DatabaseApi.Answer
        (snd (Database.checkAccess randomUUID now macs
                (DatabaseApi.withClientIP ip dev) (DatabaseApi.macDB w))))
  /\
  (forall bad,
      In bad macs -> Database.validateMACAddress bad = false ->
      DatabaseApi.status (snd r) = 400 /\ fst r = w).
Proof.
  intros Hm Hne Hd. cbv zeta. unfold DatabaseApi.handleCheckAccess.
  cbn [String.eqb Ascii.eqb Bool.eqb negb]. rewrite Hm, Hd.
  destruct macs as [|c l]; [contradiction|]. split.
  - intros Hall. rewrite (find_all_valid _ Hall).
    destruct (Database.checkAccess _ _ _ _ _) as [d result].
    split; reflexivity.
  - intros bad Hin Hbad.
    destruct (find_invalid (c :: l) bad Hin Hbad) as (mac & F & _).
    rewrite F. split; reflexivity.
Qed.

Lemma database_check_access_status_witness :
  DatabaseApi.status
    (snd (DatabaseApi.handleCheckAccess sampleUUID 2000 "POST"
            (checkRequest (Some Samples.device) [Samples.other])
            "198.51.100.4"
            {| DatabaseApi.macDB := listedWorld;
               DatabaseApi.rateLimitStore := JsMap.clear |})) = 200
  /\
  DatabaseApi.status
    (snd (DatabaseApi.handleCheckAccess sampleUUID 2000 "POST"
            (checkRequest (Some Samples.device) [Samples.mac; "eth0"])
            "198.51.100.4"
            {| DatabaseApi.macDB := listedWorld;
               DatabaseApi.rateLimitStore := JsMap.clear |})) = 400.
Proof.
  split.
  - exact (proj1 (proj1 (database_check_access_status sampleUUID 2000
                           (checkRequest (Some Samples.device) [Samples.other])
                           "198.51.100.4"
                           {| DatabaseApi.macDB := listedWorld;
                              DatabaseApi.rateLimitStore := JsMap.clear |}
                           [Samples.other] Samples.device
                           eq_refl ltac:(discriminate) eq_refl)
                    eq_refl)).
  - exact (proj1 (proj2 (database_check_access_status sampleUUID 2000
                           (checkRequest (Some Samples.device)
                              [Samples.mac; "eth0"])
                           "198.51.100.4"
                           {| DatabaseApi.macDB := listedWorld;
                              DatabaseApi.rateLimitStore := JsMap.clear |}
                           [Samples.mac; "eth0"] Samples.device
                           eq_refl ltac:(discriminate) eq_refl)
                    "eth0" (or_intror (or_introl eq_refl)) eq_refl)).
Defined.

(** ** [MACDatabase]: adding, then checking *)


(** ** [MACDatabase]: the listing *)

Lemma filter_length_le (A : Type) (p q : A -> bool) (l : list A) :
  (forall x, p x = true -> q x = true) ->
  (List.length (filter p l) <= List.length (filter q l))%nat.
Proof.
  intros H. induction l as [|x r IH]; simpl; [lia|].
  destruct (p x) eqn:P; [rewrite (H x P); simpl; lia|].
  destruct (q x); simpl; lia.
Qed.

Lemma filter_length_disjoint (A : Type) (p q : A -> bool) (l : list A) :
  (forall x, p x = true -> q x = false) ->
  (List.length (filter p l) + List.length (filter q l) <= List.length l)%nat.
Proof.
  intros H. induction l as [|x r IH]; simpl; [lia|].
  destruct (p x) eqn:P; [rewrite (H x P); simpl; lia|].
  destruct (q x); simpl; lia.
Qed.

(** X21.  listMACAddresses of MACDatabase lists the stored entries in
    the order of the database file, one per key; its counts are not
    negative, [total] is the number of entries, every entry active in
    the last 24 hours is active in the last 7 days, no entry is counted
    both as active and as never used; and the call writes to neither
    file. *)
Theorem database_listing (now : Z) (w : Database.World) :
  let r := Database.listMACAddresses now w in
  let st := Database.listing_statistics (snd r) in
  map Database.listed_macAddress (Database.listing_macAddresses (snd r)) =
    JsMap.keys (Database.stored w)
  /\ Database.list_total st = JsMap.size (Database.stored w)
  /\ 0 <= Database.list_activeLast24h st <= Database.list_activeLast7d st
  /\ 0 <= Database.list_neverUsed st
  /\ Database.list_activeLast7d st + Database.list_neverUsed st
     <= Database.list_total st
  /\ onDisk (fst r) = onDisk w.
Proof.
  cbv zeta. unfold Database.listMACAddresses.
  rewrite (surjective_pairing (Database.readDatabase now w)).
  rewrite DatabaseFacts.readDatabase_entries, DatabaseFacts.readDatabase_world.
  cbn [fst snd Database.listing_macAddresses Database.listing_statistics
       Database.list_total Database.list_activeLast24h
       Database.list_activeLast7d Database.list_neverUsed].
  set (macList := map Database.listed (Database.stored w)).
  split; [|split; [|split; [|split; [|split]]]].
  - unfold macList, JsMap.keys. rewrite map_map.
    apply map_ext. now intros [k e].
  - unfold macList, JsMap.size. now rewrite length_map.
  - split; [lia|]. apply inj_le. apply filter_length_le.
    intros x. unfold Database.seenWithin.
    destruct (Database.listed_lastSeen x) as [t|]; [|discriminate].
    intros H. apply Z.leb_le in H. apply Z.leb_le. lia.
  - lia.
  - rewrite <- Nat2Z.inj_add. apply inj_le. apply filter_length_disjoint.
    intros x. unfold Database.seenWithin, Database.neverListedSeen.
    destruct (Database.listed_lastSeen x); [reflexivity | discriminate].
  - reflexivity.
Qed.

(** ** bulk-add over the database *)

Lemma includes_In l a : Js.includes l (Some a) = true -> In a l.
Proof.
  unfold Js.includes. intros H. apply existsb_exists in H.
  destruct H as [x [Hin Heq]]. apply String.eqb_eq in Heq. now subst x.
Qed.

Lemma firstInvalid_None items :
  DatabaseApi.firstInvalid items = None -> Forall ValidItem items.
Proof.
  induction items as [|item rest IH]; simpl; intros H; [constructor|].
  destruct (negb (Js.truthy (item_macAddress item))
            || negb (Database.validateMACAddress
                       match item_macAddress item with
                       | Some m => m
                       | None => "undefined"
                       end)) eqn:C1; [discriminate|].
  destruct (Js.truthy (item_accessType item)
            && negb (Js.includes validAccessTypes (item_accessType item)))
    eqn:C2; [discriminate|].
  constructor; [|now apply IH].
  apply orb_false_iff in C1. destruct C1 as [C1 C1'].
  apply negb_false_iff in C1, C1'.
  destruct (item_macAddress item) as [m|] eqn:M; [|discriminate].
  exists m. split; [exact M|]. split; [exact C1'|].
  destruct (item_accessType item) as [a|]; [|simpl; auto].
  unfold Js.orElse. simpl in C2.
  destruct (a =? "")%string; [simpl; auto|]. simpl in C2.
  apply negb_false_iff in C2. now apply includes_In.
Qed.

Section ValidatedLoop.
Variable randomUUID : nat -> string.
Variable now : Z.

Lemma bulkLoop_valid items :
  Forall ValidItem items ->
  forall s,
  exists s' records,
    Database.bulkLoop randomUUID now items s = Some s'
    /\ Database.bulk_results s' = (Database.bulk_results s ++ records)%list
    /\ List.length records = List.length items
    /\ Forall GoodOutcome records
    /\ Database.bulk_addedCount s' + Database.bulk_skippedCount s' =
       Database.bulk_addedCount s + Database.bulk_skippedCount s
       + Z.of_nat (List.length items)
    /\ onDisk (Database.bulk_world s') = onDisk (Database.bulk_world s).
Proof.
  induction 1 as [|item rest Hitem Hrest IH]; intros s.
  - exists s, []. cbn. rewrite app_nil_r. repeat split; [constructor | lia].
  - destruct Hitem as (m & Hm & Hv & Ht).
    assert (Hk : Database.validateMACAddress (Js.toLowerCase m) = true)
      by (unfold Database.validateMACAddress in *;
          now rewrite macGroups_toLowerCase).
    cbn [Database.bulkLoop]. unfold Database.bulkStep. rewrite Hm.
    destruct (JsMap.get (Js.toLowerCase m) _) as [e|];
      cbv beta iota zeta delta [Database.draw].
    + match goal with
      | |- context [Database.bulkLoop _ _ rest ?s1] =>
          destruct (IH s1) as (s' & records & H1 & H2 & H3 & H4 & H5 & H6)
      end.
      exists s', (Database.Skipped (Js.toLowerCase m) :: records).
      cbn in H2, H5, H6.
      split; [exact H1|]. split; [now rewrite H2, <- app_assoc|].
      split; [simpl; now rewrite H3|]. split; [now constructor|].
      split; [|exact H6].
      rewrite H5. cbn [List.length]. lia.
    + match goal with
      | |- context [Database.bulkLoop _ _ rest ?s1] =>
          destruct (IH s1) as (s' & records & H1 & H2 & H3 & H4 & H5 & H6)
      end.
      exists s', (Database.Added (Js.toLowerCase m)
                    (Js.orElse (item_accessType item) "trial") :: records).
      cbn in H2, H5, H6.
      split; [exact H1|]. split; [now rewrite H2, <- app_assoc|].
      split; [simpl; now rewrite H3|].
      split; [constructor; [now split | exact H4]|].
      split; [|exact H6].
      rewrite H5. cbn [List.length]. lia.
Qed.

End ValidatedLoop.

(** X22.  handleBulkAdd over the database, for a POST request with the
    admin key and a batch that passes the validation loop, when the
    database file can be written: the answer is 200 with one outcome
    record per element, [added] and [skipped] add up to [total], and
    every record names an address that matches the address pattern and,
    for an added one, one of the three tiers. *)
Theorem validated_bulk_add (randomUUID : nat -> string) (env : option string)
    (now : Z) (req : BulkRequest) (w : DatabaseApi.World)
    (items : list BulkItem) :
  DatabaseApi.verifyAdminKey (bulk_adminKey req)
    (DatabaseApi.requiredAdminKey env) = true ->
  bulk_macAddresses req = Some items -> items <> [] ->
  DatabaseApi.firstInvalid items = None ->
  Database.macFile_writable (DatabaseApi.macDB w) = true ->
  let r := DatabaseApi.handleBulkAdd randomUUID env now "POST" req w in
  exists report,
    snd r = {| DatabaseApi.status := 200;
               DatabaseApi.body := DatabaseApi.Report report |}
    /\ Database.report_success report = true
    /\ List.length (Database.report_results report) = List.length items
    /\ Database.report_total report = Z.of_nat (List.length items)
    /\ Database.report_added report + Database.report_skipped report =
       Database.report_total report
    /\ Forall GoodOutcome (Database.report_results report).
Proof.
  intros Hkey Hitems Hne Hvalid Hw. cbv zeta.
  unfold DatabaseApi.handleBulkAdd.
  cbn [String.eqb Ascii.eqb Bool.eqb negb]. rewrite Hkey, Hitems.
  cbn [negb]. destruct items as [|i l]; [contradiction|].
  rewrite Hvalid.
  unfold Database.bulkAddMACs.
  rewrite (surjective_pairing (Database.readDatabase now _)).
  rewrite DatabaseFacts.readDatabase_world.
  match goal with
  | |- context [Database.bulkLoop _ _ _ ?s0] =>
      destruct (bulkLoop_valid randomUUID now (i :: l)
                  (firstInvalid_None _ Hvalid) s0)
        as (s' & records & H1 & H2 & H3 & H4 & H5 & H6)
  end.
  rewrite H1.
  cbn [Database.bulk_results Database.bulk_addedCount
       Database.bulk_skippedCount Database.bulk_world app] in H2, H5, H6.
  unfold onDisk in H6. cbn [Database.macFile_writable Database.record] in H6.
  injection H6 as _ H6 _ _.
  unfold Database.writeDatabase. rewrite H6, Hw.
  cbn [fst snd Database.report_success DatabaseApi.statusOf].
  eexists. split; [reflexivity|].
  cbn [Database.report_success Database.report_results Database.report_total
       Database.report_added Database.report_skipped].
  rewrite H2. split; [reflexivity|]. split; [exact H3|].
  split; [reflexivity|]. split; [lia | exact H4].
Qed.

Lemma validated_bulk_add_witness :
  DatabaseApi.status
    (snd (DatabaseApi.handleBulkAdd sampleUUID None 2000 "POST" validBatch
            {| DatabaseApi.macDB := listedWorld;
               DatabaseApi.rateLimitStore := JsMap.clear |})) = 200.
Proof.
  destruct (validated_bulk_add sampleUUID None 2000 validBatch
              {| DatabaseApi.macDB := listedWorld;
                 DatabaseApi.rateLimitStore := JsMap.clear |}
              _ eq_refl eq_refl ltac:(discriminate) eq_refl eq_refl)
    as (report & H & _).
  rewrite H. reflexivity.
Defined.

(** ** api/mac-auth.js keeps nothing between requests *)

Section StoreDetermines.
Variable World : Type.
Variable getStore : World -> Store.
Variable setStore : Store -> World -> World.
Variable getStatistics : World -> Statistics.
Variable setStatistics : Statistics -> World -> World.
Variable save : Z -> World -> World * option bool.
Variable unsaved : option bool.
Variable env : option string.

Hypothesis get_set : forall s w, getStore (setStore s w) = s.
Hypothesis save_keeps_store :
  forall now w, getStore (fst (save now w)) = getStore w.
Hypothesis statistics_keep_store :
  forall st w, getStore (setStatistics st w) = getStore w.
Hypothesis get_set_statistics :
  forall st w, getStatistics (setStatistics st w) = st.
Hypothesis save_flag : forall now w w', snd (save now w) = snd (save now w').

Lemma saved_pair now s w1 w2 (R : option bool -> Response) :
  let a := (let (w, saved) := save now (setStore s w1) in (w, R saved)) in
  let b := (let (w, saved) := save now (setStore s w2) in (w, R saved)) in
  snd a = snd b /\ getStore (fst a) = getStore (fst b).
Proof.
  cbv zeta.
  pose proof (save_flag now (setStore s w1) (setStore s w2)) as F.
  pose proof (save_keeps_store now (setStore s w1)) as S1.
  pose proof (save_keeps_store now (setStore s w2)) as S2.
  destruct (save now (setStore s w1)) as [a f1].
  destruct (save now (setStore s w2)) as [b f2].
  cbn [fst snd] in *. subst f2. rewrite S1, S2, !get_set. auto.
Qed.

Lemma dispatch_by_store now request w1 w2 :
  getStore w1 = getStore w2 ->
  let r1 := dispatch getStore setStore getStatistics setStatistics save
              unsaved env now request w1 in
  let r2 := dispatch getStore setStore getStatistics setStatistics save
              unsaved env now request w2 in
  snd r1 = snd r2 /\ getStore (fst r1) = getStore (fst r2).
Proof.
  intros H. cbv zeta. destruct request as [b|b|b|b|b|b|]; simpl.
  - unfold handleCheckAccess. rewrite H.
    destruct (chk_macAddresses b) as [[|c r]|]; try (split; [reflexivity | exact H]).
    destruct (findAuthorized (getStore w2) (c :: r)) as [[k e]|];
      [|split; [reflexivity | exact H]].
    apply saved_pair.
  - unfold handleAddMAC. rewrite H.
    destruct (negb (validateAdminKey env (add_adminKey b)));
      [split; [reflexivity | exact H]|].
    destruct (add_macAddress b) as [m|]; [|split; [reflexivity | exact H]].
    destruct (m =? "")%string; [split; [reflexivity | exact H]|].
    destruct (JsMap.has (Js.toLowerCase m) (getStore w2));
      [split; [reflexivity | exact H]|].
    apply (saved_pair now _ w1 w2
             (fun saved => {| status := 201; success := true;
                              message := "MAC address added successfully";
                              data := EntryData _; persistent := saved |})).
  - unfold handleUpdateAccess. rewrite H.
    destruct (negb (validateAdminKey env (upd_adminKey b)));
      [split; [reflexivity | exact H]|].
    destruct (negb (Js.truthy (upd_macAddress b))
              || negb (Js.truthy (upd_accessType b)));
      [split; [reflexivity | exact H]|].
    destruct (negb (Js.includes validAccessTypes (upd_accessType b)));
      [split; [reflexivity | exact H]|].
    destruct (JsMap.get _ (getStore w2)) as [e|];
      [|split; [reflexivity | exact H]].
    apply (saved_pair now _ w1 w2
             (fun saved => {| status := 200; success := true;
                              message := "Access type updated successfully";
                              data := EntryData _; persistent := saved |})).
  - unfold handleRemoveMAC. rewrite H.
    destruct (negb (validateAdminKey env (rem_adminKey b)));
      [split; [reflexivity | exact H]|].
    destruct (negb (Js.truthy (rem_macAddress b)));
      [split; [reflexivity | exact H]|].
    destruct (negb (JsMap.has _ (getStore w2)));
      [split; [reflexivity | exact H]|].
    apply (saved_pair now _ w1 w2
             (fun saved => {| status := 200; success := true;
                              message := "MAC address removed successfully";
                              data := NoData; persistent := saved |})).
  - unfold handleListMACs.
    destruct (negb (validateAdminKey env (list_adminKey b)));
      [split; [reflexivity | exact H]|].
    cbn [fst snd]. rewrite !statistics_keep_store, !get_set_statistics, H.
    split; reflexivity.
  - unfold handleBulkAdd. rewrite H.
    destruct (negb (validateAdminKey env (bulk_adminKey b)));
      [split; [reflexivity | exact H]|].
    destruct (bulk_macAddresses b) as [items|];
      [|split; [reflexivity | exact H]].
    destruct (bulk_addedCount _ >? 0).
    + apply (saved_pair now _ w1 w2
               (fun saved => {| status := 200; success := true;
                                message := _; data := _;
                                persistent := saved |})).
    + cbn [fst snd]. rewrite !get_set. split; reflexivity.
  - split; [reflexivity | exact H].
Qed.

End StoreDetermines.


(** ** api/mac-auth-enhanced.js reads storage once *)

Section DispatchRel.
Variable World : Type.
Variable getStore : World -> Store.
Variable setStore : Store -> World -> World.
Variable getStatistics : World -> Statistics.
Variable setStatistics : Statistics -> World -> World.
Variable save : Z -> World -> World * option bool.
Variable unsaved : option bool.
Variable env : option string.
Variable R : World -> World -> Prop.

Hypothesis R_refl : forall w, R w w.
Hypothesis R_setStore_save :
  forall now s w, R w (fst (save now (setStore s w))).
Hypothesis R_setStore : forall s w, R w (setStore s w).
Hypothesis R_setStatistics : forall st w, R w (setStatistics st w).

Lemma dispatch_rel now request w :
  R w (fst (dispatch getStore setStore getStatistics setStatistics
              save unsaved env now request w)).
Proof.
  destruct request as [b|b|b|b|b|b|]; simpl.
  - unfold handleCheckAccess.
    destruct (chk_macAddresses b) as [[|c r]|]; try apply R_refl.
    destruct (findAuthorized (getStore w) (c :: r)) as [[k e]|];
      [|apply R_refl].
    after_save. apply R_setStore_save.
  - unfold handleAddMAC.
    destruct (negb (validateAdminKey env (add_adminKey b))); [apply R_refl|].
    destruct (add_macAddress b) as [m|]; [|apply R_refl].
    destruct (m =? "")%string; [apply R_refl|].
    destruct (JsMap.has (Js.toLowerCase m) (getStore w)); [apply R_refl|].
    after_save. apply R_setStore_save.
  - unfold handleUpdateAccess.
    destruct (negb (validateAdminKey env (upd_adminKey b))); [apply R_refl|].
    destruct (negb (Js.truthy (upd_macAddress b))
              || negb (Js.truthy (upd_accessType b))); [apply R_refl|].
    destruct (negb (Js.includes validAccessTypes (upd_accessType b)));
      [apply R_refl|].
    destruct (JsMap.get _ (getStore w)) as [e|]; [|apply R_refl].
    after_save. apply R_setStore_save.
  - unfold handleRemoveMAC.
    destruct (negb (validateAdminKey env (rem_adminKey b))); [apply R_refl|].
    destruct (negb (Js.truthy (rem_macAddress b))); [apply R_refl|].
    destruct (negb (JsMap.has _ (getStore w))); [apply R_refl|].
    after_save. apply R_setStore_save.
  - unfold handleListMACs.
    destruct (negb (validateAdminKey env (list_adminKey b))); [apply R_refl|].
    simpl. apply R_setStatistics.
  - unfold handleBulkAdd.
    destruct (negb (validateAdminKey env (bulk_adminKey b))); [apply R_refl|].
    destruct (bulk_macAddresses b) as [items|]; [|apply R_refl].
    destruct (bulk_addedCount _ >? 0).
    + after_save. apply R_setStore_save.
    + simpl. apply R_setStore.
  - apply R_refl.
Qed.

End DispatchRel.

Lemma WroteOnly_refl w : WroteOnly w w.
Proof. exists []. now rewrite app_nil_r. Qed.

Lemma attempt_no_read d jsonData target :
  forallb (fun c => negb (isRead Enhanced.Loc c))
    (EnhancedPersist.attempt d jsonData target) = true.
Proof.
  unfold EnhancedPersist.attempt.
  destruct (Enhanced.name target =? "Primary")%string; [|reflexivity].
  now destruct (can_mkdir d).
Qed.

Lemma enhanced_save_wrote_only now w : WroteOnly w (fst (Enhanced.saveToStorage now w)).
Proof.
  unfold WroteOnly. rewrite EnhancedFacts.save_disk.
  rewrite EnhancedPersistFacts.saveTargets_journal.
  eexists. split; [reflexivity|].
  induction Enhanced.targets as [|t r IH]; simpl; [reflexivity|].
  rewrite forallb_app, attempt_no_read. exact IH.
Qed.

(** X24.  Once api/mac-auth-enhanced.js is initialised, its exported
    handler serves every request from memory: whatever the action, it
    makes no read of any storage location, so that what another process
    writes to the files is never seen; the calls it does make are those
    of saveToStorage. *)
Theorem enhanced_handler_reads_once (env : option string) (now : Z)
    (request : option Request) (w : Enhanced.World) :
  Enhanced.initialized w = true ->
  WroteOnly w (fst (Enhanced.handler env now request w)).
Proof.
  intros Hi. rewrite enhanced_handler_world.
  unfold Enhanced.initializeStorage. rewrite Hi.
  destruct request as [r|]; [|apply WroteOnly_refl].
  apply (dispatch_rel _ Enhanced.getStore Enhanced.setStore
           Enhanced.getStatistics Enhanced.setStatistics
           Enhanced.saveToStorage (Some false) env WroteOnly WroteOnly_refl).
  - intros t s x.
    exact (enhanced_save_wrote_only t (Enhanced.setStore s x)).
  - intros s x. apply (WroteOnly_refl (Enhanced.setStore s x)).
  - intros st x. apply (WroteOnly_refl (Enhanced.setStatistics st x)).
Qed.

Lemma enhanced_handler_reads_once_witness :
  WroteOnly runningWorld
    (fst (Enhanced.handler None 2000
            (Some (CheckAccess (checkRequest None [Samples.mac])))
            runningWorld)).
Proof.
  exact (enhanced_handler_reads_once None 2000
           (Some (CheckAccess (checkRequest None [Samples.mac])))
           runningWorld eq_refl).
Defined.

(** ** [MACDatabase]: removing, then checking; counting accesses *)


Lemma listed_total later x :
  Database.list_totalAccesses
    (Database.listing_statistics (snd (Database.listMACAddresses later x)))
  = match Database.macFile x with
    | Some (Database.Holds d) =>
        Js.or0 (Database.totalAccesses (Database.statistics d))
    | Some Database.Unparseable | None => 0
    end.
Proof.
  unfold Database.listMACAddresses, Database.readDatabase.
  destruct (Database.macFile x) as [[|d]|]; reflexivity.
Qed.

Lemma check_granted_file randomUUID now candidates deviceInfo w d k e :
  Database.macFile w = Some (Database.Holds d) ->
  Database.macFile_writable w = true ->
  Database.findEntry d candidates = Some (k, e) ->
  Database.macFile
    (fst (Database.checkAccess randomUUID now candidates deviceInfo w))
  = Some (Database.Holds
            (Database.stamp now
               (Database.countAccess
                  (Database.withMacAddresses
                     (JsMap.set k (Database.touch now deviceInfo e)
                        (Database.macAddresses d)) d)))).
Proof.
  intros Hf Hw F. unfold Database.checkAccess, Database.readDatabase.
  rewrite Hf, F.
  rewrite (surjective_pairing (Database.writeDatabase _ _ _)).
  cbn [fst].
  rewrite (proj1 (DatabaseFiles.log_keeps_database randomUUID now k deviceInfo
                    true "Access granted" _)).
  unfold Database.writeDatabase, Database.record.
  cbn [Database.macFile_writable]. rewrite Hw. reflexivity.
Qed.

Lemma check_denied_file randomUUID now candidates deviceInfo w d :
  Database.macFile w = Some (Database.Holds d) ->
  Database.findEntry d candidates = None ->
  Database.macFile
    (fst (Database.checkAccess randomUUID now candidates deviceInfo w))
  = Database.macFile w.
Proof.
  intros Hf F. unfold Database.checkAccess, Database.readDatabase.
  rewrite Hf, F. cbn [fst].
  now rewrite (proj1 (DatabaseFiles.log_keeps_database randomUUID now _
                        deviceInfo false "MAC address not whitelisted" _)).
Qed.


(* ===================================================================== *)
(** * Sequences of requests through the exported handlers *)
(* ===================================================================== *)

(** ** api/mac-auth.js: what the load at the start of a request finds *)

Lemma basic_adopt_disk data x :
  Basic.disk (Basic.adopt data x) = Basic.disk x.
Proof.
  unfold Basic.adopt. destruct data as [|d]; [reflexivity|].
  destruct (doc_macAddresses d); destruct (doc_statistics d); reflexivity.
Qed.

(** The files after a load: the main data file has become the backup
    when it could not be parsed, the backup could, and the write was
    accepted; everything else is as it was. *)
Lemma basic_load_content w l :
  content (Basic.disk (Basic.loadMACWhitelist w)) l =
  match Basic.parseFile (content (Basic.disk w) Basic.DATA_FILE),
        content (Basic.disk w) Basic.BACKUP_FILE with
  | None, Some (Json p) =>
      if writable (Basic.disk w) Basic.DATA_FILE
         && Basic.Loc_eqb Basic.DATA_FILE l
      then Some (Json p) else content (Basic.disk w) l
  | _, _ => content (Basic.disk w) l
  end.
Proof.
  unfold Basic.loadMACWhitelist, Basic.ensureDataDirectory, mkdir, readFile.
  cbn [fst snd record content].
  destruct (Basic.parseFile (content (Basic.disk w) Basic.DATA_FILE));
    [now rewrite basic_adopt_disk|].
  destruct (content (Basic.disk w) Basic.BACKUP_FILE) as [[|p]|];
    cbn [Basic.parseFile]; try (now rewrite basic_adopt_disk).
  unfold writeFile. cbn [writable record content journal].
  destruct (writable (Basic.disk w) Basic.DATA_FILE);
    rewrite basic_adopt_disk; reflexivity.
Qed.

Lemma basic_load_writable w l :
  writable (Basic.disk (Basic.loadMACWhitelist w)) l =
  writable (Basic.disk w) l.
Proof.
  unfold Basic.loadMACWhitelist, Basic.ensureDataDirectory, mkdir, readFile.
  cbn [fst snd record content].
  destruct (Basic.parseFile (content (Basic.disk w) Basic.DATA_FILE));
    [now rewrite basic_adopt_disk|].
  destruct (content (Basic.disk w) Basic.BACKUP_FILE) as [[|p]|];
    cbn [Basic.parseFile]; try (now rewrite basic_adopt_disk).
  unfold writeFile. cbn [writable record content journal].
  destruct (writable (Basic.disk w) Basic.DATA_FILE);
    rewrite basic_adopt_disk; reflexivity.
Qed.

(** A second load, from the files the first one left, finds the same
    whitelist. *)
Lemma basic_load_twice cold w :
  Basic.disk cold = Basic.disk (Basic.loadMACWhitelist w) ->
  Basic.macWhitelist (Basic.loadMACWhitelist cold) =
  Basic.macWhitelist (Basic.loadMACWhitelist w).
Proof.
  intros Hd. rewrite !basic_load_store. rewrite Hd, !basic_load_content.
  destruct (Basic.parseFile (content (Basic.disk w) Basic.DATA_FILE)) as [p|]
    eqn:M; [now rewrite M|].
  destruct (content (Basic.disk w) Basic.BACKUP_FILE) as [[|p]|] eqn:B;
    cbn [Basic.parseFile]; try (now rewrite M).
  cbn [Basic.Loc_eqb]. rewrite andb_true_r, andb_false_r.
  destruct (writable (Basic.disk w) Basic.DATA_FILE); cbn [Basic.parseFile].
  - reflexivity.
  - now rewrite M.
Qed.

(** A load from the files a save left, when the main data file took the
    write, finds the whitelist that was saved. *)
Lemma basic_load_saved now w cold :
  WellKeyed (Basic.macWhitelist w) ->
  writable (Basic.disk w) Basic.DATA_FILE = true ->
  Basic.disk cold = Basic.disk (fst (Basic.saveMACWhitelist now w)) ->
  Basic.macWhitelist (Basic.loadMACWhitelist cold) = Basic.macWhitelist w.
Proof.
  intros Hk Hw Hd.
  destruct (basic_load_snapshot cold (JsMap.values (Basic.macWhitelist w))
              (Basic.statistics w) (Some now) (Some "1.0")) as [H1 _].
  - left. now rewrite Hd, PersistFacts.basic_content, Hw.
  - rewrite H1. now apply populate_values_back.
Qed.

Section SavedFacts.
Variable World : Type.
Variable getStore : World -> Store.
Variable setStore : Store -> World -> World.
Variable getStatistics : World -> Statistics.
Variable setStatistics : Statistics -> World -> World.
Variable save : Z -> World -> World * option bool.
Variable unsaved : option bool.
Variable env : option string.

(** A check, add, update or remove that succeeds ends with the persist
    procedure, run on the world with the new store. *)
Lemma dispatch_success_saved now request w :
  oneEntryAction request = true ->
  success (snd (dispatch getStore setStore getStatistics setStatistics
                  save unsaved env now request w)) = true ->
  exists s,
    fst (dispatch getStore setStore getStatistics setStatistics
           save unsaved env now request w) = fst (save now (setStore s w)).
Proof.
  destruct request as [b|b|b|b|b|b|]; simpl; try discriminate; intros _.
  - unfold handleCheckAccess.
    destruct (chk_macAddresses b) as [[|c r]|]; try discriminate.
    destruct (findAuthorized (getStore w) (c :: r)) as [[k e]|];
      [|discriminate].
    intros _. eexists. after_save. reflexivity.
  - unfold handleAddMAC.
    destruct (negb (validateAdminKey env (add_adminKey b))); [discriminate|].
    destruct (add_macAddress b) as [m|]; [|discriminate].
    destruct (m =? "")%string; [discriminate|].
    destruct (JsMap.has (Js.toLowerCase m) (getStore w)); [discriminate|].
    intros _. eexists. after_save. reflexivity.
  - unfold handleUpdateAccess.
    destruct (negb (validateAdminKey env (upd_adminKey b))); [discriminate|].
    destruct (negb (Js.truthy (upd_macAddress b))
              || negb (Js.truthy (upd_accessType b))); [discriminate|].
    destruct (negb (Js.includes validAccessTypes (upd_accessType b)));
      [discriminate|].
    destruct (JsMap.get _ (getStore w)) as [e|]; [|discriminate].
    intros _. eexists. after_save. reflexivity.
  - unfold handleRemoveMAC.
    destruct (negb (validateAdminKey env (rem_adminKey b))); [discriminate|].
    destruct (negb (Js.truthy (rem_macAddress b))); [discriminate|].
    destruct (negb (JsMap.has _ (getStore w))); [discriminate|].
    intros _. eexists. after_save. reflexivity.
Qed.

End SavedFacts.

Lemma basic_dispatch_well_keyed env now request w :
  WellKeyed (Basic.macWhitelist w) ->
  WellKeyed (Basic.macWhitelist (fst (Basic.dispatch env now request w))).
Proof.
  apply (dispatch_well_keyed _ Basic.getStore Basic.setStore
           Basic.getStatistics Basic.setStatistics Basic.saveMACWhitelist
           None env BasicFacts.basic_get_set BasicFacts.basic_save_keeps_store
           basic_statistics_keep_store).
Qed.

(** After a check, add, update or remove through the exported handler,
    when the main data file takes writes, the load of the next request
    finds the whitelist the handler left. *)
Lemma basic_reload env now request w :
  oneEntryAction request = true ->
  writable (Basic.disk w) Basic.DATA_FILE = true ->
  let w1 := fst (Basic.handler env now request w) in
  Basic.macWhitelist (Basic.loadMACWhitelist w1) = Basic.macWhitelist w1.
Proof.
  intros Ha Hw w1. subst w1. unfold Basic.handler.
  set (wl := Basic.loadMACWhitelist w).
  destruct (success (snd (Basic.dispatch env now request wl))) eqn:S.
  - destruct (dispatch_success_saved _ Basic.getStore Basic.setStore
                Basic.getStatistics Basic.setStatistics
                Basic.saveMACWhitelist None env now request wl Ha S)
      as [s Hs].
    pose proof (basic_dispatch_well_keyed env now request wl
                  (basic_load_well_keyed w)) as Hk.
    unfold Basic.dispatch in *. rewrite Hs in *.
    rewrite BasicFacts.basic_save_world in Hk. cbn in Hk.
    rewrite (basic_load_saved now (Basic.setStore s wl)).
    + now rewrite BasicFacts.basic_save_world.
    + exact Hk.
    + change (writable (Basic.disk wl) Basic.DATA_FILE = true).
      unfold wl. now rewrite basic_load_writable.
    + reflexivity.
  - unfold Basic.dispatch.
    rewrite (dispatch_failure_unchanged _ Basic.getStore Basic.setStore
               Basic.getStatistics Basic.setStatistics
               Basic.saveMACWhitelist None env now request wl S).
    now apply basic_load_twice.
Qed.

Lemma basic_dispatch_by_store env now request w1 w2 :
  Basic.macWhitelist w1 = Basic.macWhitelist w2 ->
  snd (Basic.dispatch env now request w1) =
  snd (Basic.dispatch env now request w2)
  /\ Basic.macWhitelist (fst (Basic.dispatch env now request w1)) =
     Basic.macWhitelist (fst (Basic.dispatch env now request w2)).
Proof.
  intros H.
  apply (dispatch_by_store _ Basic.getStore Basic.setStore
           Basic.getStatistics Basic.setStatistics Basic.saveMACWhitelist
           None env BasicFacts.basic_get_set
           BasicFacts.basic_save_keeps_store basic_statistics_keep_store
           (fun _ _ => eq_refl)).
  - intros t a b. now rewrite !BasicFacts.save_returns_nothing.
  - exact H.
Qed.

(** The request that follows is then answered as the action switch
    answers it on the whitelist the first request left. *)
Lemma basic_second_request env now later request next w :
  oneEntryAction request = true ->
  writable (Basic.disk w) Basic.DATA_FILE = true ->
  let w1 := fst (Basic.handler env now request w) in
  snd (Basic.handler env later next w1) = snd (Basic.dispatch env later next w1)
  /\ Basic.macWhitelist (fst (Basic.handler env later next w1)) =
     Basic.macWhitelist (fst (Basic.dispatch env later next w1)).
Proof.
  intros Ha Hw w1. unfold Basic.handler at 1 2.
  apply basic_dispatch_by_store.
  exact (basic_reload env now request w Ha Hw).
Qed.

(** ** api/mac-auth-enhanced.js: the second request runs on the state
    the first one left *)

Lemma enhanced_handler_answer env now request w :
  snd (Enhanced.handler env now (Some request) w) =
  inr (snd (Enhanced.dispatch env now request
              (Enhanced.initializeStorage now w))).
Proof.
  unfold Enhanced.handler.
  now destruct (Enhanced.dispatch env now request _).
Qed.

Lemma enhanced_handler_leaves_initialized env now request w :
  Enhanced.initialized (fst (Enhanced.handler env now request w)) = true.
Proof.
  rewrite enhanced_handler_world. destruct request as [r|].
  - rewrite enhanced_dispatch_initialized.
    apply initializeStorage_initialized.
  - apply initializeStorage_initialized.
Qed.

Lemma enhanced_second_request env later next w1 :
  Enhanced.initialized w1 = true ->
  Enhanced.handler env later (Some next) w1 =
  (fst (Enhanced.dispatch env later next w1),
   inr (snd (Enhanced.dispatch env later next w1))).
Proof.
  intros Hi. unfold Enhanced.handler, Enhanced.initializeStorage.
  rewrite Hi. now destruct (Enhanced.dispatch env later next w1).
Qed.

(** ** Adding twice, removing, and checking afterwards, request by
    request *)

Lemma basic_add_as_handler env now req w :
  Basic.handler env now (AddMAC req) w =
  handleAddMAC Basic.getStore Basic.setStore Basic.saveMACWhitelist env
    now req (Basic.loadMACWhitelist w).
Proof. reflexivity. Qed.

Lemma basic_remove_as_handler env now req w :
  Basic.handler env now (RemoveMAC req) w =
  handleRemoveMAC Basic.getStore Basic.setStore Basic.saveMACWhitelist env
    now req (Basic.loadMACWhitelist w).
Proof. reflexivity. Qed.

Lemma enhanced_add_has env now req w m :
  validateAdminKey env (add_adminKey req) = true ->
  add_macAddress req = Some m -> m <> "" ->
  JsMap.has (Js.toLowerCase m)
    (Enhanced.macAddresses
       (fst (Enhanced.handler env now (Some (AddMAC req)) w))) = true.
Proof.
  intros K M Hne. rewrite enhanced_handler_world.
  apply (add_has _ Enhanced.getStore Enhanced.setStore Enhanced.saveToStorage
           env EnhancedFacts.enhanced_get_set
           EnhancedFacts.enhanced_save_keeps_store now req _ m K M Hne).
Qed.

(** X7.  Through the exported handlers of both Map-backed variants:
    after an add-mac request with a valid key for an address (whether it
    was answered 201 or 409), a second add-mac request for any spelling
    of that address that differs in letter case only is answered 409 and
    leaves the store as it was.  api/mac-auth.js loads its whitelist
    from the files before every request, and there this needs a main
    data file that takes writes. *)
Theorem duplicate_add_is_rejected :
  (forall (env : option string) (now later : Z) (first second : AddRequest)
          (w : Basic.World) (m m' : string),
      validateAdminKey env (add_adminKey first) = true ->
      validateAdminKey env (add_adminKey second) = true ->
      add_macAddress first = Some m -> m <> "" ->
      add_macAddress second = Some m' ->
      Js.toLowerCase m' = Js.toLowerCase m ->
      writable (Basic.disk w) Basic.DATA_FILE = true ->
      let w1 := fst (Basic.handler env now (AddMAC first) w) in
      let r2 := Basic.handler env later (AddMAC second) w1 in
      snd r2 =
        reply 409 false "MAC address already exists in whitelist" NoData
      /\ Basic.macWhitelist (fst r2) = Basic.macWhitelist w1)
  /\
  (forall (env : option string) (now later : Z) (first second : AddRequest)
          (w : Enhanced.World) (m m' : string),
      validateAdminKey env (add_adminKey first) = true ->
      validateAdminKey env (add_adminKey second) = true ->
      add_macAddress first = Some m -> m <> "" ->
      add_macAddress second = Some m' ->
      Js.toLowerCase m' = Js.toLowerCase m ->
      let w1 := fst (Enhanced.handler env now (Some (AddMAC first)) w) in
      Enhanced.handler env later (Some (AddMAC second)) w1 =
      (w1,
       inr (reply 409 false "MAC address already exists in whitelist" NoData))).
Proof.
  split.
  - intros env now later first second w m m' K1 K2 M1 Hne M2 Hsame Hw w1 r2.
    destruct (basic_second_request env now later (AddMAC first)
                (AddMAC second) w eq_refl Hw) as [Hs Hst].
    fold w1 in Hs, Hst. subst r2. rewrite Hs, Hst.
    change (Basic.dispatch env later (AddMAC second) w1)
      with (handleAddMAC Basic.getStore Basic.setStore Basic.saveMACWhitelist
              env later second w1).
    rewrite (add_present _ Basic.getStore Basic.setStore
               Basic.saveMACWhitelist env later second w1 m' K2 M2
               (same_key_nonempty m m' Hne Hsame)).
    + split; reflexivity.
    + rewrite Hsame. unfold w1. rewrite basic_add_as_handler.
      apply (add_has _ Basic.getStore Basic.setStore Basic.saveMACWhitelist
               env BasicFacts.basic_get_set BasicFacts.basic_save_keeps_store
               now first _ m K1 M1 Hne).
  - intros env now later first second w m m' K1 K2 M1 Hne M2 Hsame w1.
    rewrite (enhanced_second_request env later (AddMAC second) w1
               (enhanced_handler_leaves_initialized env now _ w)).
    change (Enhanced.dispatch env later (AddMAC second) w1)
      with (handleAddMAC Enhanced.getStore Enhanced.setStore
              Enhanced.saveToStorage env later second w1).
    rewrite (add_present _ Enhanced.getStore Enhanced.setStore
               Enhanced.saveToStorage env later second w1 m' K2 M2
               (same_key_nonempty m m' Hne Hsame)).
    + reflexivity.
    + rewrite Hsame. exact (enhanced_add_has env now first w m K1 M1 Hne).
Qed.

Lemma duplicate_add_is_rejected_witness :
  status
    (snd (Basic.handler None 2000
            (AddMAC {| add_macAddress := Some Samples.mac;
                       add_description := None;
                       add_accessType := Some "admin";
                       add_adminKey := Samples.key |})
            (fst (Basic.handler None 1000
                    (AddMAC (Samples.addLaptop None)) Basic.initial))))
  = 409.
Proof.
  destruct duplicate_add_is_rejected as [HA _].
  rewrite (proj1 (HA None 1000 2000 (Samples.addLaptop None)
                    {| add_macAddress := Some Samples.mac;
                       add_description := None;
                       add_accessType := Some "admin";
                       add_adminKey := Samples.key |}
                    Basic.initial Samples.MAC Samples.mac
                    eq_refl eq_refl eq_refl ltac:(discriminate) eq_refl
                    eq_refl eq_refl)).
  reflexivity.
Defined.

(** X8.  Through the exported handlers of both Map-backed variants: a
    remove-mac request with a valid key for an address that the store of
    the request holds is answered 200 and leaves the entries under every
    other key as they were; the check-access request that follows, if
    its candidates are all spellings of that address, is answered 403
    and leaves the store as it was.  In api/mac-auth.js, which loads its
    whitelist from the files before every request, this needs a main
    data file that takes writes. *)
Theorem removed_address_is_denied :
  (forall (env : option string) (now later : Z) (req : RemoveRequest)
          (w : Basic.World) (m : string),
      validateAdminKey env (rem_adminKey req) = true ->
      rem_macAddress req = Some m -> m <> "" ->
      JsMap.has (Js.toLowerCase m)
        (Basic.macWhitelist (Basic.loadMACWhitelist w)) = true ->
      writable (Basic.disk w) Basic.DATA_FILE = true ->
      let r1 := Basic.handler env now (RemoveMAC req) w in
      status (snd r1) = 200
      /\ (forall k, k <> Js.toLowerCase m ->
            JsMap.get k (Basic.macWhitelist (fst r1)) =
            JsMap.get k (Basic.macWhitelist (Basic.loadMACWhitelist w)))
      /\ (forall deviceInfo candidates,
            candidates <> [] ->
            (forall c, In c candidates -> Js.toLowerCase c = Js.toLowerCase m) ->
            let r2 := Basic.handler env later
                        (CheckAccess (checkRequest deviceInfo candidates))
                        (fst r1) in
            snd r2 =
              reply 403 false
                "Device not authorized. MAC address not in whitelist."
                NullData
            /\ Basic.macWhitelist (fst r2) = Basic.macWhitelist (fst r1)))
  /\
  (forall (env : option string) (now later : Z) (req : RemoveRequest)
          (w : Enhanced.World) (m : string),
      validateAdminKey env (rem_adminKey req) = true ->
      rem_macAddress req = Some m -> m <> "" ->
      JsMap.has (Js.toLowerCase m)
        (Enhanced.macAddresses (Enhanced.initializeStorage now w)) = true ->
      let r1 := Enhanced.handler env now (Some (RemoveMAC req)) w in
      (exists resp, snd r1 = inr resp /\ status resp = 200)
      /\ (forall k, k <> Js.toLowerCase m ->
            JsMap.get k (Enhanced.macAddresses (fst r1)) =
            JsMap.get k
              (Enhanced.macAddresses (Enhanced.initializeStorage now w)))
      /\ (forall deviceInfo candidates,
            candidates <> [] ->
            (forall c, In c candidates -> Js.toLowerCase c = Js.toLowerCase m) ->
            Enhanced.handler env later
              (Some (CheckAccess (checkRequest deviceInfo candidates)))
              (fst r1)
            = (fst r1,
               inr (reply 403 false
                      "Device not authorized. MAC address not in whitelist."
                      NullData)))).
Proof.
  split.
  - intros env now later req w m K M Hne Hhas Hw r1.
    destruct (remove_present _ Basic.getStore Basic.setStore
                Basic.saveMACWhitelist env
                BasicFacts.basic_get_set BasicFacts.basic_save_keeps_store
                now req (Basic.loadMACWhitelist w) m K M Hne Hhas)
      as (Hs & _ & Hstore).
    rewrite <- basic_remove_as_handler in Hs, Hstore. fold r1 in Hs, Hstore.
    split; [exact Hs|]. split.
    + intros k Hk. unfold Basic.getStore in Hstore. rewrite Hstore.
      now apply JsMapFacts.get_delete_other.
    + intros deviceInfo candidates Hc Hall r2.
      destruct (basic_second_request env now later (RemoveMAC req)
                  (CheckAccess (checkRequest deviceInfo candidates))
                  w eq_refl Hw) as [Hr Hst].
      fold r1 in Hr, Hst. subst r2. rewrite Hr, Hst.
      change (Basic.dispatch env later
                (CheckAccess (checkRequest deviceInfo candidates)) (fst r1))
        with (handleCheckAccess Basic.getStore Basic.setStore
                Basic.saveMACWhitelist later
                (checkRequest deviceInfo candidates) (fst r1)).
      rewrite (check_all_absent _ Basic.getStore Basic.setStore
                 Basic.saveMACWhitelist later deviceInfo candidates (fst r1)
                 Hc).
      * split; reflexivity.
      * intros c Hin. rewrite (Hall c Hin), Hstore.
        apply JsMapFacts.has_false_get, JsMapFacts.get_delete_same.
  - intros env now later req w m K M Hne Hhas r1.
    destruct (remove_present _ Enhanced.getStore Enhanced.setStore
                Enhanced.saveToStorage env
                EnhancedFacts.enhanced_get_set
                EnhancedFacts.enhanced_save_keeps_store
                now req (Enhanced.initializeStorage now w) m K M Hne Hhas)
      as (Hs & _ & Hstore).
    assert (Hst : Enhanced.macAddresses (fst r1) =
                  JsMap.delete (Js.toLowerCase m)
                    (Enhanced.macAddresses (Enhanced.initializeStorage now w))).
    { unfold r1. rewrite enhanced_handler_world. exact Hstore. }
    split; [|split].
    + eexists. split; [apply enhanced_handler_answer | exact Hs].
    + intros k Hk. rewrite Hst. now apply JsMapFacts.get_delete_other.
    + intros deviceInfo candidates Hc Hall.
      rewrite (enhanced_second_request env later _ (fst r1)
                 (enhanced_handler_leaves_initialized env now _ w)).
      change (Enhanced.dispatch env later
                (CheckAccess (checkRequest deviceInfo candidates)) (fst r1))
        with (handleCheckAccess Enhanced.getStore Enhanced.setStore
                Enhanced.saveToStorage later
                (checkRequest deviceInfo candidates) (fst r1)).
      rewrite (check_all_absent _ Enhanced.getStore Enhanced.setStore
                 Enhanced.saveToStorage later deviceInfo candidates (fst r1)
                 Hc).
      * reflexivity.
      * intros c Hin. rewrite (Hall c Hin). unfold Enhanced.getStore.
        rewrite Hst.
        apply JsMapFacts.has_false_get, JsMapFacts.get_delete_same.
Qed.

Lemma removed_address_is_denied_witness :
  status
    (snd (Basic.handler None 3000
            (CheckAccess (checkRequest None [Samples.MAC; Samples.mac]))
            (fst (Basic.handler None 2000
                    (RemoveMAC {| rem_macAddress := Some Samples.MAC;
                                  rem_adminKey := Samples.key |})
                    brokenMain))))
  = 403.
Proof.
  destruct removed_address_is_denied as [HA _].
  destruct (HA None 2000 3000
              {| rem_macAddress := Some Samples.MAC;
                 rem_adminKey := Samples.key |}
              brokenMain Samples.MAC
              eq_refl eq_refl ltac:(discriminate) eq_refl eq_refl)
    as (_ & _ & Hc).
  rewrite (proj1 (Hc None [Samples.MAC; Samples.mac] ltac:(discriminate)
                    ltac:(intros c [<-|[<-|[]]]; reflexivity))).
  reflexivity.
Defined.

(** X9.  Through the exported handlers of both Map-backed variants:
    adding an address that the store of the request does not hold and
    then removing it, under any spelling that differs in letter case
    only, is answered 201 and then 200 and leaves the store exactly as
    the first request found it.  In api/mac-auth.js, which loads its
    whitelist from the files before every request, this needs a main
    data file that takes writes. *)
Theorem add_then_remove_restores_store :
  (forall (env : option string) (now later : Z) (a : AddRequest)
          (r : RemoveRequest) (w : Basic.World) (m m' : string),
      validateAdminKey env (add_adminKey a) = true ->
      validateAdminKey env (rem_adminKey r) = true ->
      add_macAddress a = Some m -> m <> "" ->
      rem_macAddress r = Some m' ->
      Js.toLowerCase m' = Js.toLowerCase m ->
      JsMap.has (Js.toLowerCase m)
        (Basic.macWhitelist (Basic.loadMACWhitelist w)) = false ->
      writable (Basic.disk w) Basic.DATA_FILE = true ->
      let r1 := Basic.handler env now (AddMAC a) w in
      let r2 := Basic.handler env later (RemoveMAC r) (fst r1) in
      status (snd r1) = 201
      /\ status (snd r2) = 200
      /\ Basic.macWhitelist (fst r2) =
         Basic.macWhitelist (Basic.loadMACWhitelist w))
  /\
  (forall (env : option string) (now later : Z) (a : AddRequest)
          (r : RemoveRequest) (w : Enhanced.World) (m m' : string),
      validateAdminKey env (add_adminKey a) = true ->
      validateAdminKey env (rem_adminKey r) = true ->
      add_macAddress a = Some m -> m <> "" ->
      rem_macAddress r = Some m' ->
      Js.toLowerCase m' = Js.toLowerCase m ->
      JsMap.has (Js.toLowerCase m)
        (Enhanced.macAddresses (Enhanced.initializeStorage now w)) = false ->
      let r1 := Enhanced.handler env now (Some (AddMAC a)) w in
      let r2 := Enhanced.handler env later (Some (RemoveMAC r)) (fst r1) in
      (exists resp, snd r1 = inr resp /\ status resp = 201)
      /\ (exists resp, snd r2 = inr resp /\ status resp = 200)
      /\ Enhanced.macAddresses (fst r2) =
         Enhanced.macAddresses (Enhanced.initializeStorage now w)).
Proof.
  split.
  - intros env now later a r w m m' K1 K2 M1 Hne M2 Hsame Hfresh Hw r1 r2.
    set (wl := Basic.loadMACWhitelist w) in *.
    pose proof (add_fresh _ Basic.getStore Basic.setStore
                  Basic.saveMACWhitelist env now a wl m K1 M1 Hne Hfresh)
      as Hadd.
    cbv zeta in Hadd.
    change (handleAddMAC Basic.getStore Basic.setStore Basic.saveMACWhitelist
              env now a wl) with r1 in Hadd.
    assert (Hst1 : Basic.macWhitelist (fst r1) =
                   JsMap.set (Js.toLowerCase m)
                     (newEntry now (Js.toLowerCase m) (add_description a)
                        "No description" (finalAccessType (add_accessType a)))
                     (Basic.macWhitelist wl)).
    { rewrite Hadd. cbn [fst].
      now rewrite BasicFacts.basic_save_world. }
    destruct (basic_second_request env now later (AddMAC a) (RemoveMAC r)
                w eq_refl Hw) as [Hr Hst].
    fold r1 in Hr, Hst. subst r2. rewrite Hr, Hst.
    change (Basic.dispatch env later (RemoveMAC r) (fst r1))
      with (handleRemoveMAC Basic.getStore Basic.setStore
              Basic.saveMACWhitelist env later r (fst r1)).
    destruct (remove_present _ Basic.getStore Basic.setStore
                Basic.saveMACWhitelist env
                BasicFacts.basic_get_set BasicFacts.basic_save_keeps_store
                later r (fst r1) m' K2 M2 (same_key_nonempty m m' Hne Hsame))
      as (Hs & _ & Hstore).
    { unfold Basic.getStore. rewrite Hst1, Hsame.
      apply JsMapFacts.has_set_same. }
    split; [now rewrite Hadd|]. split; [exact Hs|].
    etransitivity; [exact Hstore|].
    unfold Basic.getStore. rewrite Hst1, Hsame.
    apply delete_set_fresh. now apply JsMapFacts.has_false_get.
  - intros env now later a r w m m' K1 K2 M1 Hne M2 Hsame Hfresh r1 r2.
    set (wl := Enhanced.initializeStorage now w) in *.
    pose proof (add_fresh _ Enhanced.getStore Enhanced.setStore
                  Enhanced.saveToStorage env now a wl m K1 M1 Hne Hfresh)
      as Hadd.
    cbv zeta in Hadd.
    assert (Hw1 : fst r1 =
                  fst (handleAddMAC Enhanced.getStore Enhanced.setStore
                         Enhanced.saveToStorage env now a wl)).
    { unfold r1. now rewrite enhanced_handler_world. }
    assert (Hst1 : Enhanced.macAddresses (fst r1) =
                   JsMap.set (Js.toLowerCase m)
                     (newEntry now (Js.toLowerCase m) (add_description a)
                        "No description" (finalAccessType (add_accessType a)))
                     (Enhanced.macAddresses wl)).
    { rewrite Hw1, Hadd. cbn [fst].
      now rewrite EnhancedFacts.enhanced_save_world. }
    split; [|split].
    + eexists. split; [apply enhanced_handler_answer|].
      fold wl.
      change (Enhanced.dispatch env now (AddMAC a) wl)
        with (handleAddMAC Enhanced.getStore Enhanced.setStore
                Enhanced.saveToStorage env now a wl).
      now rewrite Hadd.
    + subst r2.
      rewrite (enhanced_second_request env later _ (fst r1)
                 (enhanced_handler_leaves_initialized env now _ w)).
      eexists. split; [reflexivity|].
      change (Enhanced.dispatch env later (RemoveMAC r) (fst r1))
        with (handleRemoveMAC Enhanced.getStore Enhanced.setStore
                Enhanced.saveToStorage env later r (fst r1)).
      apply (remove_present _ Enhanced.getStore Enhanced.setStore
               Enhanced.saveToStorage env
               EnhancedFacts.enhanced_get_set
               EnhancedFacts.enhanced_save_keeps_store
               later r (fst r1) m' K2 M2 (same_key_nonempty m m' Hne Hsame)).
      unfold Enhanced.getStore. rewrite Hst1, Hsame.
      apply JsMapFacts.has_set_same.
    + subst r2.
      rewrite (enhanced_second_request env later _ (fst r1)
                 (enhanced_handler_leaves_initialized env now _ w)).
      cbn [fst].
      change (Enhanced.dispatch env later (RemoveMAC r) (fst r1))
        with (handleRemoveMAC Enhanced.getStore Enhanced.setStore
                Enhanced.saveToStorage env later r (fst r1)).
      destruct (remove_present _ Enhanced.getStore Enhanced.setStore
                  Enhanced.saveToStorage env
                  EnhancedFacts.enhanced_get_set
                  EnhancedFacts.enhanced_save_keeps_store
                  later r (fst r1) m' K2 M2 (same_key_nonempty m m' Hne Hsame))
        as (_ & _ & Hstore).
      { unfold Enhanced.getStore. rewrite Hst1, Hsame.
        apply JsMapFacts.has_set_same. }
      etransitivity; [exact Hstore|].
      unfold Enhanced.getStore. rewrite Hst1, Hsame.
      apply delete_set_fresh. now apply JsMapFacts.has_false_get.
Qed.

Lemma add_then_remove_restores_store_witness :
  Basic.macWhitelist
    (fst (Basic.handler None 2000
            (RemoveMAC {| rem_macAddress := Some Samples.other;
                          rem_adminKey := Samples.key |})
            (fst (Basic.handler None 1000
                    (AddMAC {| add_macAddress := Some Samples.other;
                               add_description := None;
                               add_accessType := None;
                               add_adminKey := Samples.key |})
                    brokenMain))))
  = [(Samples.mac, Samples.laptop)].
Proof.
  destruct add_then_remove_restores_store as [HA _].
  exact (proj2 (proj2 (HA None 1000 2000
                         {| add_macAddress := Some Samples.other;
                            add_description := None; add_accessType := None;
                            add_adminKey := Samples.key |}
                         {| rem_macAddress := Some Samples.other;
                            rem_adminKey := Samples.key |}
                         brokenMain Samples.other Samples.other
                         eq_refl eq_refl eq_refl ltac:(discriminate) eq_refl
                         eq_refl eq_refl eq_refl))).
Defined.

(** ** api/mac-auth.js never uses the whitelist it holds *)

Lemma basic_adopt_ignores_store data d s w :
  Basic.adopt data (Basic.setDisk d (Basic.setStore s w)) =
  Basic.adopt data (Basic.setDisk d w).
Proof.
  unfold Basic.adopt. destruct data as [|doc]; [reflexivity|].
  destruct (doc_macAddresses doc); destruct (doc_statistics doc); reflexivity.
Qed.

Lemma basic_load_ignores_store s w :
  Basic.loadMACWhitelist (Basic.setStore s w) = Basic.loadMACWhitelist w.
Proof.
  unfold Basic.loadMACWhitelist, Basic.ensureDataDirectory, mkdir, readFile.
  cbn [fst snd record content Basic.disk Basic.setStore Basic.statistics].
  destruct (Basic.parseFile (content (Basic.disk w) Basic.DATA_FILE));
    [apply basic_adopt_ignores_store|].
  destruct (content (Basic.disk w) Basic.BACKUP_FILE) as [[|p]|];
    cbn [Basic.parseFile]; try apply basic_adopt_ignores_store.
  destruct (writeFile Basic.Loc_eqb Basic.DATA_FILE (Json p) _).
  apply basic_adopt_ignores_store.
Qed.

(** X23.  The whitelist that api/mac-auth.js holds in memory is never
    used by a request to its exported handler: the answer and the
    whitelist the request leaves depend on the request, the clock and
    the two files only.  The statistics block held in memory is not
    forgotten in this way (a load keeps it where the file gives none);
    when it is the same too, the whole state the request leaves, files
    included, is the same. *)
Theorem basic_handler_depends_on_files_only (env : option string) (now : Z)
    (request : Request) (w1 w2 : Basic.World) :
  Basic.disk w1 = Basic.disk w2 ->
  (snd (Basic.handler env now request w1) =
   snd (Basic.handler env now request w2)
   /\ Basic.macWhitelist (fst (Basic.handler env now request w1)) =
      Basic.macWhitelist (fst (Basic.handler env now request w2)))
  /\ (Basic.statistics w1 = Basic.statistics w2 ->
      Basic.handler env now request w1 = Basic.handler env now request w2).
Proof.
  intros Hd. split.
  - unfold Basic.handler. apply basic_dispatch_by_store.
    rewrite !basic_load_store. now rewrite Hd.
  - intros Hs. unfold Basic.handler. f_equal.
    rewrite <- (basic_load_ignores_store (Basic.macWhitelist w1) w2).
    f_equal. destruct w1, w2. cbn in *. now subst.
Qed.

Lemma basic_handler_depends_on_files_only_witness :
  Basic.handler None 2000
    (CheckAccess (checkRequest None [Samples.mac])) Samples.basicWorld
  = Basic.handler None 2000
      (CheckAccess (checkRequest None [Samples.mac])) Basic.initial.
Proof.
  exact (proj2 (basic_handler_depends_on_files_only None 2000
                  (CheckAccess (checkRequest None [Samples.mac]))
                  Samples.basicWorld Basic.initial eq_refl)
           eq_refl).
Defined.

(** ** [MACDatabase]: sequences of calls on a settled database *)

Module DatabaseSequence.
Import Database.

Section Methods.
Variable randomUUID : nat -> string.

Lemma add_fresh_result now m description tier w :
  macFile_writable w = true ->
  JsMap.has (Js.toLowerCase m) (stored w) = false ->
  own_property_only (Js.toLowerCase m) = true ->
  let e :=
    {| Database.description := description;
       accessType := Some (match tier with Some a => a | None => "trial" end);
       addedAt := now; updatedAt := None; lastSeen := None;
       accessCount := Some 0; lastDevice := None;
       id := randomUUID (drawn w) |} in
  snd (addMACAddress randomUUID now m description tier w) =
    {| success := true; message := "MAC address added successfully";
       granted := None; entry := Some e |}
  /\ stored (fst (addMACAddress randomUUID now m description tier w)) =
     JsMap.set (Js.toLowerCase m) e (stored w).
Proof.
  intros Hw Hhas Hown. cbv zeta. unfold addMACAddress.
  rewrite (surjective_pairing (readDatabase now w)).
  rewrite DatabaseFacts.readDatabase_entries, Hhas, Hown.
  cbn [orb negb]. unfold draw.
  rewrite (surjective_pairing (writeDatabase _ _ _)).
  rewrite DatabaseFrame.write_result.
  rewrite DatabaseFacts.readDatabase_world.
  unfold record. cbn [macFile_writable]. rewrite Hw.
  cbn [fst snd drawn]. split; [reflexivity|].
  rewrite DatabaseFrame.stored_after_write.
  cbn [macFile_writable]. rewrite ?Hw.
  cbn [withMacAddresses macAddresses].
  now rewrite ?DatabaseFacts.readDatabase_entries.
Qed.

Lemma add_present_result now m description tier w :
  JsMap.has (Js.toLowerCase m) (stored w) = true ->
  snd (addMACAddress randomUUID now m description tier w) =
  outcome false "MAC address already exists in whitelist".
Proof.
  intros Hhas. unfold addMACAddress.
  rewrite (surjective_pairing (readDatabase now w)).
  now rewrite DatabaseFacts.readDatabase_entries, Hhas.
Qed.

End Methods.
End DatabaseSequence.

(** X20.  MACDatabase, once both of its files exist and with a database
    file that can be written: adding an address that matches the
    address pattern and is not stored succeeds, and a check-access for
    any spelling of it that differs in letter case only is then granted,
    with the description and tier given at the add, the add time as
    [addedAt], the check time as [lastSeen] and an access count of 1;
    adding it once more fails. *)
Theorem database_add_then_check (randomUUID : nat -> string) (now later : Z)
    (m m' description : string) (tier : option string)
    (deviceInfo : DeviceInfo) (w : Database.World) :
  Settled w ->
  Database.macFile_writable w = true ->
  Database.validateMACAddress m = true ->
  JsMap.get (Js.toLowerCase m) (Database.stored w) = None ->
  Js.toLowerCase m' = Js.toLowerCase m ->
  let added := Database.addMACAddress randomUUID now m description tier w in
  Database.success (snd added) = true
  /\ snd (Database.checkAccess randomUUID later [m'] deviceInfo (fst added)) =
     {| Database.success := true;
        Database.message := "Device authorized";
        Database.granted :=
          Some {| view_macAddress := Js.toLowerCase m;
                  view_description := description;
                  view_accessType := Js.orElse tier "trial";
                  view_addedAt := now;
                  view_lastSeen := Some later;
                  view_accessCount := Some 1 |};
        Database.entry := None |}
  /\ snd (Database.addMACAddress randomUUID later m' description tier
            (fst added)) =
     Database.outcome false "MAC address already exists in whitelist".
Proof.
  intros _ Hw Hv G Hsame added.
  pose proof (DatabaseFacts.valid_mac_own_property m Hv) as Hown.
  assert (Hhas : JsMap.has (Js.toLowerCase m) (Database.stored w) = false)
    by now apply JsMapFacts.has_false_get.
  destruct (DatabaseSequence.add_fresh_result randomUUID now m description
              tier w Hw Hhas Hown) as [Hr Hs].
  fold added in Hr, Hs. split; [now rewrite Hr|]. split.
  - match type of Hs with
    | _ = JsMap.set _ ?e _ =>
        rewrite (DatabaseFacts.checkAccess_match randomUUID later [m']
                   deviceInfo (fst added) (Js.toLowerCase m) e)
    end.
    + cbn [snd]. unfold Database.viewOf, Database.touch.
      cbn [Database.description Database.accessType Database.addedAt
           Database.lastSeen Database.accessCount Js.or0].
      do 3 f_equal. destruct tier as [a|]; [|reflexivity].
      unfold Js.orElse. now destruct (a =? "")%string.
    + cbn [Database.findEntry].
      rewrite DatabaseFacts.readDatabase_entries, Hs, Hsame.
      now rewrite JsMapFacts.get_set_same.
  - apply DatabaseSequence.add_present_result.
    rewrite Hs, Hsame. apply JsMapFacts.has_set_same.
Qed.

Lemma database_add_then_check_witness :
  Database.success
    (snd (Database.checkAccess sampleUUID 2000 [Samples.other] Samples.device
            (fst (Database.addMACAddress sampleUUID 1000 "11:22:33:44:55:66"
                    "printer" (Some "admin") settledWorld)))) = true.
Proof.
  assert (Hs : Settled settledWorld) by (split; discriminate).
  assert (Hv : Database.validateMACAddress "11:22:33:44:55:66" = true)
    by reflexivity.
  assert (Hg : JsMap.get (Js.toLowerCase "11:22:33:44:55:66")
                 (Database.stored settledWorld) = None) by reflexivity.
  assert (Hl : Js.toLowerCase Samples.other =
               Js.toLowerCase "11:22:33:44:55:66") by reflexivity.
  destruct (database_add_then_check sampleUUID 1000 2000
              "11:22:33:44:55:66" Samples.other "printer" (Some "admin")
              Samples.device settledWorld Hs eq_refl Hv Hg Hl)
    as (_ & H & _).
  rewrite H. reflexivity.
Defined.

(** X25.  MACDatabase, once both of its files exist and with a
    database file that can be written: removing a stored address that
    matches the address pattern succeeds and leaves the entries under
    every other key as they were, and a check-access whose candidates
    are all spellings of the removed address is then refused without
    changing the database file. *)
Theorem database_remove_then_check (randomUUID : nat -> string)
    (now later : Z) (m : string) (e : Database.Entry)
    (candidates : list string) (deviceInfo : DeviceInfo)
    (w : Database.World) :
  Settled w ->
  Database.macFile_writable w = true ->
  Database.validateMACAddress m = true ->
  JsMap.get (Js.toLowerCase m) (Database.stored w) = Some e ->
  (forall c, In c candidates -> Js.toLowerCase c = Js.toLowerCase m) ->
  let removed := Database.removeMACAddress now m w in
  let checked :=
    Database.checkAccess randomUUID later candidates deviceInfo (fst removed) in
  snd removed = Database.outcome true "MAC address removed successfully"
  /\ Database.stored (fst removed) =
     JsMap.delete (Js.toLowerCase m) (Database.stored w)
  /\ (forall k, k <> Js.toLowerCase m ->
        JsMap.get k (Database.stored (fst removed)) =
        JsMap.get k (Database.stored w))
  /\ snd checked =
     Database.outcome false
       "Device not authorized. MAC address not in whitelist."
  /\ Database.macFile (fst checked) = Database.macFile (fst removed).
Proof.
  intros _ Hw _ G Hall. cbv zeta.
  assert (Hr : Database.removeMACAddress now m w =
               (fst (Database.writeDatabase now
                       (Database.withMacAddresses
                          (JsMap.delete (Js.toLowerCase m) (Database.stored w))
                          (snd (Database.readDatabase now w)))
                       (fst (Database.readDatabase now w))),
                Database.outcome true "MAC address removed successfully")).
  { unfold Database.removeMACAddress.
    rewrite (surjective_pairing (Database.readDatabase now w)).
    rewrite DatabaseFacts.readDatabase_entries, G.
    rewrite (surjective_pairing (Database.writeDatabase _ _ _)).
    rewrite DatabaseFrame.write_result, DatabaseFrame.writable_after_read, Hw.
    reflexivity. }
  rewrite Hr. cbn [fst snd].
  set (w1 := fst (Database.writeDatabase _ _ _)).
  assert (Hs : Database.stored w1 =
               JsMap.delete (Js.toLowerCase m) (Database.stored w)).
  { unfold w1. rewrite DatabaseFrame.stored_after_write.
    now rewrite DatabaseFrame.writable_after_read, Hw. }
  split; [reflexivity|]. split; [exact Hs|].
  split; [intros k Hk; rewrite Hs; now apply JsMapFacts.get_delete_other|].
  assert (F : Database.findEntry (snd (Database.readDatabase later w1))
                candidates = None).
  { clearbody w1. induction candidates as [|c r IH]; [reflexivity|].
    cbn [Database.findEntry].
    rewrite DatabaseFacts.readDatabase_entries, Hs.
    rewrite (Hall c (or_introl eq_refl)), JsMapFacts.get_delete_same.
    apply IH. intros x Hx. apply Hall. now right. }
  unfold Database.checkAccess.
  rewrite (surjective_pairing (Database.readDatabase later w1)), F.
  cbn [fst snd]. split; [reflexivity|].
  destruct (DatabaseFiles.log_keeps_database randomUUID later
              (Database.firstOrUnknown candidates) deviceInfo false
              "MAC address not whitelisted"
              (fst (Database.readDatabase later w1))) as (-> & _).
  apply DatabaseFrame.macFile_after_read.
Qed.

Lemma database_remove_then_check_witness :
  Database.success
    (snd (Database.checkAccess sampleUUID 3000 [Samples.MAC; Samples.mac]
            Samples.device
            (fst (Database.removeMACAddress 2000 Samples.MAC settledWorld))))
  = false.
Proof.
  assert (Hs : Settled settledWorld) by (split; discriminate).
  assert (Hv : Database.validateMACAddress Samples.MAC = true) by reflexivity.
  assert (Hg : JsMap.get (Js.toLowerCase Samples.MAC)
                 (Database.stored settledWorld) = Some listedEntry)
    by reflexivity.
  destruct (database_remove_then_check sampleUUID 2000 3000 Samples.MAC
              listedEntry [Samples.MAC; Samples.mac] Samples.device
              settledWorld Hs eq_refl Hv Hg) as (_ & _ & _ & H & _).
  - intros c [<-|[<-|[]]]; reflexivity.
  - rewrite H. reflexivity.
Defined.

(** X26.  MACDatabase, once both of its files exist, with a database
    file that parses and can be written, and for candidates that all
    match the address pattern: a granted check raises the
    [totalAccesses] that listMACAddresses reports by one, and the access
    count of the matched entry by one; a refused check raises
    neither. *)
Theorem database_counts_granted_checks (randomUUID : nat -> string)
    (now later : Z) (candidates : list string) (deviceInfo : DeviceInfo)
    (w : Database.World) (d : Database.Data) :
  Settled w ->
  Database.macFile w = Some (Database.Holds d) ->
  Database.macFile_writable w = true ->
  forallb Database.validateMACAddress candidates = true ->
  let total x :=
    Database.list_totalAccesses
      (Database.listing_statistics (snd (Database.listMACAddresses later x))) in
  let checked := Database.checkAccess randomUUID now candidates deviceInfo w in
  (forall k e,
      Database.findEntry d candidates = Some (k, e) ->
      total (fst checked) = total w + 1
      /\ JsMap.get k (Database.stored (fst checked)) =
         Some (Database.touch now deviceInfo e)
      /\ Database.accessCount (Database.touch now deviceInfo e) =
         Some (Js.or0 (Database.accessCount e) + 1))
  /\ (Database.findEntry d candidates = None ->
      total (fst checked) = total w
      /\ Database.stored (fst checked) = Database.stored w).
Proof.
  intros _ Hf Hw _. cbv zeta. split.
  - intros k e F. rewrite !listed_total. unfold Database.stored.
    rewrite (check_granted_file randomUUID now candidates deviceInfo w d k e
               Hf Hw F), Hf.
    cbn [Database.stamp Database.countAccess Database.statistics
         Database.totalAccesses Database.macAddresses
         Database.withMacAddresses Js.or0].
    split; [reflexivity|].
    split; [apply JsMapFacts.get_set_same | reflexivity].
  - intros F. rewrite !listed_total. unfold Database.stored.
    rewrite (check_denied_file randomUUID now candidates deviceInfo w d Hf F).
    split; reflexivity.
Qed.

Lemma database_counts_granted_checks_witness :
  Database.list_totalAccesses
    (Database.listing_statistics
       (snd (Database.listMACAddresses 3000
               (fst (Database.checkAccess sampleUUID 2000 [Samples.MAC]
                       Samples.device settledWorld))))) = 1.
Proof.
  assert (Hs : Settled settledWorld) by (split; discriminate).
  assert (Hv : forallb Database.validateMACAddress [Samples.MAC] = true)
    by reflexivity.
  destruct (database_counts_granted_checks sampleUUID 2000 3000
              [Samples.MAC] Samples.device settledWorld _ Hs eq_refl eq_refl Hv)
    as [H _].
  destruct (H Samples.mac listedEntry eq_refl) as (H1 & _).
  rewrite H1. reflexivity.
Defined.

(** ** Bookkeeping of a granted check, request by request *)

Section MatchFacts.
Variable World : Type.
Variable getStore : World -> Store.
Variable setStore : Store -> World -> World.
Variable save : Z -> World -> World * option bool.

Hypothesis get_set : forall s w, getStore (setStore s w) = s.
Hypothesis save_keeps_store :
  forall now w, getStore (fst (save now w)) = getStore w.

Lemma check_match_bookkeeping now deviceInfo w pre post c e :
  (forall x, In x pre -> JsMap.has (Js.toLowerCase x) (getStore w) = false) ->
  JsMap.get (Js.toLowerCase c) (getStore w) = Some e ->
  let r := handleCheckAccess getStore setStore save now
             (checkRequest deviceInfo (pre ++ c :: post)) w in
  exists e',
    status (snd r) = 200 /\ success (snd r) = true
    /\ JsMap.get (Js.toLowerCase c) (getStore (fst r)) = Some e'
    /\ accessCount e' = Some (Js.or0 (accessCount e) + 1)
    /\ lastSeen e' = Some now
    /\ (forall d, deviceInfo = Some d ->
          exists ld, lastDevice e' = Some ld /\ suppliedBy d ld)
    /\ fst r =
       fst (save now (setStore (JsMap.set (Js.toLowerCase c) e' (getStore w)) w)).
Proof.
  intros Hpre Hc r.
  pose proof (findAuthorized_first _ _ _ post _ Hpre Hc) as F.
  exists (noteDevice deviceInfo (touch now e)). subst r.
  rewrite (handleCheckAccess_match _ getStore setStore save now deviceInfo
             _ _ _ _ F).
  cbn [fst snd status success reply].
  rewrite save_keeps_store, get_set, JsMapFacts.get_set_same.
  split; [reflexivity|]. split; [reflexivity|]. split; [reflexivity|].
  split; [now destruct deviceInfo|]. split; [now destruct deviceInfo|].
  split; [|reflexivity].
  intros d ->. eexists. split; [reflexivity|].
  unfold suppliedBy. cbn. auto.
Qed.

End MatchFacts.



